(** * pyethereum: blocks.py and peer.py

    A shallow embedding of the block/state engine ([blocks.py]) and of the
    peer session ([peer.py]) of pyethereum, together with the properties
    that the specification states about them.

    The source is Python 2: [str] is a byte string, [/] on integers is floor
    division, [True == 1].  Objects that the source shares by reference (the
    journal list, the suicides list, the post-queue, the transactions trie)
    live in a store indexed by locations; everything that is reachable from a
    single name only is kept by value. *)

From Stdlib Require Import ZArith Lia Ascii String.
From stdpp Require Import base option list strings gmap.

Open Scope Z_scope.

(** ** Python exceptions and results *)

Inductive exn :=
  | AssertionError
  | KeyError
  | IndexError
  | TypeError
  | ValueError
  | AttributeError
  | ZeroDivisionError
  | UnknownParentException
  | PyException (msg : string).

#[global] Instance exn_eq_dec : EqDecision exn.
Proof. solve_decision. Defined.

Inductive outcome (A : Type) :=
  | Ok (a : A)
  | Raise (e : exn).
Arguments Ok {A} a.
Arguments Raise {A} e.


(** ** Python values held by the caches and by header fields *)

Inductive value :=
  | VInt (n : Z)
  | VStr (s : string)
  | VBool (b : bool).

#[global] Instance value_eq_dec : EqDecision value.
Proof. solve_decision. Defined.

(** Python's [bool] is a subclass of [int]. *)
Definition as_int (v : value) : option Z :=
  match v with
  | VInt n => Some n
  | VBool b => Some (if b then 1 else 0)
  | VStr _ => None
  end.

(** [v == w] *)
Definition py_eq (v w : value) : bool :=
  match as_int v, as_int w with
  | Some a, Some b => a =? b
  | None, None => bool_decide (v = w)
  | _, _ => false
  end.

(** [prev != value] where [prev] is the result of [dict.get(index, None)];
    no cache value is [None], so [None] differs from every value. *)
Definition py_ne_opt (prev : option value) (v : value) : bool :=
  match prev with
  | None => true
  | Some p => negb (py_eq p v)
  end.

(** Truth value of [if v:] *)
Definition truthy (v : value) : bool :=
  match v with
  | VInt n => negb (n =? 0)
  | VStr s => negb (bool_decide (s = ""%string))
  | VBool b => b
  end.

(** Keys of the cache dictionaries: addresses for the account caches,
    integers for the storage sub-caches. *)
Inductive key :=
  | KAddr (a : string)
  | KIdx (i : Z).

#[global] Instance key_eq_dec : EqDecision key.
Proof. solve_decision. Defined.

Definition key_to_sum (k : key) : string + Z :=
  match k with KAddr a => inl a | KIdx i => inr i end.
Definition sum_to_key (s : string + Z) : key :=
  match s with inl a => KAddr a | inr i => KIdx i end.

#[global] Instance key_countable : Countable key :=
  inj_countable' key_to_sum sum_to_key
    (λ k, match k with KAddr _ => eq_refl | KIdx _ => eq_refl end).

(** ** RLP items, as [rlp.decode] returns them *)

Unset Elimination Schemes.
Inductive rlp :=
  | RStr (s : string)
  | RList (l : list rlp).
Set Elimination Schemes.

(** [x or y] tests [x]: the empty string and the empty list are false. *)
Definition rlp_truthy (r : rlp) : bool :=
  match r with
  | RStr s => negb (bool_decide (s = ""%string))
  | RList l => negb (bool_decide (length l = 0%nat))
  end.

Definition char_at (s : string) (i : nat) : option string :=
  match String.get i s with
  | Some c => Some (String c EmptyString)
  | None => None
  end.

(** [r[i]] *)
Definition rlp_index (r : rlp) (i : nat) : outcome rlp :=
  match r with
  | RList l => match l !! i with Some x => Ok x | None => Raise IndexError end
  | RStr s => match char_at s i with Some c => Ok (RStr c) | None => Raise IndexError end
  end.

(** [r[i] = x]; a [str] does not support item assignment. *)
Definition rlp_set (r : rlp) (i : nat) (x : rlp) : outcome rlp :=
  match r with
  | RList l => if bool_decide (i < length l)%nat then Ok (RList (<[i := x]> l)) else Raise IndexError
  | RStr _ => Raise TypeError
  end.

Definition rlp_of_header (h : list string) : rlp := RList (RStr <$> h).

(** ** Module constants of blocks.py *)

Definition INITIAL_DIFFICULTY : Z := 2 ^ 17.
Definition GENESIS_PREVHASH : string := String.concat "" (replicate 32 (String Ascii.zero EmptyString)).
Definition GENESIS_COINBASE : string := String.concat "" (replicate 40 "0"%string).
Definition GENESIS_GAS_LIMIT : Z := 10 ^ 6.
Definition MIN_GAS_LIMIT : Z := 125000.
Definition GASLIMIT_EMA_FACTOR : Z := 1024.

(** Modelled from the spec: [utils.denoms.finney] is not part of the sources
    at hand; the specification gives [BLOCK_REWARD = 1500 * 10^15]. *)
Definition finney : Z := 10 ^ 15.

Definition BLOCK_REWARD : Z := 1500 * finney.
Definition UNCLE_REWARD : Z := 15 * BLOCK_REWARD / 16.
Definition NEPHEW_REWARD : Z := BLOCK_REWARD / 32.
Definition BLOCK_DIFF_FACTOR : Z := 1024.
Definition GENESIS_MIN_GAS_PRICE : Z := 0.
Definition BLKLIM_FACTOR_NOM : Z := 6.
Definition BLKLIM_FACTOR_DEN : Z := 5.
Definition DIFF_ADJUSTMENT_CUTOFF : Z := 5.

Definition RECORDING : Z := 1.
Definition NONE : Z := 0.
Definition VERIFYING : Z := -1.

Definition GENESIS_INITIAL_ALLOC : list (string * Z) :=
  [ ("51ba59315b3a95761d0863b05ccc7a7f54703d99"%string, 2 ^ 200);
    ("e6716f9544a56c530d868e4bfbacb172315bdead"%string, 2 ^ 200);
    ("b9c015918bdaba24b4ff057a92a3873d6eb201be"%string, 2 ^ 200);
    ("1a26338f0d905e295fccb71fa9ea849ffa12aaf4"%string, 2 ^ 200);
    ("2ef47100e0787b915105fd5e3f4ff6752079d5cb"%string, 2 ^ 200);
    ("cd2a3d9f938e13cd947ec05abc7fe734df8dd826"%string, 2 ^ 200);
    ("6c386a4b26f73c802f34673f7248bb118f97424a"%string, 2 ^ 200);
    ("e4157b34ea9615cfbde6b4fda419828124b70c78"%string, 2 ^ 200) ].

(** [block_structure]: name and codec type of the 13 header fields, in
    header order. *)
Definition block_structure : list (string * string) :=
  [ ("prevhash", "bin"); ("uncles_hash", "bin"); ("coinbase", "addr");
    ("state_root", "trie_root"); ("tx_list_root", "trie_root");
    ("difficulty", "int"); ("number", "int"); ("min_gas_price", "int");
    ("gas_limit", "int"); ("gas_used", "int"); ("timestamp", "int");
    ("extra_data", "bin"); ("nonce", "bin") ]%string.

(** [acct_structure]: name and codec type of the 4 account fields. *)
Definition acct_structure : list (string * string) :=
  [ ("nonce", "int"); ("balance", "int"); ("storage", "trie_root");
    ("code", "hash") ]%string.

Fixpoint find_index (name : string) (l : list (string * string)) (i : nat) : option (nat * string) :=
  match l with
  | [] => None
  | (n, t) :: l' => if bool_decide (n = name) then Some (i, t) else find_index name l' (S i)
  end.

Definition block_structure_rev (name : string) : option (nat * string) :=
  find_index name block_structure 0.
Definition acct_structure_rev (name : string) : option (nat * string) :=
  find_index name acct_structure 0.

(** ** Integers as big-endian byte strings *)

(** Modelled from the spec: [utils.big_endian_to_int] is not part of the
    sources at hand; the specification reads a byte string as a big-endian
    unsigned integer (the empty string is zero). *)
Definition big_endian_to_int (s : string) : Z :=
  fold_left (λ acc c, acc * 256 + Z.of_nat (nat_of_ascii c)) (list_ascii_of_string s) 0.

(** [idec] of peer.py is an alias of [big_endian_to_int]. *)
Definition idec : string → Z := big_endian_to_int.

(** The strings that [s.decode('hex')] accepts: the codec of Python 2 raises
    [TypeError] on a string of odd length and on a character that is not a
    hexadecimal digit, of either case. *)
Definition is_hex_digit (a : ascii) : bool :=
  let n := N_of_ascii a in
  ((48 <=? n) && (n <=? 57) || (65 <=? n) && (n <=? 70) || (97 <=? n) && (n <=? 102))%N.

Definition hex_decodable (s : string) : bool :=
  Nat.even (String.length s) && forallb is_hex_digit (list_ascii_of_string s).

(** ** The store of shared objects *)

(** A trie object: the attributes that blocks.py reads and assigns. *)
Record Trie := mkTrie {
  root_hash : string;
  t_proof_mode : option Z;
  t_proof_nodes : list string;
}.

(** [trie.Trie(utils.get_db_path(), root)] *)
Definition Trie_new (root : string) : Trie :=
  {| root_hash := root; t_proof_mode := None; t_proof_nodes := [] |}.

(** A journal entry [[cache, index, prev, value]]. *)
Record entry := mkEntry {
  e_cache : string;
  e_index : key;
  e_prev : option value;
  e_post : value;
}.

(** Elements of the post-queue are messages of the transaction executor,
    which blocks.py only stores. *)
Definition msg := string.

Definition loc := positive.

(** Lists and tries that are reachable under more than one name: a snapshot
    keeps references to the journal, to the suicides list and to the
    transactions trie of its block.  [db_puts] logs the [db.put] calls that
    blocks.py itself makes on the backing store. *)
Record heap := mkHeap {
  journals : gmap loc (list entry);
  strlists : gmap loc (list string);
  queues : gmap loc (list msg);
  tries : gmap loc Trie;
  db_puts : list (string * string);
}.

#[global] Instance Trie_inhabited : Inhabited Trie := populate (Trie_new "").

Definition empty_heap : heap :=
  {| journals := ∅; strlists := ∅; queues := ∅; tries := ∅; db_puts := [] |}.

Definition set_journals (f : gmap loc (list entry) → gmap loc (list entry)) (h : heap) : heap :=
  {| journals := f (journals h); strlists := strlists h; queues := queues h;
     tries := tries h; db_puts := db_puts h |}.
Definition set_strlists (f : gmap loc (list string) → gmap loc (list string)) (h : heap) : heap :=
  {| journals := journals h; strlists := f (strlists h); queues := queues h;
     tries := tries h; db_puts := db_puts h |}.
Definition set_queues (f : gmap loc (list msg) → gmap loc (list msg)) (h : heap) : heap :=
  {| journals := journals h; strlists := strlists h; queues := f (queues h);
     tries := tries h; db_puts := db_puts h |}.
Definition set_tries (f : gmap loc Trie → gmap loc Trie) (h : heap) : heap :=
  {| journals := journals h; strlists := strlists h; queues := queues h;
     tries := f (tries h); db_puts := db_puts h |}.
Definition set_db_puts (f : list (string * string) → list (string * string)) (h : heap) : heap :=
  {| journals := journals h; strlists := strlists h; queues := queues h;
     tries := tries h; db_puts := f (db_puts h) |}.

(** ** Blocks *)

Inductive block_class := ClsBlock | ClsCachedBlock.

#[global] Instance block_class_eq_dec : EqDecision block_class.
Proof. solve_decision. Defined.

(** The header attributes that a block stores itself; [state_root] and
    [tx_list_root] are properties computed from the tries. *)
Record Header := mkHeader {
  prevhash : string;
  uncles_hash : string;
  coinbase : string;
  difficulty : Z;
  number : Z;
  min_gas_price : Z;
  gas_limit : Z;
  gas_used : Z;
  timestamp : Z;
  extra_data : string;
  nonce : string;
}.

Definition set_gas_used (g : Z) (h : Header) : Header :=
  {| prevhash := prevhash h; uncles_hash := uncles_hash h; coinbase := coinbase h;
     difficulty := difficulty h; number := number h; min_gas_price := min_gas_price h;
     gas_limit := gas_limit h; gas_used := g; timestamp := timestamp h;
     extra_data := extra_data h; nonce := nonce h |}.

(** An instance of [Block] (or, after [create_cached], of [CachedBlock]). *)
Record Block := mkBlock {
  cls : block_class;
  hdr : Header;
  uncles : list (list string);
  suicides : loc;
  postqueue : loc;
  caches : gmap string (gmap key value);
  journal : loc;
  transactions : loc;
  transaction_count : Z;
  state : Trie;
  proof_mode : option Z;
  proof_nodes : list string;
  blank_acct : option (list rlp);
  hash_cached : option string;
}.

Definition set_cls (c : block_class) (b : Block) : Block :=
  {| cls := c; hdr := hdr b; uncles := uncles b; suicides := suicides b;
     postqueue := postqueue b; caches := caches b; journal := journal b;
     transactions := transactions b; transaction_count := transaction_count b;
     state := state b; proof_mode := proof_mode b; proof_nodes := proof_nodes b;
     blank_acct := blank_acct b; hash_cached := hash_cached b |}.
Definition set_hdr (x : Header) (b : Block) : Block :=
  {| cls := cls b; hdr := x; uncles := uncles b; suicides := suicides b;
     postqueue := postqueue b; caches := caches b; journal := journal b;
     transactions := transactions b; transaction_count := transaction_count b;
     state := state b; proof_mode := proof_mode b; proof_nodes := proof_nodes b;
     blank_acct := blank_acct b; hash_cached := hash_cached b |}.
Definition set_suicides (x : loc) (b : Block) : Block :=
  {| cls := cls b; hdr := hdr b; uncles := uncles b; suicides := x;
     postqueue := postqueue b; caches := caches b; journal := journal b;
     transactions := transactions b; transaction_count := transaction_count b;
     state := state b; proof_mode := proof_mode b; proof_nodes := proof_nodes b;
     blank_acct := blank_acct b; hash_cached := hash_cached b |}.
Definition set_postqueue (x : loc) (b : Block) : Block :=
  {| cls := cls b; hdr := hdr b; uncles := uncles b; suicides := suicides b;
     postqueue := x; caches := caches b; journal := journal b;
     transactions := transactions b; transaction_count := transaction_count b;
     state := state b; proof_mode := proof_mode b; proof_nodes := proof_nodes b;
     blank_acct := blank_acct b; hash_cached := hash_cached b |}.
Definition set_caches (x : gmap string (gmap key value)) (b : Block) : Block :=
  {| cls := cls b; hdr := hdr b; uncles := uncles b; suicides := suicides b;
     postqueue := postqueue b; caches := x; journal := journal b;
     transactions := transactions b; transaction_count := transaction_count b;
     state := state b; proof_mode := proof_mode b; proof_nodes := proof_nodes b;
     blank_acct := blank_acct b; hash_cached := hash_cached b |}.
Definition set_journal (x : loc) (b : Block) : Block :=
  {| cls := cls b; hdr := hdr b; uncles := uncles b; suicides := suicides b;
     postqueue := postqueue b; caches := caches b; journal := x;
     transactions := transactions b; transaction_count := transaction_count b;
     state := state b; proof_mode := proof_mode b; proof_nodes := proof_nodes b;
     blank_acct := blank_acct b; hash_cached := hash_cached b |}.
Definition set_transactions (x : loc) (b : Block) : Block :=
  {| cls := cls b; hdr := hdr b; uncles := uncles b; suicides := suicides b;
     postqueue := postqueue b; caches := caches b; journal := journal b;
     transactions := x; transaction_count := transaction_count b;
     state := state b; proof_mode := proof_mode b; proof_nodes := proof_nodes b;
     blank_acct := blank_acct b; hash_cached := hash_cached b |}.
Definition set_transaction_count (x : Z) (b : Block) : Block :=
  {| cls := cls b; hdr := hdr b; uncles := uncles b; suicides := suicides b;
     postqueue := postqueue b; caches := caches b; journal := journal b;
     transactions := transactions b; transaction_count := x;
     state := state b; proof_mode := proof_mode b; proof_nodes := proof_nodes b;
     blank_acct := blank_acct b; hash_cached := hash_cached b |}.
Definition set_state (x : Trie) (b : Block) : Block :=
  {| cls := cls b; hdr := hdr b; uncles := uncles b; suicides := suicides b;
     postqueue := postqueue b; caches := caches b; journal := journal b;
     transactions := transactions b; transaction_count := transaction_count b;
     state := x; proof_mode := proof_mode b; proof_nodes := proof_nodes b;
     blank_acct := blank_acct b; hash_cached := hash_cached b |}.
Definition set_proof_nodes (x : list string) (b : Block) : Block :=
  {| cls := cls b; hdr := hdr b; uncles := uncles b; suicides := suicides b;
     postqueue := postqueue b; caches := caches b; journal := journal b;
     transactions := transactions b; transaction_count := transaction_count b;
     state := state b; proof_mode := proof_mode b; proof_nodes := x;
     blank_acct := blank_acct b; hash_cached := hash_cached b |}.
Definition set_blank_acct (x : option (list rlp)) (b : Block) : Block :=
  {| cls := cls b; hdr := hdr b; uncles := uncles b; suicides := suicides b;
     postqueue := postqueue b; caches := caches b; journal := journal b;
     transactions := transactions b; transaction_count := transaction_count b;
     state := state b; proof_mode := proof_mode b; proof_nodes := proof_nodes b;
     blank_acct := x; hash_cached := hash_cached b |}.
Definition set_hash_cached (x : option string) (b : Block) : Block :=
  {| cls := cls b; hdr := hdr b; uncles := uncles b; suicides := suicides b;
     postqueue := postqueue b; caches := caches b; journal := journal b;
     transactions := transactions b; transaction_count := transaction_count b;
     state := state b; proof_mode := proof_mode b; proof_nodes := proof_nodes b;
     blank_acct := blank_acct b; hash_cached := x |}.

(** The four caches that the constructor and [reset_cache] create. *)
Definition fresh_caches : gmap string (gmap key value) :=
  {[ "all"%string := ∅; "balance"%string := ∅; "nonce"%string := ∅; "code"%string := ∅ ]}.

(** ** The world and the monad of methods

    A method runs on the object [w_self] and on the store; an exception
    keeps the state reached when it was raised. *)
Record world := mkWorld {
  w_heap : heap;
  w_self : Block;
}.

Definition M (A : Type) : Type := world → outcome A * world.

#[global] Instance M_ret : MRet M := λ A a σ, (Ok a, σ).
#[global] Instance M_bind : MBind M := λ A B k m σ,
  match m σ with
  | (Ok a, σ') => k a σ'
  | (Raise e, σ') => (Raise e, σ')
  end.

Definition raise {A} (e : exn) : M A := λ σ, (Raise e, σ).
Definition lift {A} (o : outcome A) : M A := λ σ, (o, σ).
Definition assert (c : bool) : M unit := if c then mret tt else raise AssertionError.

Definition get_self : M Block := λ σ, (Ok (w_self σ), σ).
Definition get_heap : M heap := λ σ, (Ok (w_heap σ), σ).
Definition modify_self (f : Block → Block) : M unit :=
  λ σ, (Ok tt, {| w_heap := w_heap σ; w_self := f (w_self σ) |}).
Definition modify_heap (f : heap → heap) : M unit :=
  λ σ, (Ok tt, {| w_heap := f (w_heap σ); w_self := w_self σ |}).

(** Run a method on another object [b]; gives the result together with
    the object as the call leaves it, and comes back to the caller's object. *)
Definition call_on {A} (b : Block) (m : M A) : M (A * Block) := λ σ,
  match m {| w_heap := w_heap σ; w_self := b |} with
  | (Ok a, σ') => (Ok (a, w_self σ'), {| w_heap := w_heap σ'; w_self := w_self σ |})
  | (Raise e, σ') => (Raise e, {| w_heap := w_heap σ'; w_self := w_self σ |})
  end.

(** [try: m except e: h] *)
Definition try_except {A} (m : M A) (e : exn) (h : M A) : M A := λ σ,
  match m σ with
  | (Raise e', σ') => if bool_decide (e' = e) then h σ' else (Raise e', σ')
  | r => r
  end.

Fixpoint for_each {A} (l : list A) (body : A → M unit) : M unit :=
  match l with
  | [] => mret tt
  | x :: l' => body x ;; for_each l' body
  end.

Fixpoint map_M {A B} (f : A → M B) (l : list A) : M (list B) :=
  match l with
  | [] => mret []
  | x :: l' => y ← f x; ys ← map_M f l'; mret (y :: ys)
  end.

(** Allocation of a new list or trie object. *)
Definition alloc_journal (j : list entry) : M loc := λ σ,
  let l := fresh (dom (journals (w_heap σ))) in
  (Ok l, {| w_heap := set_journals (insert l j) (w_heap σ); w_self := w_self σ |}).
Definition alloc_strlist (x : list string) : M loc := λ σ,
  let l := fresh (dom (strlists (w_heap σ))) in
  (Ok l, {| w_heap := set_strlists (insert l x) (w_heap σ); w_self := w_self σ |}).
Definition alloc_queue (q : list msg) : M loc := λ σ,
  let l := fresh (dom (queues (w_heap σ))) in
  (Ok l, {| w_heap := set_queues (insert l q) (w_heap σ); w_self := w_self σ |}).
Definition alloc_trie (t : Trie) : M loc := λ σ,
  let l := fresh (dom (tries (w_heap σ))) in
  (Ok l, {| w_heap := set_tries (insert l t) (w_heap σ); w_self := w_self σ |}).

(** Reading the objects behind the attributes of [self]. *)
Definition read_journal : M (list entry) := λ σ,
  (Ok (journals (w_heap σ) !!! journal (w_self σ)), σ).
Definition write_journal (j : list entry) : M unit :=
  b ← get_self; modify_heap (set_journals (insert (journal b) j)).
Definition read_suicides : M (list string) := λ σ,
  (Ok (strlists (w_heap σ) !!! suicides (w_self σ)), σ).
Definition write_suicides (x : list string) : M unit :=
  b ← get_self; modify_heap (set_strlists (insert (suicides b) x)).
Definition read_postqueue : M (list msg) := λ σ,
  (Ok (queues (w_heap σ) !!! postqueue (w_self σ)), σ).
Definition write_postqueue (q : list msg) : M unit :=
  b ← get_self; modify_heap (set_queues (insert (postqueue b) q)).
Definition read_transactions : M Trie := λ σ,
  (Ok (tries (w_heap σ) !!! transactions (w_self σ)), σ).
Definition write_transactions (t : Trie) : M unit :=
  b ← get_self; modify_heap (set_tries (insert (transactions b) t)).

(** ** External collaborators

    The codec ([rlp]), the hash, the field adapters of [utils], the trie,
    the block store and the packet encoder are imported by the two modules
    and are not part of them: they are taken as an interface.  These functions
    are total here; what an external library raises on input it rejects is
    outside the model, with one exception: [hex_decode] stands for
    [str.decode('hex')] on the strings that the codec accepts, and the
    [TypeError] that it raises on any other string is modelled by
    [decode_hex] below.

    [load_block h] is the result of [Block.deserialize(db.DB(...).get(h))],
    the body of [get_block], with [KeyError] for a hash the store lacks. *)
Class Env := {
  sha3 : string → string;
  rlp_encode : rlp → string;
  rlp_decode : string → rlp;
  hex_decode : string → string;
  encode_int : Z → string;
  encoders : string → value → string;
  decoders : string → rlp → value;
  zpad : string → Z → string;
  coerce_to_bytes : key → string;
  int_to_big_endian : value → string;
  BLANK_ROOT : string;
  trie_get : Trie → string → string;
  trie_update : Trie → string → string → Trie;
  trie_delete : Trie → string → Trie;
  root_hash_valid : Trie → bool;
  load_block : string → outcome Block;
  ETHEREUM_PROTOCOL_VERSION : Z;
  NETWORK_ID : Z;
  dump_Disconnect : option string → string;
}.

Section blocks.
Context {env : Env}.

(** [GENESIS_NONCE = utils.sha3(chr(42))] *)
Definition GENESIS_NONCE : string := sha3 (String (ascii_of_nat 42) EmptyString).

(** *** Difficulty and gas-limit recurrences *)

(** [calc_difficulty(parent, timestamp)] *)
Definition calc_difficulty (parent : Block) (timestamp' : Z) : Z :=
  let offset := difficulty (hdr parent) / BLOCK_DIFF_FACTOR in
  let sign := if timestamp' - timestamp (hdr parent) <? DIFF_ADJUSTMENT_CUTOFF then 1 else -1 in
  difficulty (hdr parent) + offset * sign.

(** [calc_gaslimit(parent)] *)
Definition calc_gaslimit (parent : Block) : Z :=
  let prior_contribution := gas_limit (hdr parent) * (GASLIMIT_EMA_FACTOR - 1) in
  let new_contribution := gas_used (hdr parent) * BLKLIM_FACTOR_NOM / BLKLIM_FACTOR_DEN in
  let gl := (prior_contribution + new_contribution) / GASLIMIT_EMA_FACTOR in
  Z.max gl MIN_GAS_LIMIT.

(** *** Proof of work *)

(** [check_header_pow(header)] *)
Definition check_header_pow (header : list string) : outcome bool :=
  match last header with
  | None => Raise IndexError
  | Some nonce' =>
    if negb (bool_decide (String.length nonce' = 32%nat)) then Raise AssertionError else
    let rlp_Hn := rlp_encode (rlp_of_header (removelast header)) in
    match block_structure_rev "difficulty" with
    | None => Raise KeyError
    | Some (i, _) =>
      match header !! i with
      | None => Raise IndexError
      | Some d =>
        match as_int (decoders "int" (RStr d)) with
        | None => Raise TypeError
        | Some diff =>
          let h := sha3 (sha3 rlp_Hn +:+ nonce') in
          if diff =? 0 then Raise ZeroDivisionError
          else Ok (big_endian_to_int h <? 2 ^ 256 / diff)
        end
      end
    end
  end.

(** *** The state cache and its journal *)

(** [self.set_and_journal(cache, index, value)] *)
Definition set_and_journal (cache : string) (index : key) (v : value) : M unit :=
  b ← get_self;
  match caches b !! cache with
  | None => raise KeyError
  | Some m =>
    let prev := m !! index in
    if py_ne_opt prev v then
      j ← read_journal;
      write_journal (j ++ [mkEntry cache index prev v]);;
      modify_self (set_caches (<[cache := <[index := v]> m]> (caches b)))
    else mret tt
  end.

(** [Block._set_acct_item(self, address, param, value)] *)
Definition Block__set_acct_item (address param : string) (v : value) : M unit :=
  set_and_journal param (KAddr address) v;;
  set_and_journal "all" (KAddr address) v.

(** The overriding methods of [CachedBlock] take [self] only: a call that
    passes [nargs] further arguments fails with [TypeError] before the body
    runs, and a call with none runs the body, which raises. *)
Definition CachedBlock_reject (nargs : nat) : M unit :=
  match nargs with
  | O => raise (PyException "NotImplemented")
  | S _ => raise TypeError
  end.

Definition CachedBlock__set_acct_item := CachedBlock_reject.
Definition CachedBlock__add_transaction_to_list := CachedBlock_reject.
Definition CachedBlock_set_state_root := CachedBlock_reject.
Definition CachedBlock_revert := CachedBlock_reject.

(** [CachedBlock.commit_state(self): pass] *)
Definition CachedBlock_commit_state : M unit := mret tt.

(** [self._set_acct_item(address, param, value)], by the class of [self] *)
Definition _set_acct_item (address param : string) (v : value) : M unit :=
  b ← get_self;
  match cls b with
  | ClsBlock => Block__set_acct_item address param v
  | ClsCachedBlock => CachedBlock__set_acct_item 3
  end.

(** [self.mk_blank_acct()] *)
Definition mk_blank_acct : M rlp :=
  b ← get_self;
  match blank_acct b with
  | Some a => mret (RList a)
  | None =>
    let codehash := ""%string in
    modify_heap (set_db_puts (λ l, l ++ [(codehash, ""%string)]));;
    let a := [RStr (encode_int 0); RStr (encode_int 0); RStr BLANK_ROOT; RStr codehash] in
    modify_self (set_blank_acct (Some a));;
    mret (RList a)
  end.

(** [rlp.decode(self.state.get(address)) or self.mk_blank_acct()] *)
Definition load_acct (address : string) : M rlp :=
  b ← get_self;
  let acct := rlp_decode (trie_get (state b) address) in
  if rlp_truthy acct then mret acct else mk_blank_acct.

(** [s.decode('hex')]; [hex_decode] gives the bytes of a string that the
    codec accepts. *)
Definition decode_hex (s : string) : M string :=
  if hex_decodable s then mret (hex_decode s) else raise TypeError.

(** [self.get_acct(address)] *)
Definition get_acct (address : string) : M (list value) :=
  address ← (if bool_decide (String.length address = 40%nat) then decode_hex address
             else mret address);
  acct ← load_acct address;
  map_M (λ '(i, (n, t)), x ← lift (rlp_index acct i); mret (decoders t x))
        (imap (λ i nt, (i, nt)) acct_structure).

(** [self._get_acct_item(address, param)] *)
Definition _get_acct_item (address param : string) : M value :=
  b ← get_self;
  hit ← (if bool_decide (param ≠ "storage"%string) then
           match caches b !! param with
           | None => raise KeyError
           | Some m => mret (m !! KAddr address)
           end
         else mret None);
  match hit with
  | Some v => mret v
  | None =>
    acct ← get_acct address;
    match acct_structure_rev param with
    | None => raise KeyError
    | Some (i, _) =>
      match acct !! i with
      | Some v => mret v
      | None => raise IndexError
      end
    end
  end.

(** [self._delta_item(address, param, value)] *)
Definition _delta_item (address param : string) (delta : Z) : M bool :=
  cur ← _get_acct_item address param;
  match as_int cur with
  | None => raise TypeError
  | Some c =>
    let v := c + delta in
    if v <? 0 then mret false
    else _set_acct_item address param (VInt v);; mret true
  end.

Definition get_nonce (address : string) : M value := _get_acct_item address "nonce".
Definition set_nonce (address : string) (v : value) : M unit := _set_acct_item address "nonce" v.
Definition increment_nonce (address : string) : M bool := _delta_item address "nonce" 1.
Definition decrement_nonce (address : string) : M bool := _delta_item address "nonce" (-1).
Definition get_balance (address : string) : M value := _get_acct_item address "balance".
Definition set_balance (address : string) (v : value) : M unit := _set_acct_item address "balance" v.
Definition delta_balance (address : string) (delta : Z) : M bool := _delta_item address "balance" delta.
Definition get_code (address : string) : M value := _get_acct_item address "code".
Definition set_code (address : string) (v : value) : M unit := _set_acct_item address "code" v.

(** [self.transfer_value(from_addr, to_addr, value)] *)
Definition transfer_value (from_addr to_addr : string) (v : Z) : M bool :=
  assert (0 <=? v);;
  ok ← delta_balance from_addr (- v);
  if (ok : bool) then delta_balance to_addr v else mret false.

(** [self.set_storage_data(address, index, val)] *)
Definition set_storage_data (address : string) (index : key) (val : value) : M unit :=
  b ← get_self;
  (match caches b !! ("storage:" +:+ address) with
   | None =>
     modify_self (set_caches (<["storage:" +:+ address := ∅]> (caches b)));;
     set_and_journal "all" (KAddr address) (VBool true)
   | Some _ => mret tt
   end : M unit);;
  set_and_journal ("storage:" +:+ address) index val.

(** [self.reset_cache()] *)
Definition reset_cache : M unit :=
  modify_self (set_caches fresh_caches);;
  l ← alloc_journal [];
  modify_self (set_journal l).

(** A root handed to the trie constructor; a root that is not a byte string
    is outside the model of the (external) trie. *)
Definition rlp_str (r : rlp) : string :=
  match r with RStr s => s | RList _ => ""%string end.

(** One [(k, v)] of [self.caches.get('storage:'+address, {}).iteritems()]
    in [commit_state]. *)
Definition commit_storage (t : Trie) (kv : key * value) : Trie :=
  let enckey := zpad (coerce_to_bytes kv.1) 32 in
  let val := rlp_encode (RStr (int_to_big_endian kv.2)) in
  if truthy kv.2 then trie_update t enckey val else trie_delete t enckey.

(** One turn of [for i, (key, typ, default) in enumerate(acct_structure)] in
    [commit_state]; [acct] is the list being rewritten.  [t.proof_nodes] and
    [self.proof_nodes] name one list, so what the trie appends to the former
    is seen through the latter before [extend] appends the list to itself. *)
Definition commit_field (address : string) (i : nat) (k typ : string) (acct : rlp) : M rlp :=
  b ← get_self;
  if bool_decide (k = "storage"%string) then
    root ← lift (rlp_index acct i);
    let t0 := {| root_hash := rlp_str root; t_proof_mode := proof_mode b;
                 t_proof_nodes := proof_nodes b |} in
    let sub := default ∅ (caches b !! ("storage:" +:+ address)) in
    let t := foldl commit_storage t0 (map_to_list sub) in
    acct' ← lift (rlp_set acct i (RStr (root_hash t)));
    modify_self (set_proof_nodes
      (t_proof_nodes t ++
       if bool_decide (proof_mode b = Some RECORDING) then t_proof_nodes t else []));;
    mret acct'
  else
    match caches b !! k with
    | None => raise KeyError
    | Some m =>
      match m !! KAddr address with
      | Some v => lift (rlp_set acct i (RStr (encoders typ v)))
      | None => mret acct
      end
    end.

Fixpoint commit_fields (address : string) (l : list (nat * (string * string))) (acct : rlp) : M rlp :=
  match l with
  | [] => mret acct
  | (i, (k, typ)) :: l' => acct' ← commit_field address i k typ acct; commit_fields address l' acct'
  end.

(** The body of [for address in self.caches['all']] in [commit_state]. *)
Definition commit_account (k : key) : M unit :=
  match k with
  | KIdx _ => raise AttributeError
  | KAddr address =>
    b ← get_self;
    a ← decode_hex address;
    let raw := rlp_decode (trie_get (state b) a) in
    acct ← (if rlp_truthy raw then mret raw else mk_blank_acct);
    acct' ← commit_fields address (imap (λ i nt, (i, nt)) acct_structure) acct;
    b' ← get_self;
    a' ← decode_hex address;
    modify_self (set_state (trie_update (state b') a' (rlp_encode acct')))
  end.

(** [Block.commit_state(self)]; the dictionary is visited in the order of
    [map_to_list]. *)
Definition Block_commit_state : M unit :=
  j ← read_journal;
  if bool_decide (length j = 0%nat) then mret tt else
  b ← get_self;
  match caches b !! "all"%string with
  | None => raise KeyError
  | Some all =>
    for_each (map_to_list all).*1 commit_account;;
    b' ← get_self;
    (if bool_decide (proof_mode b' = Some RECORDING) then
       modify_self (set_proof_nodes (proof_nodes b' ++ t_proof_nodes (state b')));;
       modify_self (set_state {| root_hash := root_hash (state b');
                                 t_proof_mode := t_proof_mode (state b');
                                 t_proof_nodes := [] |})
     else mret tt);;
    reset_cache
  end.

(** [self.commit_state()], by the class of [self] *)
Definition commit_state : M unit :=
  b ← get_self;
  match cls b with
  | ClsBlock => Block_commit_state
  | ClsCachedBlock => CachedBlock_commit_state
  end.

(** [self.del_account(address)] *)
Definition del_account (address : string) : M unit :=
  commit_state;;
  address ← (if bool_decide (String.length address = 40%nat) then decode_hex address
             else mret address);
  modify_self (λ b, set_state (trie_delete (state b) address) b).

(** *** Snapshot and revert *)

Record Snapshot := mkSnapshot {
  snap_state : string;
  snap_gas : Z;
  snap_txs : loc;
  snap_txcount : Z;
  snap_postqueue : loc;
  snap_suicides : loc;
  snap_suicides_size : nat;
  snap_journal : loc;
  snap_journal_size : nat;
}.

(** [self.snapshot()]: the post-queue is copied, the suicides list, the
    journal and the transactions trie are kept by reference. *)
Definition snapshot : M Snapshot :=
  b ← get_self;
  q ← read_postqueue;
  lq ← alloc_queue q;
  x ← read_suicides;
  j ← read_journal;
  mret {| snap_state := root_hash (state b); snap_gas := gas_used (hdr b);
          snap_txs := transactions b; snap_txcount := transaction_count b;
          snap_postqueue := lq; snap_suicides := suicides b;
          snap_suicides_size := length x; snap_journal := journal b;
          snap_journal_size := length j |}.

(** Undo one popped journal entry on the caches of [self]. *)
Definition undo_entry (e : entry) : M unit :=
  b ← get_self;
  match caches b !! e_cache e with
  | None => raise KeyError
  | Some m =>
    match e_prev e with
    | Some prev => modify_self (set_caches (<[e_cache e := <[e_index e := prev]> m]> (caches b)))
    | None =>
      match m !! e_index e with
      | Some _ => modify_self (set_caches (<[e_cache e := delete (e_index e) m]> (caches b)))
      | None => raise KeyError
      end
    end
  end.

(** [while len(self.journal) > size: ...]; every turn pops one entry, so
    [fuel] at least the length of the journal lets the loop run to its end. *)
Fixpoint revert_journal (fuel size : nat) : M unit :=
  match fuel with
  | O => mret tt
  | S fuel' =>
    j ← read_journal;
    if bool_decide (size < length j)%nat then
      match last j with
      | None => raise IndexError
      | Some e =>
        write_journal (removelast j);;
        undo_entry e;;
        revert_journal fuel' size
      end
    else mret tt
  end.

(** [while len(self.suicides) > size: self.suicides.pop()] *)
Fixpoint revert_suicides (fuel size : nat) : M unit :=
  match fuel with
  | O => mret tt
  | S fuel' =>
    x ← read_suicides;
    if bool_decide (size < length x)%nat then
      write_suicides (removelast x);;
      revert_suicides fuel' size
    else mret tt
  end.

(** [Block.revert(self, mysnapshot)] *)
Definition Block_revert (s : Snapshot) : M unit :=
  modify_self (set_journal (snap_journal s));;
  j ← read_journal;
  revert_journal (length j) (snap_journal_size s);;
  modify_self (set_suicides (snap_suicides s));;
  x ← read_suicides;
  revert_suicides (length x) (snap_suicides_size s);;
  modify_self (λ b, set_state {| root_hash := snap_state s;
                                 t_proof_mode := t_proof_mode (state b);
                                 t_proof_nodes := t_proof_nodes (state b) |} b);;
  modify_self (λ b, set_hdr (set_gas_used (snap_gas s) (hdr b)) b);;
  modify_self (set_transactions (snap_txs s));;
  modify_self (set_transaction_count (snap_txcount s));;
  modify_self (set_postqueue (snap_postqueue s)).

(** [self.revert(mysnapshot)], by the class of [self] *)
Definition revert (s : Snapshot) : M unit :=
  b ← get_self;
  match cls b with
  | ClsBlock => Block_revert s
  | ClsCachedBlock => CachedBlock_revert 1
  end.

(** *** The transaction list *)

Definition is_RList (r : rlp) : bool :=
  match r with RList _ => true | RStr _ => false end.

(** [Block._add_transaction_to_list(self, tx_lst_serialized, state_root,
    gas_used_encoded)] *)
Definition Block__add_transaction_to_list (tx_lst_serialized state_root gas_used_encoded : rlp) : M unit :=
  assert (is_RList tx_lst_serialized);;
  let data := RList [tx_lst_serialized; state_root; gas_used_encoded] in
  b ← get_self;
  t ← read_transactions;
  write_transactions
    (trie_update t (rlp_encode (RStr (encode_int (transaction_count b)))) (rlp_encode data));;
  modify_self (set_transaction_count (transaction_count b + 1)).

Definition _add_transaction_to_list (tx_lst_serialized state_root gas_used_encoded : rlp) : M unit :=
  b ← get_self;
  match cls b with
  | ClsBlock => Block__add_transaction_to_list tx_lst_serialized state_root gas_used_encoded
  | ClsCachedBlock => CachedBlock__add_transaction_to_list 3
  end.

(** *** Header, hash and finalization *)

(** [Block.deserialize_header(header_data)] on an already decoded header:
    the decoded fields by name. *)
Definition deserialize_header (header_data : list string) : outcome (list (string * value)) :=
  if bool_decide (length header_data = length block_structure) then
    Ok (zip_with (λ nt x, (nt.1, decoders nt.2 (RStr x))) block_structure header_data)
  else Raise AssertionError.

Fixpoint assoc (name : string) (l : list (string * value)) : option value :=
  match l with
  | [] => None
  | (n, v) :: l' => if bool_decide (n = name) then Some v else assoc name l'
  end.

(** [self.finalize()]; an uncle's decoded coinbase is used as an address,
    which has to be a string. *)
Definition finalize : M unit :=
  b ← get_self;
  delta_balance (coinbase (hdr b))
    (BLOCK_REWARD + NEPHEW_REWARD * Z.of_nat (length (uncles b)));;
  for_each (uncles b) (λ uncle_rlp,
    uncle_data ← lift (deserialize_header uncle_rlp);
    match assoc "coinbase" uncle_data with
    | None => raise KeyError
    | Some (VStr a) => delta_balance a UNCLE_REWARD;; mret tt
    | Some _ => raise TypeError
    end);;
  commit_state.

(** [Block.get_state_root(self)], the getter of the property [state_root] *)
Definition get_state_root : M string :=
  commit_state;;
  b ← get_self;
  mret (root_hash (state b)).

(** [self.add_transaction_to_list(tx)]; [tx_serialized] is what
    [tx.serialize()] returns.  The arguments of the call are evaluated before
    it is made: the read of [state_root] commits the state. *)
Definition add_transaction_to_list (tx_serialized : string) : M unit :=
  let tx_lst_serialized := rlp_decode tx_serialized in
  state_root ← get_state_root;
  b ← get_self;
  _add_transaction_to_list tx_lst_serialized (RStr state_root)
    (RStr (encode_int (gas_used (hdr b)))).

(** [Block.set_state_root(self, state_root_hash)], the setter that the
    property [state_root] is built from *)
Definition Block_set_state_root (state_root_hash : string) : M unit :=
  modify_self (set_state (Trie_new state_root_hash));;
  reset_cache.

(** [self.set_state_root(state_root_hash)], by the class of [self] *)
Definition set_state_root (state_root_hash : string) : M unit :=
  b ← get_self;
  match cls b with
  | ClsBlock => Block_set_state_root state_root_hash
  | ClsCachedBlock => CachedBlock_set_state_root 1
  end.

(** [Block.get_tx_list_root(self)] *)
Definition get_tx_list_root : M string :=
  t ← read_transactions;
  mret (root_hash t).

(** [getattr(self, name)] for the names of [block_structure] *)
Definition getattr_field (name : string) : M value :=
  b ← get_self;
  if bool_decide (name = "prevhash"%string) then mret (VStr (prevhash (hdr b)))
  else if bool_decide (name = "uncles_hash"%string) then mret (VStr (uncles_hash (hdr b)))
  else if bool_decide (name = "coinbase"%string) then mret (VStr (coinbase (hdr b)))
  else if bool_decide (name = "state_root"%string) then r ← get_state_root; mret (VStr r)
  else if bool_decide (name = "tx_list_root"%string) then r ← get_tx_list_root; mret (VStr r)
  else if bool_decide (name = "difficulty"%string) then mret (VInt (difficulty (hdr b)))
  else if bool_decide (name = "number"%string) then mret (VInt (number (hdr b)))
  else if bool_decide (name = "min_gas_price"%string) then mret (VInt (min_gas_price (hdr b)))
  else if bool_decide (name = "gas_limit"%string) then mret (VInt (gas_limit (hdr b)))
  else if bool_decide (name = "gas_used"%string) then mret (VInt (gas_used (hdr b)))
  else if bool_decide (name = "timestamp"%string) then mret (VInt (timestamp (hdr b)))
  else if bool_decide (name = "extra_data"%string) then mret (VStr (extra_data (hdr b)))
  else if bool_decide (name = "nonce"%string) then mret (VStr (nonce (hdr b)))
  else raise AttributeError.

(** [self.list_header(exclude)] *)
Definition list_header (exclude : list string) : M (list string) :=
  map_M (λ nt, v ← getattr_field nt.1; mret (encoders nt.2 v))
        (filter (λ nt, nt.1 ∉ exclude) block_structure).

(** [self.serialize_header()] *)
Definition serialize_header : M string :=
  h ← list_header [];
  mret (rlp_encode (rlp_of_header h)).

(** [Block._hash(self)] *)
Definition Block__hash : M string :=
  s ← serialize_header;
  mret (sha3 s).

(** [CachedBlock._hash(self)]; [not self._hash_cached] holds for [None] and
    for the empty string. *)
Definition CachedBlock__hash : M string :=
  b ← get_self;
  match hash_cached b with
  | Some h =>
    if bool_decide (h = ""%string) then
      h' ← Block__hash; modify_self (set_hash_cached (Some h'));; mret h'
    else mret h
  | None =>
    h' ← Block__hash; modify_self (set_hash_cached (Some h'));; mret h'
  end.

(** [self._hash()], by the class of [self]; the property [hash] returns it. *)
Definition _hash : M string :=
  b ← get_self;
  match cls b with
  | ClsBlock => Block__hash
  | ClsCachedBlock => CachedBlock__hash
  end.

Definition hash : M string := _hash.

(** [self.is_genesis()] *)
Definition is_genesis (b : Block) : bool :=
  bool_decide (prevhash (hdr b) = GENESIS_PREVHASH) && bool_decide (nonce (hdr b) = GENESIS_NONCE).

(** *** Ancestors and uncles *)

(** [CachedBlock.create_cached(blk)] *)
Definition create_cached (blk : Block) : Block := set_cls ClsCachedBlock blk.

(** [get_block(blockhash)]; the memo of [lru_cache] only saves the reload. *)
Definition get_block (blockhash : string) : M Block :=
  b ← lift (load_block blockhash);
  mret (create_cached b).

(** [self.get_parent()] *)
Definition get_parent : M Block :=
  b ← get_self;
  if number (hdr b) =? 0 then raise UnknownParentException
  else try_except (get_block (prevhash (hdr b))) KeyError (raise UnknownParentException).




(** *** Construction *)

(** [for tx_lst_serialized, state_root, gas_used_encoded in transaction_list]:
    a three-element list unpacks, and so does a three-character string (whose
    first character then fails the [isinstance] assertion of the callee). *)
Definition add_listed_transaction (item : rlp) : M unit :=
  match item with
  | RList [a; b; c] => _add_transaction_to_list a b c
  | RList _ => raise ValueError
  | RStr s =>
    if bool_decide (String.length s = 3%nat) then
      _add_transaction_to_list (RStr (substring 0 1 s)) (RStr (substring 1 1 s)) (RStr (substring 2 1 s))
    else raise ValueError
  end.

(** The constructor [Block.__init__] after the attributes are assigned; both
    tries are opened on [utils.get_db_path()], which is what the assertion on
    [db.db] compares. *)
Definition Block_init_checks (tx_list_root : string) (transaction_list : list rlp)
    (header : option (list string)) : M unit :=
  (if bool_decide (transaction_list ≠ []) then
     b ← get_self;
     assert (root_hash_valid (state b));;
     for_each transaction_list add_listed_transaction
   else mret tt);;
  for_each block_structure (λ nt,
    v ← getattr_field nt.1;
    assert (py_eq (decoders nt.2 (RStr (encoders nt.2 v))) v));;
  b ← get_self;
  if negb (root_hash_valid (state b)) then
    raise (PyException "State Merkle root not found in database!") else
  t ← read_transactions;
  if negb (bool_decide (tx_list_root = root_hash t)) then
    raise (PyException "Transaction list root hash does not match!") else
  if negb (root_hash_valid t) then
    raise (PyException "Transactions root not found in database!") else
  if bool_decide (1024 < String.length (extra_data (hdr b)))%nat then
    raise (PyException "Extra data cannot exceed 1024 bytes") else
  if bool_decide (coinbase (hdr b) = ""%string) then
    raise (PyException "Coinbase cannot be empty address") else
  if negb (is_genesis b) && negb (bool_decide (nonce (hdr b) = ""%string)) then
    h ← (match header with
         | Some (x :: l) => mret (x :: l)
         | _ => list_header []
         end);
    ok ← lift (check_header_pow h);
    if (ok : bool) then mret tt else raise (PyException "PoW check failed")
  else mret tt.

(** [Block(prevhash, uncles_hash, ..., transaction_list, uncles, header)] *)
Definition Block_init (prevhash' uncles_hash' coinbase' state_root tx_list_root : string)
    (difficulty' number' min_gas_price' gas_limit' gas_used' timestamp' : Z)
    (extra_data' nonce' : string) (transaction_list : list rlp)
    (uncles' : list (list string)) (header : option (list string)) : M Block :=
  ls ← alloc_strlist [];
  lq ← alloc_queue [];
  lj ← alloc_journal [];
  lt ← alloc_trie (Trie_new tx_list_root);
  let b0 :=
    {| cls := ClsBlock;
       hdr := {| prevhash := prevhash'; uncles_hash := uncles_hash'; coinbase := coinbase';
                 difficulty := difficulty'; number := number';
                 min_gas_price := min_gas_price'; gas_limit := gas_limit';
                 gas_used := gas_used'; timestamp := timestamp';
                 extra_data := extra_data'; nonce := nonce' |};
       uncles := uncles'; suicides := ls; postqueue := lq; caches := fresh_caches;
       journal := lj; transactions := lt; transaction_count := 0;
       state := Trie_new state_root; proof_mode := None; proof_nodes := [];
       blank_acct := None; hash_cached := None |} in
  pr ← call_on b0 (Block_init_checks tx_list_root transaction_list header);
  mret pr.2.

(** [Block.init_from_parent(parent, coinbase, extra_data, timestamp, uncles)],
    run on [parent]: [parent.hash] is evaluated first and commits the parent's
    caches. *)
Definition init_from_parent (coinbase' extra_data' : string) (timestamp' : Z)
    (uncles' : list (list string)) : M Block :=
  h ← hash;
  parent ← get_self;
  Block_init h (sha3 (rlp_encode (RList (rlp_of_header <$> uncles')))) coinbase'
    (root_hash (state parent)) BLANK_ROOT
    (calc_difficulty parent timestamp') (number (hdr parent) + 1) 0
    (calc_gaslimit parent) 0 timestamp' extra_data' "" [] uncles' None.

(** [genesis(start_alloc, difficulty)]; the allocation dictionary is visited
    in the order of the list.  [block.state.db.commit()] flushes the store. *)
Definition genesis (start_alloc : list (string * Z)) (difficulty' : Z) : M Block :=
  block ← Block_init GENESIS_PREVHASH (sha3 (rlp_encode (RList []))) GENESIS_COINBASE
    BLANK_ROOT BLANK_ROOT difficulty' 0 GENESIS_MIN_GAS_PRICE GENESIS_GAS_LIMIT 0 0 ""
    GENESIS_NONCE [] [] None;
  pr ← call_on block (for_each start_alloc (λ ab, set_balance ab.1 (VInt ab.2)));
  mret pr.2.

End blocks.

(** ** peer.py *)

(** Signals sent on the bus of [signals]; the bus is process-wide and keeps
    the order of emission. *)
Inductive signal :=
  | peer_status_received
  | peer_disconnect_requested (forget : option bool).

(** The attributes of a [Peer] that the handshake reads and assigns;
    [response_queue] holds the packets put by [send_packet], oldest first. *)
Record Peer := mkPeer {
  hello_received : bool;
  hello_sent : bool;
  status_received : bool;
  status_sent : bool;
  status_total_difficulty : option Z;
  status_head_hash : option string;
  recv_buffer : string;
  response_queue : list string;
}.

(** What a method of a peer runs on: the peer, the signals emitted so far
    and the store that [blocks] allocates in. *)
Record pworld := mkPworld {
  pw_peer : Peer;
  pw_signals : list signal;
  pw_heap : heap;
}.

Definition PM (A : Type) : Type := pworld → outcome A * pworld.

#[global] Instance PM_ret : MRet PM := λ A a σ, (Ok a, σ).
#[global] Instance PM_bind : MBind PM := λ A B k m σ,
  match m σ with
  | (Ok a, σ') => k a σ'
  | (Raise e, σ') => (Raise e, σ')
  end.

Definition modify_peer (f : Peer → Peer) : PM unit := λ σ,
  (Ok tt, {| pw_peer := f (pw_peer σ); pw_signals := pw_signals σ; pw_heap := pw_heap σ |}).
Definition send_signal (s : signal) : PM unit := λ σ,
  (Ok tt, {| pw_peer := pw_peer σ; pw_signals := pw_signals σ ++ [s]; pw_heap := pw_heap σ |}).

(** A module-level function of [blocks] has no [self]; it runs on a
    placeholder object that it does not read. *)
Definition no_self : Block :=
  {| cls := ClsBlock;
     hdr := {| prevhash := ""; uncles_hash := ""; coinbase := ""; difficulty := 0;
               number := 0; min_gas_price := 0; gas_limit := 0; gas_used := 0;
               timestamp := 0; extra_data := ""; nonce := "" |};
     uncles := []; suicides := 1%positive; postqueue := 1%positive; caches := ∅;
     journal := 1%positive; transactions := 1%positive; transaction_count := 0;
     state := Trie_new ""; proof_mode := None; proof_nodes := [];
     blank_acct := None; hash_cached := None |}.

Definition call_blocks {A} (m : M A) : PM A := λ σ,
  let r := m {| w_heap := pw_heap σ; w_self := no_self |} in
  (r.1, {| pw_peer := pw_peer σ; pw_signals := pw_signals σ; pw_heap := w_heap r.2 |}).

Definition reasons_to_forget : list string :=
  [ "Bad protocol"; "Incompatible network protocols"; "Wrong genesis block" ]%string.

Definition put_response (x : string) (p : Peer) : Peer :=
  {| hello_received := hello_received p; hello_sent := hello_sent p;
     status_received := status_received p; status_sent := status_sent p;
     status_total_difficulty := status_total_difficulty p;
     status_head_hash := status_head_hash p; recv_buffer := recv_buffer p;
     response_queue := response_queue p ++ [x] |}.

Definition record_status (head_hash : string) (total_difficulty : Z) (p : Peer) : Peer :=
  {| hello_received := hello_received p; hello_sent := hello_sent p;
     status_received := true; status_sent := status_sent p;
     status_total_difficulty := Some total_difficulty;
     status_head_hash := Some head_hash; recv_buffer := recv_buffer p;
     response_queue := response_queue p |}.

Section peer.
Context {env : Env}.

(** [self.send_packet(response)] *)
Definition send_packet (response : string) : PM unit :=
  modify_peer (put_response response).

(** [self.send_Disconnect(reason)]; the two-second pause has no effect on
    the state. *)
Definition send_Disconnect (reason : option string) : PM unit :=
  send_packet (dump_Disconnect reason);;
  let forget := match reason with
                | Some r => bool_decide (r ∈ reasons_to_forget)
                | None => false
                end in
  send_signal (peer_disconnect_requested (Some forget)).

(** [blocks.genesis().hash] *)
Definition local_genesis_hash : PM string :=
  call_blocks (g ← genesis GENESIS_INITIAL_ALLOC INITIAL_DIFFICULTY;
               pr ← call_on g hash;
               mret pr.1).

(** [self._recv_Status(data)] *)
Definition _recv_Status (data : list string) : PM unit :=
  match data with
  | d0 :: d1 :: d2 :: d3 :: d4 :: _ =>
    let ethereum_protocol_version := idec d0 in
    let network_id := idec d1 in
    let total_difficulty := idec d2 in
    let head_hash := d3 in
    let genesis_hash := d4 in
    if negb (ethereum_protocol_version =? ETHEREUM_PROTOCOL_VERSION) then
      send_Disconnect (Some "Incompatible network protocols"%string)
    else if negb (network_id =? NETWORK_ID) then
      send_Disconnect (Some "Wrong genesis block"%string)
    else
      g ← local_genesis_hash;
      if negb (bool_decide (genesis_hash = g)) then
        send_Disconnect (Some "Wrong genesis block"%string)
      else
        modify_peer (record_status head_hash total_difficulty);;
        send_signal peer_status_received
  | _ => send_Disconnect (Some "Incompatible network protocols"%string)
  end.

End peer.

(** ** What happens to a block between a snapshot and a revert

    The writes that go through the journal are methods of the block; the
    transaction executor appends to the suicides list, changes [gas_used],
    appends transactions and pushes to and pops from the post-queue.
    Transactions are appended by [add_transaction_to_list] or, as the
    constructor does, by [_add_transaction_to_list].  Two further changes
    touch what a snapshot records: [del_account] writes to the state trie,
    and an assignment to the attribute [transactions] gives the block another
    trie object, opened at a root as in the constructor. *)
Inductive mutation :=
  | MSetAndJournal (cache : string) (index : key) (v : value)
  | MSetAcctItem (address param : string) (v : value)
  | MDeltaItem (address param : string) (delta : Z)
  | MSetStorageData (address : string) (index : key) (v : value)
  | MSuicide (address : string)
  | MSetGasUsed (g : Z)
  | MAddTransaction (tx_lst_serialized state_root gas_used_encoded : rlp)
  | MAddTransactionToList (tx_serialized : string)
  | MPostqueueAppend (m : msg)
  | MPostqueuePop
  | MDelAccount (address : string)
  | MSetTransactions (tx_list_root : string).

Section mutations.
Context {env : Env}.

Definition run_mutation (mu : mutation) : M unit :=
  match mu with
  | MSetAndJournal cache index v => set_and_journal cache index v
  | MSetAcctItem address param v => _set_acct_item address param v
  | MDeltaItem address param delta => _delta_item address param delta;; mret tt
  | MSetStorageData address index v => set_storage_data address index v
  | MSuicide address => x ← read_suicides; write_suicides (x ++ [address])
  | MSetGasUsed g => modify_self (λ b, set_hdr (set_gas_used g (hdr b)) b)
  | MAddTransaction tx sr gu => _add_transaction_to_list tx sr gu
  | MAddTransactionToList tx => add_transaction_to_list tx
  | MPostqueueAppend m => q ← read_postqueue; write_postqueue (q ++ [m])
  | MPostqueuePop =>
    q ← read_postqueue;
    match q with
    | [] => raise IndexError
    | _ :: q' => write_postqueue q'
    end
  | MDelAccount address => del_account address
  | MSetTransactions tx_list_root =>
    lt ← alloc_trie (Trie_new tx_list_root);
    modify_self (set_transactions lt)
  end.

(** The calls that commit the state before they act:
    [add_transaction_to_list] reads [state_root], and [del_account] calls
    [commit_state]. *)
Definition commits (mu : mutation) : bool :=
  match mu with
  | MAddTransactionToList _ | MDelAccount _ => true
  | _ => false
  end.

(** [not len(self.journal)]: no journalled write is waiting for a commit. *)
Definition nothing_pending (w : world) : bool :=
  bool_decide (length (journals (w_heap w) !!! journal (w_self w)) = 0%nat).

Definition mutation_settled (mu : mutation) (w : world) : bool :=
  if commits mu then nothing_pending w else true.

(** Along the run of [ms] from [w], every call that commits the state is
    made when nothing is pending. *)
Fixpoint commits_settled (ms : list mutation) (w : world) : bool :=
  match ms with
  | [] => true
  | mu :: ms' =>
    mutation_settled mu w &&
    match run_mutation mu w with
    | (Ok _, w') => commits_settled ms' w'
    | (Raise _, _) => true
    end
  end.

End mutations.

(** The effect of undoing one journal entry, on the caches alone. *)
Definition undo_caches (e : entry) (c : gmap string (gmap key value)) : option (gmap string (gmap key value)) :=
  m ← c !! e_cache e;
  match e_prev e with
  | Some prev => Some (<[e_cache e := <[e_index e := prev]> m]> c)
  | None =>
    match m !! e_index e with
    | Some _ => Some (<[e_cache e := delete (e_index e) m]> c)
    | None => None
    end
  end.

(** Undoing entries in the order in which they are popped. *)
Fixpoint undo_all (popped : list entry) (c : gmap string (gmap key value)) : option (gmap string (gmap key value)) :=
  match popped with
  | [] => Some c
  | e :: rest => c' ← undo_caches e c; undo_all rest c'
  end.

(** [c'] has the contents of [c]: every cache of [c] is in [c'] unchanged,
    and a cache of [c'] that [c] lacks is empty. *)
Definition same_contents (c c' : gmap string (gmap key value)) : Prop :=
  ∀ name, c' !! name = c !! name ∨ (c !! name = None ∧ c' !! name = Some ∅).

(** Every reference held by the block of [w] points to an allocated object. *)
Definition wf_world (w : world) : Prop :=
  journal (w_self w) ∈ dom (journals (w_heap w)) ∧
  suicides (w_self w) ∈ dom (strlists (w_heap w)) ∧
  postqueue (w_self w) ∈ dom (queues (w_heap w)) ∧
  transactions (w_self w) ∈ dom (tries (w_heap w)).

(** ** Further calls on a block *)

(** [self.state_root = r]: the property [state_root] is built in the body
    of [Block] from the functions [get_state_root] and [set_state_root] defined
    there, so the assignment runs [Block.set_state_root] whatever the class of
    [self]. *)
Definition assign_state_root {env : Env} (r : string) : M unit := Block_set_state_root r.

(** Snapshot, one storage write, revert, and the same storage write again. *)
Definition storage_write_around_revert {env : Env} (address : string) (index : key)
    (v : value) : M unit :=
  s ← snapshot;
  set_storage_data address index v;;
  revert s;;
  set_storage_data address index v.

(** Snapshot, the mutations [ms], and the revert to the snapshot. *)
Definition revert_after {env : Env} (ms : list mutation) : M unit :=
  s ← snapshot;
  for_each ms run_mutation;;
  revert s.

(** Snapshot, one transaction appended, revert. *)
Definition transaction_around_revert {env : Env} (tx : rlp) : M unit :=
  s ← snapshot;
  _add_transaction_to_list tx (RStr "") (RStr "");;
  revert s.

(** ** Relations and predicates of the properties

    What the theorems below say about the world before and after a call. *)

(** Every run of [m] relates the world it starts in to the world it leaves. *)
Definition preserves (R : relation world) {A} (m : M A) : Prop :=
  ∀ w r w', m w = (r, w') → R w w'.

(** The header, the uncles, the class and the transactions trie of the block
    are as before. *)
Definition keeps_header : relation world := λ w w',
  hdr (w_self w') = hdr (w_self w) ∧
  uncles (w_self w') = uncles (w_self w) ∧
  cls (w_self w') = cls (w_self w) ∧
  transactions (w_self w') = transactions (w_self w) ∧
  tries (w_heap w') = tries (w_heap w).

(** Nothing changed but the memo of the blank account and the log of
    [db.put] calls: what reading an account may do. *)
Definition only_blank_acct : relation world := λ w w',
  ∃ ba dp, w' = {| w_heap := set_db_puts (λ _, dp) (w_heap w);
                   w_self := set_blank_acct ba (w_self w) |}.

(** The writes of [set_and_journal(cache, index, v)] on a world whose cache
    [cache] is [m]. *)
Definition journalled_write (cache : string) (index : key) (v : value)
    (m : gmap key value) (w : world) : world :=
  if py_ne_opt (m !! index) v then
    {| w_heap := set_journals
         (insert (journal (w_self w))
            ((journals (w_heap w) !!! journal (w_self w)) ++ [mkEntry cache index (m !! index) v]))
         (w_heap w);
       w_self := set_caches (<[cache := <[index := v]> m]> (caches (w_self w))) (w_self w) |}
  else w.

(** The journal entries that [set_and_journal(cache, index, v)] appends. *)
Definition journalled_entries (cache : string) (index : key) (v : value)
    (m : gmap key value) : list entry :=
  if py_ne_opt (m !! index) v then [mkEntry cache index (m !! index) v] else [].

(** ** Headers and hashes of cached blocks *)

Section header_fields.
Context {env : Env}.

(** The header that [list_header()] returns when nothing is left to commit:
    the 13 encoded fields, in the order of [block_structure]. *)
Definition header_fields (h : heap) (b : Block) : list string :=
  [ encoders "bin" (VStr (prevhash (hdr b)));
    encoders "bin" (VStr (uncles_hash (hdr b)));
    encoders "addr" (VStr (coinbase (hdr b)));
    encoders "trie_root" (VStr (root_hash (state b)));
    encoders "trie_root" (VStr (root_hash (tries h !!! transactions b)));
    encoders "int" (VInt (difficulty (hdr b)));
    encoders "int" (VInt (number (hdr b)));
    encoders "int" (VInt (min_gas_price (hdr b)));
    encoders "int" (VInt (gas_limit (hdr b)));
    encoders "int" (VInt (gas_used (hdr b)));
    encoders "int" (VInt (timestamp (hdr b)));
    encoders "bin" (VStr (extra_data (hdr b)));
    encoders "bin" (VStr (nonce (hdr b))) ].

(** [sha3(rlp.encode(header))] *)
Definition header_hash (h : heap) (b : Block) : string :=
  sha3 (rlp_encode (rlp_of_header (header_fields h b))).


End header_fields.

(** On a cached block the world is left as it was. *)
Definition cached_pure : relation world := λ w w',
  cls (w_self w) = ClsCachedBlock → w' = w.

(** From [σ] to [σ'] a Disconnect packet with [reason] was queued and the
    disconnect request was signalled (with [forget] set); the status
    attributes are as before. *)
Definition disconnected {env : Env} (reason : string) (σ σ' : pworld) : Prop :=
  response_queue (pw_peer σ') = response_queue (pw_peer σ) ++ [dump_Disconnect (Some reason)] ∧
  pw_signals σ' = pw_signals σ ++ [peer_disconnect_requested (Some true)] ∧
  status_received (pw_peer σ') = status_received (pw_peer σ) ∧
  status_head_hash (pw_peer σ') = status_head_hash (pw_peer σ) ∧
  status_total_difficulty (pw_peer σ') = status_total_difficulty (pw_peer σ).

(** From [σ] to [σ'] the status was recorded and signalled, and no packet
    was queued. *)
Definition status_recorded (head_hash : string) (total_difficulty : Z) (σ σ' : pworld) : Prop :=
  status_received (pw_peer σ') = true ∧
  status_head_hash (pw_peer σ') = Some head_hash ∧
  status_total_difficulty (pw_peer σ') = Some total_difficulty ∧
  pw_signals σ' = pw_signals σ ++ [peer_status_received] ∧
  response_queue (pw_peer σ') = response_queue (pw_peer σ).

(** [P] carries over from the world before to the world after. *)
Definition keeps (P : world → Prop) : relation world := λ w w', P w → P w'.

(** What holds of a world [w] reached from the world [w0] in which a
    snapshot was taken, [lq] being the copy of the post-queue that the
    snapshot holds: the block still has its journal and its suicides list;
    the journal and the suicides list have only grown;
    undoing the new journal entries, last first, gives back the contents of
    the caches of [w0]; the copy of the post-queue is intact and is not the
    queue in use. *)
Definition since_snapshot (w0 : world) (lq : loc) (w : world) : Prop :=
  cls (w_self w) = ClsBlock ∧
  journal (w_self w) = journal (w_self w0) ∧
  suicides (w_self w) = suicides (w_self w0) ∧
  (∃ E c',
     journals (w_heap w) !!! journal (w_self w0) =
       (journals (w_heap w0) !!! journal (w_self w0)) ++ E ∧
     undo_all (rev E) (caches (w_self w)) = Some c' ∧
     same_contents (caches (w_self w0)) c') ∧
  (∃ X,
     strlists (w_heap w) !!! suicides (w_self w0) =
       (strlists (w_heap w0) !!! suicides (w_self w0)) ++ X) ∧
  queues (w_heap w) !!! lq = queues (w_heap w0) !!! postqueue (w_self w0) ∧
  postqueue (w_self w) ≠ lq.

(** ** A reference instance of the interface

    Small executable stand-ins for the external collaborators, used to run
    the model on concrete blocks. *)

Definition ref_sha3 (s : string) : string :=
  substring 0 32 (s +:+ String.concat "" (replicate 32 "#"%string)).

Fixpoint ref_rlp_encode (r : rlp) : string :=
  match r with
  | RStr s => "<" +:+ s +:+ ">"
  | RList l =>
    "[" +:+ (fix go (l : list rlp) : string :=
               match l with
               | [] => ""%string
               | x :: l' => ref_rlp_encode x +:+ go l'
               end) l +:+ "]"
  end.

Fixpoint ref_be_bytes (fuel : nat) (n : Z) (acc : string) : string :=
  match fuel with
  | O => acc
  | S fuel' =>
    if n <=? 0 then acc
    else ref_be_bytes fuel' (n / 256) (String (ascii_of_nat (Z.to_nat (n mod 256))) acc)
  end.

Definition ref_encode_int (n : Z) : string :=
  ref_be_bytes (S (Z.to_nat (Z.log2 n))) n "".

Definition ref_encoders (typ : string) (v : value) : string :=
  match v with
  | VInt n => ref_encode_int n
  | VStr s => s
  | VBool b => ref_encode_int (if b then 1 else 0)
  end.

Definition ref_decoders (typ : string) (r : rlp) : value :=
  match r with
  | RStr s => if bool_decide (typ = "int"%string) then VInt (big_endian_to_int s) else VStr s
  | RList _ => VStr ""
  end.

Definition ref_trie_update (t : Trie) (k v : string) : Trie :=
  {| root_hash := ref_sha3 (k +:+ v +:+ root_hash t);
     t_proof_mode := t_proof_mode t; t_proof_nodes := t_proof_nodes t |}.

Definition ref_header (p : string) (n : Z) : Header :=
  {| prevhash := p; uncles_hash := ref_sha3 (ref_rlp_encode (RList [])); coinbase := "c0";
     difficulty := 131072; number := n; min_gas_price := 0; gas_limit := 10 ^ 6;
     gas_used := 0; timestamp := 1000; extra_data := ""; nonce := "" |}.

Definition ref_block (p : string) (n : Z) (memo : option string) : Block :=
  {| cls := ClsBlock; hdr := ref_header p n; uncles := [];
     suicides := 1%positive; postqueue := 1%positive; caches := fresh_caches;
     journal := 1%positive; transactions := 1%positive; transaction_count := 0;
     state := Trie_new "root"; proof_mode := None; proof_nodes := [];
     blank_acct := None; hash_cached := memo |}.

(** A store of two blocks: the block stored under ["h1"] has number 1 and
    parent ["h0"], which is stored with number 0. *)
Definition ref_load_block (h : string) : outcome Block :=
  if bool_decide (h = "h1"%string) then Ok (ref_block "h0" 1 (Some "h1"%string))
  else if bool_decide (h = "h0"%string) then Ok (ref_block "" 0 (Some "h0"%string))
  else Raise KeyError.

Definition ref_env : Env :=
  {| sha3 := ref_sha3;
     rlp_encode := ref_rlp_encode;
     rlp_decode := λ s, if bool_decide (s = ""%string) then RStr "" else RList [];
     hex_decode := λ s, s;
     encode_int := ref_encode_int;
     encoders := ref_encoders;
     decoders := ref_decoders;
     zpad := λ s n, s;
     coerce_to_bytes := λ k, match k with KAddr a => a | KIdx i => ref_encode_int i end;
     int_to_big_endian := λ v, ref_encoders "int" v;
     BLANK_ROOT := "";
     trie_get := λ t k, ""%string;
     trie_update := ref_trie_update;
     trie_delete := λ t k, ref_trie_update t k "";
     root_hash_valid := λ t, true;
     load_block := ref_load_block;
     ETHEREUM_PROTOCOL_VERSION := 34;
     NETWORK_ID := 0;
     dump_Disconnect := λ r, ("disconnect:" +:+ default "" r)%string |}.

(** A world with a freshly constructed block of number 2 on top of the
    reference store. *)
Definition ref_heap : heap :=
  {| journals := {[ 1%positive := [] ]}; strlists := {[ 1%positive := [] ]};
     queues := {[ 1%positive := [] ]}; tries := {[ 1%positive := Trie_new "" ]};
     db_puts := [] |}.

Definition ref_world : world :=
  {| w_heap := ref_heap; w_self := ref_block "h1" 2 None |}.

(** An uncle header for the reference store: its parent is the block stored
    under ["h0"], its difficulty is 1 and its nonce has 32 bytes. *)
Definition ref_uncle_fields : list string :=
  [ "h0"; "uh"; "cu"; "sr"; "tr"; String (ascii_of_nat 1) EmptyString;
    String (ascii_of_nat 1) EmptyString; ""; "g"; ""; "t"; "" ]%string.

Definition ref_uncle_nonce : string := String.concat "" (replicate 32 "n"%string).

Definition ref_uncle : list string := ref_uncle_fields ++ [ref_uncle_nonce].

(** The reference world with a cached balance of 10 at address ["aa"]. *)
Definition ref_world_balance : world :=
  {| w_heap := ref_heap;
     w_self := set_caches (<["balance"%string := {[ KAddr "aa"%string := VInt 10 ]}]> fresh_caches)
                 (ref_block "h1" 2 None) |}.

(** The reference world after [finalize]. *)
Definition ref_world_finalized : world := (finalize (env := ref_env) ref_world).2.

(** The reference block, loaded from the cache. *)
Definition ref_world_cached : world :=
  {| w_heap := ref_heap; w_self := set_cls ClsCachedBlock (ref_block "h1" 2 None) |}.

(** A new peer of the reference instance, and the hash of its genesis. *)
Definition ref_peer_world : pworld :=
  {| pw_peer := mkPeer false false false false None None "" [];
     pw_signals := []; pw_heap := empty_heap |}.

Definition ref_genesis_hash : string :=
  match (local_genesis_hash (env := ref_env) ref_peer_world).1 with
  | Ok g => g
  | Raise _ => ""%string
  end.

(** A Status packet that matches the reference instance. *)
Definition ref_status : list string :=
  [ String (ascii_of_nat 34) EmptyString; ""%string; String (ascii_of_nat 7) EmptyString;
    "head"%string; ref_genesis_hash ].

(** The reference world after [set_nonce("aa", 5)], and a run of mutations
    on it. *)
Definition ref_world_nonce : world :=
  (set_nonce "aa" (VInt 5) ref_world).2.

Definition ref_mutations : list mutation :=
  [ MSetAcctItem "aa" "nonce" (VInt 9);
    MDeltaItem "aa" "balance" 100;
    MSetStorageData "aa" (KIdx 1) (VInt 5);
    MSuicide "aa";
    MSetGasUsed 7;
    MAddTransaction (RList []) (RStr "") (RStr "");
    MPostqueueAppend "m" ]%string.

Definition ref_snapshot : Snapshot :=
  match (snapshot ref_world_nonce).1 with
  | Ok s => s
  | Raise _ => mkSnapshot "" 0 1%positive 0 1%positive 1%positive 0 1%positive 0
  end.

Definition ref_world_mutated : world :=
  (for_each ref_mutations (run_mutation (env := ref_env)) (snapshot ref_world_nonce).2).2.

(** A run on the reference block with nothing pending when it starts: a
    transaction is appended and an account deleted before the first write,
    and the block is given another transactions trie. *)
Definition ref_mutations_settled : list mutation :=
  [ MAddTransactionToList "tx";
    MDelAccount "aa";
    MSetAcctItem "aa" "balance" (VInt 3);
    MSetTransactions "other" ]%string.

Definition ref_snapshot_settled : Snapshot :=
  match (snapshot ref_world).1 with
  | Ok s => s
  | Raise _ => mkSnapshot "" 0 1%positive 0 1%positive 1%positive 0 1%positive 0
  end.

Definition ref_world_settled : world :=
  (for_each ref_mutations_settled (run_mutation (env := ref_env)) (snapshot ref_world).2).2.

(** ** Blocks with uncles on the reference store *)




(** The children that [init_from_parent] builds on the reference block at
    timestamps 1004 and 1010. *)
Definition ref_child_1004 : Block :=
  match (init_from_parent (env := ref_env) "cb" "" 1004 [] ref_world).1 with
  | Ok c => c
  | Raise _ => no_self
  end.

Definition ref_child_1010 : Block :=
  match (init_from_parent (env := ref_env) "cb" "" 1010 [] ref_world).1 with
  | Ok c => c
  | Raise _ => no_self
  end.

(** * Further parts of blocks.py and peer.py *)

Section more_blocks.
Context {env : Env}.

(** [self.serialize_header_without_nonce()] *)
Definition serialize_header_without_nonce : M string :=
  h ← list_header ["nonce"%string];
  mret (rlp_encode (rlp_of_header h)).

(** [self.check_proof_of_work(nonce)]; [H[-1] = nonce] raises [IndexError] on
    an empty list. *)
Definition check_proof_of_work (nonce' : string) : M bool :=
  H ← list_header [];
  match H with
  | [] => raise IndexError
  | _ :: _ => lift (check_header_pow (removelast H ++ [nonce']))
  end.

(** [self.has_parent()] *)
Definition has_parent : M bool :=
  try_except (get_parent ;; mret true) UnknownParentException (mret false).

End more_blocks.

(** ** Reading the storage of an account *)

(** What the trie of the state engine records while it reads:
    [trie_get_nodes t key] is [t.proof_nodes] after [t.get(key)]. *)
Class TrieReads := {
  trie_get_nodes : Trie → string → list string;
}.

(** A root handed to the trie constructor, as [rlp_str]; a root that is not
    a byte string is outside the model of the (external) trie. *)
Definition value_str (v : value) : string :=
  match v with VStr s => s | _ => ""%string end.

(** [self.caches['storage:'+address][index]] when both keys are present. *)
Definition storage_cached (b : Block) (address : string) (index : key) : option value :=
  match caches b !! ("storage:" +:+ address) with
  | Some m => m !! index
  | None => None
  end.

Section storage_reads.
Context {env : Env} {reads : TrieReads}.

(** [self.get_storage(address)]: the trie opened on the storage root of the
    account. *)
Definition get_storage (address : string) : M Trie :=
  storage_root ← _get_acct_item address "storage";
  mret (Trie_new (value_str storage_root)).

(** [self.get_storage_data(address, index)].  [t.proof_nodes] and
    [self.proof_nodes] name one list, so what the trie records during [get]
    is seen through the latter before [extend] appends the list to itself.
    [big_endian_to_int] reads a byte string; a decoded list is not one and is
    given [TypeError]. *)
Definition get_storage_data (address : string) (index : key) : M value :=
  b ← get_self;
  match storage_cached b address index with
  | Some v => mret v
  | None =>
    t0 ← get_storage address;
    b' ← get_self;
    let t := {| root_hash := root_hash t0; t_proof_mode := proof_mode b';
                t_proof_nodes := proof_nodes b' |} in
    let key := zpad (coerce_to_bytes index) 32 in
    let val := rlp_decode (trie_get t key) in
    let nodes := trie_get_nodes t key in
    modify_self (set_proof_nodes
      (nodes ++ if bool_decide (proof_mode b' = Some RECORDING) then nodes else []));;
    if rlp_truthy val then
      match val with
      | RStr s => mret (VInt (big_endian_to_int s))
      | RList _ => raise TypeError
      end
    else mret (VInt 0)
  end.

End storage_reads.

(** ** Snapshots within snapshots *)

(** What a caller does between a snapshot and its revert: a mutation, or an
    attempt of its own, which takes a snapshot, runs mutations and reverts to
    that snapshot. *)
Inductive step :=
  | SMut (mu : mutation)
  | STry (ms : list mutation).

Definition run_step {env : Env} (st : step) : M unit :=
  match st with
  | SMut mu => run_mutation mu
  | STry ms => s ← snapshot; for_each ms run_mutation;; revert s
  end.

(** Along the run of [steps] from [w], every call that commits the state is
    made when nothing is pending; the mutations of an attempt run from the
    world that its snapshot leaves. *)
Definition step_settled {env : Env} (st : step) (w : world) : bool :=
  match st with
  | SMut mu => mutation_settled mu w
  | STry ms => commits_settled ms (snapshot w).2
  end.

Fixpoint steps_settled {env : Env} (steps : list step) (w : world) : bool :=
  match steps with
  | [] => true
  | st :: steps' =>
    step_settled st w &&
    match run_step st w with
    | (Ok _, w') => steps_settled steps' w'
    | (Raise _, _) => true
    end
  end.

(** Snapshot, revert, one message appended to the post-queue, and the revert
    to the same snapshot again. *)
Definition revert_append_revert {env : Env} (m : msg) : M unit :=
  s ← snapshot;
  revert s;;
  run_mutation (MPostqueueAppend m);;
  revert s.


(** [since_snapshot], with the copy of the post-queue and the queue in use
    both allocated. *)
Definition since_snapshot_alloc (w0 : world) (lq : loc) (w : world) : Prop :=
  since_snapshot w0 lq w ∧
  lq ∈ dom (queues (w_heap w)) ∧
  postqueue (w_self w) ∈ dom (queues (w_heap w)).

(** The block keeps its post-queue object and no queue is lost. *)
Definition queues_grow : relation world := λ w w',
  postqueue (w_self w') = postqueue (w_self w) ∧
  dom (queues (w_heap w)) ⊆ dom (queues (w_heap w')).

(** With an empty journal nothing is left to commit: the world stays as it
    is. *)
Definition committed_pure : relation world := λ w w',
  journals (w_heap w) !!! journal (w_self w) = [] → w' = w.

(** Once the blank account is memoised, the world stays as it is. *)
Definition memo_pure : relation world := λ w w',
  blank_acct (w_self w) ≠ None → w' = w.

(** What reading an account item may do: memoise the blank account (and log
    its [db.put]), in such a way that [mk_blank_acct] answers as before. *)
Definition reads_only {env : Env} : relation world := λ w w',
  only_blank_acct w w' ∧ (mk_blank_acct w').1 = (mk_blank_acct w).1.

(** The header list of the reference block. *)
Definition ref_header_list : list string :=
  match (list_header (env := ref_env) [] ref_world).1 with
  | Ok h => h
  | Raise _ => []
  end.

(** The reference trie records nothing while it reads. *)
Definition ref_reads : TrieReads := {| trie_get_nodes := λ t _, t_proof_nodes t |}.

(** Steps on the reference block: a write, an attempt that is reverted, and
    a change of [gas_used]. *)
Definition ref_steps : list step :=
  [ SMut (MSetAcctItem "aa" "nonce" (VInt 9));
    STry [ MSetStorageData "aa" (KIdx 1) (VInt 5); MPostqueueAppend "m"; MSetGasUsed 3 ];
    SMut (MSetGasUsed 7) ]%string.

Definition ref_world_stepped : world :=
  (for_each ref_steps (run_step (env := ref_env)) (snapshot ref_world_nonce).2).2.

(** Steps on the reference block with nothing pending when they start: an
    attempt that appends a transaction before its write and is reverted, the
    deletion of an account, and a storage write. *)
Definition ref_steps_settled : list step :=
  [ STry [ MAddTransactionToList "tx"; MSetAcctItem "aa" "balance" (VInt 3) ];
    SMut (MDelAccount "aa");
    SMut (MSetStorageData "aa" (KIdx 1) (VInt 5)) ]%string.

Definition ref_world_stepped_settled : world :=
  (for_each ref_steps_settled (run_step (env := ref_env)) (snapshot ref_world).2).2.

(** The genesis block of the reference instance. *)
Definition ref_genesis : Block :=
  match (genesis (env := ref_env) GENESIS_INITIAL_ALLOC INITIAL_DIFFICULTY ref_world).1 with
  | Ok g => g
  | Raise _ => no_self
  end.

(** A transaction list of two entries, and the reference world after the
    constructor's loop has added them. *)
Definition ref_transaction_list : list rlp :=
  [ RList [RList [RStr "t1"]; RStr "s1"; RStr "g1"];
    RList [RList [RStr "t2"]; RStr "s2"; RStr "g2"] ]%string.

Definition ref_world_transactions : world :=
  (for_each ref_transaction_list (add_listed_transaction (env := ref_env)) ref_world).2.

(** ** peer.py: a Disconnect packet that arrives *)

(** [packeter.disconnect_reasons_map_by_id], a dictionary of the (external)
    packet encoder: the reason that an identifier stands for, if any. *)
Class Packeter := {
  disconnect_reasons_map_by_id : Z → option string;
}.

Definition praise {A} (e : exn) : PM A := λ σ, (Raise e, σ).

(** [self._recv_Disconnect(data)]; the lookup of an identifier that the
    dictionary lacks raises [KeyError]. *)
Definition _recv_Disconnect {pk : Packeter} (data : list string) : PM unit :=
  forget ← match data with
           | [] => mret None
           | d0 :: _ =>
             match disconnect_reasons_map_by_id (idec d0) with
             | None => praise KeyError
             | Some reason => mret (Some (bool_decide (reason ∈ reasons_to_forget)))
             end
           end;
  send_signal (peer_disconnect_requested forget).

(** A packet encoder that knows two reasons. *)
Definition ref_packeter : Packeter :=
  {| disconnect_reasons_map_by_id := λ n,
       if n =? 0 then Some "Disconnect requested"%string
       else if n =? 2 then Some "Bad protocol"%string
       else None |}.

(** The reference block with a 40-character coinbase. *)
Definition ref_world_miner : world :=
  {| w_heap := ref_heap;
     w_self := set_hdr {| prevhash := "h1"; uncles_hash := ref_sha3 (ref_rlp_encode (RList []));
                          coinbase := GENESIS_COINBASE; difficulty := 131072; number := 2;
                          min_gas_price := 0; gas_limit := 10 ^ 6; gas_used := 0;
                          timestamp := 1000; extra_data := ""; nonce := "" |}
                 (ref_block "h1" 2 None) |}.

(** The hash of the reference block with a pending balance. *)
Definition ref_balance_hash : string :=
  match (hash (env := ref_env) ref_world_balance).1 with
  | Ok h => h
  | Raise _ => ""%string
  end.

(** The reference block with a 40-character coinbase, recording proofs, with
    two proof nodes recorded so far. *)
Definition ref_world_recording : world :=
  {| w_heap := w_heap ref_world_miner;
     w_self := set_proof_nodes ["n1"; "n2"]%string
                 {| cls := ClsBlock; hdr := hdr (w_self ref_world_miner); uncles := [];
                    suicides := 1%positive; postqueue := 1%positive; caches := fresh_caches;
                    journal := 1%positive; transactions := 1%positive; transaction_count := 0;
                    state := Trie_new "root"; proof_mode := Some RECORDING; proof_nodes := [];
                    blank_acct := None; hash_cached := None |} |}.

(** * Properties *)

(** ** The monad *)

Lemma bind_unfold {A B} (m : M A) (k : A → M B) (w : world) :
  (m ≫= k) w = match m w with
               | (Ok a, w') => k a w'
               | (Raise e, w') => (Raise e, w')
               end.
Proof. reflexivity. Qed.

Lemma bind_ok {A B} (m : M A) (k : A → M B) (w w' : world) (a : A) :
  m w = (Ok a, w') → (m ≫= k) w = k a w'.
Proof. intros Hm. rewrite bind_unfold, Hm. reflexivity. Qed.

Lemma bind_raise {A B} (m : M A) (k : A → M B) (w w' : world) (e : exn) :
  m w = (Raise e, w') → (m ≫= k) w = (Raise e, w').
Proof. intros Hm. rewrite bind_unfold, Hm. reflexivity. Qed.

Lemma bind_assoc {A B C} (m : M A) (k : A → M B) (k' : B → M C) (w : world) :
  ((m ≫= k) ≫= k') w = (m ≫= (λ a, k a ≫= k')) w.
Proof.
  rewrite !bind_unfold. destruct (m w) as [[a|e] w']; reflexivity.
Qed.

Lemma bind_inv {A B} (m : M A) (k : A → M B) (w w2 : world) (r : outcome B) :
  (m ≫= k) w = (r, w2) →
  (∃ a w1, m w = (Ok a, w1) ∧ k a w1 = (r, w2)) ∨
  (∃ e, m w = (Raise e, w2) ∧ r = Raise e).
Proof.
  rewrite bind_unfold. destruct (m w) as [[a|e] w1]; intros Hk.
  - left. eauto.
  - right. inversion Hk; subst. eauto.
Qed.

Lemma bind_inv_ok {A B} (m : M A) (k : A → M B) (w w2 : world) (b : B) :
  (m ≫= k) w = (Ok b, w2) → ∃ a w1, m w = (Ok a, w1) ∧ k a w1 = (Ok b, w2).
Proof.
  intros Hk. apply bind_inv in Hk as [(a & w1 & Hm & Hk)|(e & _ & He)]; [eauto | discriminate].
Qed.


Lemma decode_hex_bind {env : Env} {B} (a : string) (k : string → M B) (w : world) :
  (decode_hex a ≫= k) w =
  if hex_decodable a then k (hex_decode a) w else (Raise TypeError, w).
Proof. unfold decode_hex. destruct (hex_decodable a); reflexivity. Qed.

Lemma decode_hex_if_bind {env : Env} {B} (c : bool) (a : string) (k : string → M B)
    (w : world) :
  ((if c then decode_hex a else mret a) ≫= k) w =
  if c then (if hex_decodable a then k (hex_decode a) w else (Raise TypeError, w))
  else k a w.
Proof. unfold decode_hex. destruct c, (hex_decodable a); reflexivity. Qed.

(** ** Steps that keep a relation between the worlds before and after *)

Section preserves.
Context (R : relation world) `{!PreOrder R}.

Lemma preserves_pure {A} (m : M A) : (∀ w, (m w).2 = w) → preserves R m.
Proof. intros Hm w r w' Hw. specialize (Hm w). rewrite Hw in Hm. simpl in Hm. subst. reflexivity. Qed.

Lemma preserves_ret {A} (a : A) : preserves R (mret a).
Proof. apply preserves_pure. reflexivity. Qed.

Lemma preserves_raise {A} (e : exn) : preserves R (raise e : M A).
Proof. apply preserves_pure. reflexivity. Qed.

Lemma preserves_lift {A} (o : outcome A) : preserves R (lift o).
Proof. apply preserves_pure. reflexivity. Qed.

Lemma preserves_assert (c : bool) : preserves R (assert c).
Proof. apply preserves_pure. destruct c; reflexivity. Qed.

Lemma preserves_get_self : preserves R get_self.
Proof. apply preserves_pure. reflexivity. Qed.

Lemma preserves_read_journal : preserves R read_journal.
Proof. apply preserves_pure. reflexivity. Qed.

Lemma preserves_read_suicides : preserves R read_suicides.
Proof. apply preserves_pure. reflexivity. Qed.

Lemma preserves_read_postqueue : preserves R read_postqueue.
Proof. apply preserves_pure. reflexivity. Qed.

Lemma preserves_read_transactions : preserves R read_transactions.
Proof. apply preserves_pure. reflexivity. Qed.

Lemma decode_hex_world {env : Env} (a : string) (w : world) : (decode_hex a w).2 = w.
Proof. unfold decode_hex. destruct (hex_decodable a); reflexivity. Qed.

Lemma preserves_decode_hex {env : Env} (a : string) : preserves R (decode_hex a).
Proof. apply preserves_pure. apply decode_hex_world. Qed.

Lemma preserves_bind {A B} (m : M A) (k : A → M B) :
  preserves R m → (∀ a, preserves R (k a)) → preserves R (m ≫= k).
Proof.
  intros Hm Hk w r w' Hw.
  apply bind_inv in Hw as [(a & w1 & H1 & H2)|(e & H1 & _)].
  - transitivity w1; [eapply Hm | eapply Hk]; eassumption.
  - eapply Hm; eassumption.
Qed.

Lemma preserves_for_each {A} (l : list A) (f : A → M unit) :
  (∀ x, preserves R (f x)) → preserves R (for_each l f).
Proof.
  intros Hf. induction l as [|x l IH]; simpl.
  - apply preserves_ret.
  - apply preserves_bind; auto.
Qed.

Lemma preserves_map_M {A B} (f : A → M B) (l : list A) :
  (∀ x, preserves R (f x)) → preserves R (map_M f l).
Proof.
  intros Hf. induction l as [|x l IH]; simpl.
  - apply preserves_ret.
  - apply preserves_bind; [auto|]. intros y.
    apply preserves_bind; [auto|]. intros ys. apply preserves_ret.
Qed.

Lemma preserves_try_except {A} (m h : M A) (e : exn) :
  preserves R m → preserves R h → preserves R (try_except m e h).
Proof.
  intros Hm Hh w r w' Hw. unfold try_except in Hw.
  destruct (m w) as [[a|e'] w1] eqn:E.
  - inversion Hw; subst. eapply Hm; eassumption.
  - destruct (bool_decide (e' = e)).
    + transitivity w1; [eapply Hm | eapply Hh]; eassumption.
    + inversion Hw; subst. eapply Hm; eassumption.
Qed.

End preserves.

(** One step of a proof that a composed method keeps a relation. *)
Ltac pres_inst := try (lazymatch goal with |- PreOrder _ => apply _ end).

Ltac pres_step :=
  lazymatch goal with
  | |- preserves _ (mbind _ _) => apply preserves_bind; pres_inst; [|intros ?]
  | |- preserves _ (mret _) => apply preserves_ret; pres_inst
  | |- preserves _ (raise _) => apply preserves_raise; pres_inst
  | |- preserves _ (lift _) => apply preserves_lift; pres_inst
  | |- preserves _ (assert _) => apply preserves_assert; pres_inst
  | |- preserves _ get_self => apply preserves_get_self; pres_inst
  | |- preserves _ read_journal => apply preserves_read_journal; pres_inst
  | |- preserves _ read_suicides => apply preserves_read_suicides; pres_inst
  | |- preserves _ read_postqueue => apply preserves_read_postqueue; pres_inst
  | |- preserves _ read_transactions => apply preserves_read_transactions; pres_inst
  | |- preserves _ (decode_hex _) => apply preserves_decode_hex; pres_inst
  | |- preserves _ (for_each _ _) => apply preserves_for_each; pres_inst; intros ?
  | |- preserves _ (map_M _ _) => apply preserves_map_M; pres_inst; intros ?
  | |- preserves _ (try_except _ _ _) => apply preserves_try_except; pres_inst
  | |- preserves _ (match ?x with _ => _ end) => destruct x
  end.

Lemma preserves_modify_self (R : relation world) (f : Block → Block) :
  (∀ w, R w {| w_heap := w_heap w; w_self := f (w_self w) |}) → preserves R (modify_self f).
Proof. intros HR w r w' Hw. inversion Hw; subst. apply HR. Qed.

Lemma preserves_modify_heap (R : relation world) (f : heap → heap) :
  (∀ w, R w {| w_heap := f (w_heap w); w_self := w_self w |}) → preserves R (modify_heap f).
Proof. intros HR w r w' Hw. inversion Hw; subst. apply HR. Qed.

Lemma preserves_alloc_journal (R : relation world) (j : list entry) :
  (∀ w l, R w {| w_heap := set_journals (insert l j) (w_heap w); w_self := w_self w |}) →
  preserves R (alloc_journal j).
Proof. intros HR w r w' Hw. inversion Hw; subst. apply HR. Qed.

Ltac pres_prim :=
  first [ apply preserves_modify_self; intros ?
        | apply preserves_modify_heap; intros ?
        | apply preserves_alloc_journal; intros ? ? ].

Ltac pres_go := cbv zeta; repeat (pres_step; cbv zeta).

(** ** The header of a block is not changed by committing or hashing *)

#[global] Instance keeps_header_preorder : PreOrder keeps_header.
Proof.
  split.
  - intros w. unfold keeps_header. auto.
  - intros w1 w2 w3 (?&?&?&?&?) (?&?&?&?&?). unfold keeps_header.
    repeat split; congruence.
Qed.

Ltac kh_prim := pres_prim; unfold keeps_header; simpl; auto.

Section keeps_header.
Context {env : Env}.

Lemma kh_write_journal j : preserves keeps_header (write_journal j).
Proof. unfold write_journal. pres_go. kh_prim. Qed.

Lemma kh_mk_blank_acct : preserves keeps_header mk_blank_acct.
Proof. unfold mk_blank_acct. pres_go; kh_prim. Qed.

Lemma kh_commit_field address i k typ acct :
  preserves keeps_header (commit_field address i k typ acct).
Proof. unfold commit_field. pres_go; kh_prim. Qed.

Lemma kh_commit_fields address l acct :
  preserves keeps_header (commit_fields address l acct).
Proof.
  revert acct. induction l as [|[i [k typ]] l IH]; intros acct; simpl.
  - pres_go.
  - pres_go; [apply kh_commit_field | apply IH].
Qed.

Lemma kh_commit_account k : preserves keeps_header (commit_account k).
Proof.
  unfold commit_account. pres_go;
    first [ apply kh_mk_blank_acct | apply kh_commit_fields | kh_prim ].
Qed.

Lemma kh_reset_cache : preserves keeps_header reset_cache.
Proof. unfold reset_cache. pres_go; kh_prim. Qed.

Lemma kh_Block_commit_state : preserves keeps_header Block_commit_state.
Proof.
  unfold Block_commit_state. pres_go;
    first [ apply kh_commit_account | apply kh_reset_cache | kh_prim ].
Qed.

Lemma kh_commit_state : preserves keeps_header commit_state.
Proof.
  unfold commit_state, CachedBlock_commit_state. pres_go. apply kh_Block_commit_state.
Qed.

Lemma kh_getattr_field name : preserves keeps_header (getattr_field name).
Proof.
  unfold getattr_field, get_state_root, get_tx_list_root. pres_go; apply kh_commit_state.
Qed.

Lemma kh_list_header exclude : preserves keeps_header (list_header exclude).
Proof. unfold list_header. pres_go. apply kh_getattr_field. Qed.

Lemma kh_hash : preserves keeps_header hash.
Proof.
  unfold hash, _hash, CachedBlock__hash, Block__hash, serialize_header.
  pres_go; first [ apply kh_list_header | kh_prim ].
Qed.

Lemma kh_Block_init_checks root header :
  preserves keeps_header (Block_init_checks root [] header).
Proof.
  unfold Block_init_checks.
  replace (bool_decide (@nil rlp ≠ [])) with false
    by (symmetry; apply bool_decide_eq_false; tauto).
  pres_go; first [ apply kh_getattr_field | apply kh_list_header ].
Qed.

End keeps_header.

(** ** Construction from a parent *)

Lemma call_on_inv {A} (b b' : Block) (m : M A) (w w' : world) (a : A) :
  call_on b m w = (Ok (a, b'), w') →
  ∃ w1, m {| w_heap := w_heap w; w_self := b |} = (Ok a, w1) ∧
        b' = w_self w1 ∧ w' = {| w_heap := w_heap w1; w_self := w_self w |}.
Proof.
  unfold call_on. destruct (m _) as [[x|e] w1] eqn:E; intros Hc; [|discriminate].
  inversion Hc; subst. eauto.
Qed.

Section construction.
Context {env : Env}.

Lemma Block_init_hdr p uh cb sr tr d n mgp gl gu ts ed nc us header w child w' :
  Block_init p uh cb sr tr d n mgp gl gu ts ed nc [] us header w = (Ok child, w') →
  hdr child = {| prevhash := p; uncles_hash := uh; coinbase := cb; difficulty := d;
                 number := n; min_gas_price := mgp; gas_limit := gl; gas_used := gu;
                 timestamp := ts; extra_data := ed; nonce := nc |}.
Proof.
  unfold Block_init. intros Hi.
  apply bind_inv_ok in Hi as (ls & w1 & _ & Hi).
  apply bind_inv_ok in Hi as (lq & w2 & _ & Hi).
  apply bind_inv_ok in Hi as (lj & w3 & _ & Hi).
  apply bind_inv_ok in Hi as (lt & w4 & _ & Hi).
  cbv zeta in Hi.
  apply bind_inv_ok in Hi as ([u b'] & w5 & Hc & Hi).
  inversion Hi; subst. simpl.
  apply call_on_inv in Hc as (w6 & Hc & -> & _).
  apply kh_Block_init_checks in Hc as (Hh & _). exact Hh.
Qed.

Lemma init_from_parent_hdr cb ed ts us w child w' :
  init_from_parent cb ed ts us w = (Ok child, w') →
  difficulty (hdr child) = calc_difficulty (w_self w) ts ∧
  gas_limit (hdr child) = calc_gaslimit (w_self w) ∧
  number (hdr child) = number (hdr (w_self w)) + 1 ∧
  gas_used (hdr child) = 0 ∧ min_gas_price (hdr child) = 0 ∧
  nonce (hdr child) = ""%string ∧ timestamp (hdr child) = ts.
Proof.
  unfold init_from_parent. intros Hi.
  apply bind_inv_ok in Hi as (h & w1 & Hh & Hi).
  apply bind_inv_ok in Hi as (parent & w2 & Hp & Hi).
  inversion Hp; subst. clear Hp.
  apply kh_hash in Hh as (Hh & _).
  apply Block_init_hdr in Hi. rewrite Hi. simpl.
  unfold calc_difficulty, calc_gaslimit. rewrite Hh. repeat split; reflexivity.
Qed.

(** C4. The difficulty that [init_from_parent] computes for the child of a
    parent is the parent's difficulty plus or minus its 1024th part (floor
    division): plus when the child's timestamp is less than 5 after the
    parent's, minus otherwise; it is the difficulty of the block that
    [init_from_parent] returns.  A parent of difficulty 131072 and timestamp
    1000 gives 131200 at timestamp 1004 and 130944 at timestamp 1010. *)
Theorem init_from_parent_difficulty (w : world) (coinbase' extra_data' : string)
    (timestamp' : Z) (uncles' : list (list string)) :
  let parent := w_self w in
  let sign := if timestamp' - timestamp (hdr parent) <? 5 then 1 else -1 in
  calc_difficulty parent timestamp' =
    difficulty (hdr parent) + sign * (difficulty (hdr parent) / 1024) ∧
  (∀ child w',
     init_from_parent coinbase' extra_data' timestamp' uncles' w = (Ok child, w') →
     difficulty (hdr child) = calc_difficulty parent timestamp') ∧
  (difficulty (hdr parent) = 131072 → timestamp (hdr parent) = 1000 →
   (timestamp' = 1004 → calc_difficulty parent timestamp' = 131200) ∧
   (timestamp' = 1010 → calc_difficulty parent timestamp' = 130944)).
Proof.
  intros parent sign.
  assert (Hc : calc_difficulty parent timestamp' =
               difficulty (hdr parent) + sign * (difficulty (hdr parent) / 1024)).
  { unfold calc_difficulty, BLOCK_DIFF_FACTOR, DIFF_ADJUSTMENT_CUTOFF.
    subst sign. cbv zeta. lia. }
  split; [exact Hc|]. split.
  - intros child w' Hi. apply init_from_parent_hdr in Hi as (Hd & _). exact Hd.
  - intros Hp Ht. rewrite Hc. subst sign. rewrite Hp, Ht.
    split; intros ->; reflexivity.
Qed.

(** C5. The gas limit that [init_from_parent] computes for the child of a
    parent is
    [max(125000, (parent.gas_limit * 1023 + parent.gas_used * 6 / 5) / 1024)]
    with floor divisions; it is the gas limit of the block that
    [init_from_parent] returns.  A parent with gas limit 10^6 and no gas used
    gives 999023. *)
Theorem init_from_parent_gas_limit (w : world) (coinbase' extra_data' : string)
    (timestamp' : Z) (uncles' : list (list string)) :
  let parent := w_self w in
  calc_gaslimit parent =
    Z.max 125000 ((gas_limit (hdr parent) * 1023 + gas_used (hdr parent) * 6 / 5) / 1024) ∧
  (∀ child w',
     init_from_parent coinbase' extra_data' timestamp' uncles' w = (Ok child, w') →
     gas_limit (hdr child) = calc_gaslimit parent) ∧
  (gas_limit (hdr parent) = 10 ^ 6 → gas_used (hdr parent) = 0 →
   calc_gaslimit parent = 999023).
Proof.
  intros parent.
  assert (Hc : calc_gaslimit parent =
    Z.max 125000 ((gas_limit (hdr parent) * 1023 + gas_used (hdr parent) * 6 / 5) / 1024)).
  { unfold calc_gaslimit, GASLIMIT_EMA_FACTOR, BLKLIM_FACTOR_NOM,
      BLKLIM_FACTOR_DEN, MIN_GAS_LIMIT. cbv zeta.
    replace (1024 - 1) with 1023 by reflexivity. lia. }
  split; [exact Hc|]. split.
  - intros child w' Hi. apply init_from_parent_hdr in Hi as (_ & Hg & _). exact Hg.
  - intros Hl Hu. rewrite Hc, Hl, Hu. reflexivity.
Qed.

End construction.

Lemma init_from_parent_difficulty_witness :
  difficulty (hdr ref_child_1004) = 131200 ∧ difficulty (hdr ref_child_1010) = 130944.
Proof.
  assert (H1 : init_from_parent (env := ref_env) "cb" "" 1004 [] ref_world =
               (Ok ref_child_1004, (init_from_parent (env := ref_env) "cb" "" 1004 [] ref_world).2))
    by (vm_compute; reflexivity).
  assert (H2 : init_from_parent (env := ref_env) "cb" "" 1010 [] ref_world =
               (Ok ref_child_1010, (init_from_parent (env := ref_env) "cb" "" 1010 [] ref_world).2))
    by (vm_compute; reflexivity).
  destruct (init_from_parent_difficulty (env := ref_env) ref_world "cb" "" 1004 [])
    as (_ & Hc1 & Hv1).
  destruct (init_from_parent_difficulty (env := ref_env) ref_world "cb" "" 1010 [])
    as (_ & Hc2 & Hv2).
  split.
  - rewrite (Hc1 _ _ H1). apply (Hv1 eq_refl eq_refl). reflexivity.
  - rewrite (Hc2 _ _ H2). apply (Hv2 eq_refl eq_refl). reflexivity.
Defined.

Lemma init_from_parent_gas_limit_witness :
  gas_limit (hdr ref_child_1004) = 999023.
Proof.
  assert (H1 : init_from_parent (env := ref_env) "cb" "" 1004 [] ref_world =
               (Ok ref_child_1004, (init_from_parent (env := ref_env) "cb" "" 1004 [] ref_world).2))
    by (vm_compute; reflexivity).
  destruct (init_from_parent_gas_limit (env := ref_env) ref_world "cb" "" 1004 [])
    as (_ & Hc & Hv).
  rewrite (Hc _ _ H1). apply (Hv eq_refl eq_refl).
Defined.

(** ** Proof of work *)

Lemma big_endian_to_int_nonneg (s : string) : 0 ≤ big_endian_to_int s.
Proof.
  unfold big_endian_to_int.
  assert (Hf : ∀ l acc, 0 ≤ acc →
    0 ≤ fold_left (λ acc c, acc * 256 + Z.of_nat (nat_of_ascii c)) l acc).
  { induction l as [|c l IH]; intros acc Hacc; simpl; [exact Hacc|].
    apply IH. lia. }
  apply Hf. lia.
Qed.

Section pow.
Context {env : Env}.

(** C3. For a header of 13 fields (the 12 fields [Hn] followed by the
    nonce) whose difficulty field decodes to the integer [diff]: a nonce that
    is not 32 bytes long fails the assertion; with a 32-byte nonce the check
    passes if and only if [sha3(sha3(rlp(Hn)) + nonce)], read as a big-endian
    unsigned integer, is less than [2^256 / diff] (floor division; a zero
    difficulty raises [ZeroDivisionError] and so does not pass). *)
Theorem check_header_pow_spec (Hn : list string) (nonce' dstr : string) (diff : Z) :
  length Hn = 12%nat →
  Hn !! 5%nat = Some dstr →
  as_int (decoders "int" (RStr dstr)) = Some diff →
  let header := Hn ++ [nonce'] in
  let h := big_endian_to_int (sha3 (sha3 (rlp_encode (rlp_of_header Hn)) +:+ nonce')) in
  (String.length nonce' ≠ 32%nat → check_header_pow header = Raise AssertionError) ∧
  (String.length nonce' = 32%nat →
   (diff ≠ 0 → check_header_pow header = Ok (h <? 2 ^ 256 / diff)) ∧
   (diff = 0 → check_header_pow header = Raise ZeroDivisionError) ∧
   (check_header_pow header = Ok true ↔ h < 2 ^ 256 / diff)).
Proof.
  intros Hlen Hd Hdiff header h.
  assert (Hlast : last header = Some nonce') by apply last_snoc.
  assert (Hrem : removelast header = Hn) by apply removelast_last.
  assert (Hidx : block_structure_rev "difficulty" = Some (5%nat, "int"%string))
    by reflexivity.
  assert (Hlk : header !! 5%nat = Some dstr).
  { unfold header. rewrite lookup_app_l by lia. exact Hd. }
  unfold check_header_pow. rewrite Hlast, Hrem, Hidx, Hlk, Hdiff.
  fold h. split.
  - intros Hne. rewrite bool_decide_false by exact Hne. reflexivity.
  - intros Heq. rewrite bool_decide_true by exact Heq. simpl.
    destruct (Z.eqb_spec diff 0) as [->|Hnz].
    + split; [intros Hc; contradiction|]. split; [reflexivity|].
      split; [discriminate|].
      intros Hlt. rewrite Z.div_0_r in Hlt.
      pose proof (big_endian_to_int_nonneg
        (sha3 (sha3 (rlp_encode (rlp_of_header Hn)) +:+ nonce'))). unfold h in Hlt. lia.
    + split; [reflexivity|]. split; [intros Hc; contradiction|].
      split.
      * intros Hc. inversion Hc as [Hb]. apply Z.ltb_lt in Hb. exact Hb.
      * intros Hlt. apply Z.ltb_lt in Hlt. rewrite Hlt. reflexivity.
Qed.

End pow.

Lemma check_header_pow_spec_witness :
  check_header_pow (env := ref_env) ref_uncle = Ok true.
Proof.
  apply (check_header_pow_spec (env := ref_env) ref_uncle_fields ref_uncle_nonce
           (String (ascii_of_nat 1) EmptyString) 1);
    [reflexivity | reflexivity | reflexivity | reflexivity | vm_compute; reflexivity].
Defined.

(** ** Reading an account *)

#[global] Instance only_blank_acct_preorder : PreOrder only_blank_acct.
Proof.
  split.
  - intros [[j s q t d] b]. exists (blank_acct b), d. destruct b; reflexivity.
  - intros w1 w2 w3 (ba & dp & ->) (ba' & dp' & ->). exists ba', dp'. reflexivity.
Qed.

Ltac oba_prim :=
  pres_prim;
  lazymatch goal with
  | w : world |- only_blank_acct _ _ =>
    destruct w as [[? ? ? ? ?] []]; eexists _, _; reflexivity
  end.

Section reading.
Context {env : Env}.

Lemma oba_mk_blank_acct : preserves only_blank_acct mk_blank_acct.
Proof. unfold mk_blank_acct. pres_go; oba_prim. Qed.

Lemma oba_get_acct address : preserves only_blank_acct (get_acct address).
Proof.
  unfold get_acct, load_acct. pres_go; try apply oba_mk_blank_acct.
Qed.

Lemma oba__get_acct_item address param :
  preserves only_blank_acct (_get_acct_item address param).
Proof. unfold _get_acct_item. pres_go; apply oba_get_acct. Qed.

Lemma set_and_journal_spec cache index v m w :
  caches (w_self w) !! cache = Some m →
  set_and_journal cache index v w = (Ok tt, journalled_write cache index v m w).
Proof.
  intros Hm. unfold set_and_journal, journalled_write.
  rewrite bind_unfold. simpl. rewrite Hm.
  destruct (py_ne_opt (m !! index) v); reflexivity.
Qed.

Lemma set_and_journal_missing cache index v w :
  caches (w_self w) !! cache = None →
  set_and_journal cache index v w = (Raise KeyError, w).
Proof.
  intros Hm. unfold set_and_journal. rewrite bind_unfold. simpl. rewrite Hm. reflexivity.
Qed.

End reading.

(** ** Balance changes *)

Lemma py_eq_int (p : value) (n : Z) : py_eq p (VInt n) = true → as_int p = Some n.
Proof.
  unfold py_eq. destruct (as_int p) as [a|]; simpl; [|discriminate].
  intros Heq. apply Z.eqb_eq in Heq. congruence.
Qed.

Lemma only_blank_acct_caches w w' :
  only_blank_acct w w' →
  caches (w_self w') = caches (w_self w) ∧ journal (w_self w') = journal (w_self w) ∧
  journals (w_heap w') = journals (w_heap w) ∧ cls (w_self w') = cls (w_self w).
Proof. intros (ba & dp & ->). simpl. auto. Qed.

Lemma journalled_write_caches cache index v m w :
  caches (w_self w) !! cache = Some m →
  caches (w_self (journalled_write cache index v m w)) =
    <[cache := if py_ne_opt (m !! index) v then <[index := v]> m else m]> (caches (w_self w)).
Proof.
  intros Hm. unfold journalled_write. destruct (py_ne_opt (m !! index) v); simpl.
  - reflexivity.
  - symmetry. apply insert_id. exact Hm.
Qed.

Lemma journalled_write_journal cache index v m w :
  journal (w_self (journalled_write cache index v m w)) = journal (w_self w) ∧
  journals (w_heap (journalled_write cache index v m w)) !!! journal (w_self w) =
    (journals (w_heap w) !!! journal (w_self w)) ++ journalled_entries cache index v m.
Proof.
  unfold journalled_write, journalled_entries.
  destruct (py_ne_opt (m !! index) v); simpl.
  - split; [reflexivity|]. apply lookup_total_insert_eq.
  - split; [reflexivity|]. symmetry. apply app_nil_r.
Qed.

Lemma journalled_write_cls cache index v m w :
  cls (w_self (journalled_write cache index v m w)) = cls (w_self w).
Proof. unfold journalled_write. destruct (py_ne_opt (m !! index) v); reflexivity. Qed.

Section balance.
Context {env : Env}.

Lemma _get_acct_item_cache address param v w w1 :
  param ≠ "storage"%string →
  _get_acct_item address param w = (Ok v, w1) →
  is_Some (caches (w_self w) !! param).
Proof.
  intros Hp. unfold _get_acct_item. rewrite bind_unfold. simpl.
  rewrite bool_decide_true by exact Hp.
  destruct (caches (w_self w) !! param) as [m|]; [eauto|].
  rewrite bind_unfold. simpl. discriminate.
Qed.

Lemma _get_acct_item_hit address param m v w :
  param ≠ "storage"%string →
  caches (w_self w) !! param = Some m → m !! KAddr address = Some v →
  _get_acct_item address param w = (Ok v, w).
Proof.
  intros Hp Hm Hv. unfold _get_acct_item. rewrite bind_unfold. simpl.
  rewrite bool_decide_true by exact Hp. rewrite Hm.
  rewrite bind_unfold. simpl. rewrite Hv. reflexivity.
Qed.

Lemma Block__set_acct_item_spec address param v mp ma w :
  param ≠ "all"%string →
  caches (w_self w) !! param = Some mp →
  caches (w_self w) !! "all"%string = Some ma →
  Block__set_acct_item address param v w =
    (Ok tt, journalled_write "all" (KAddr address) v ma
              (journalled_write param (KAddr address) v mp w)).
Proof.
  intros Hp Hmp Hma. unfold Block__set_acct_item.
  erewrite bind_ok by (apply set_and_journal_spec; exact Hmp).
  apply set_and_journal_spec.
  rewrite journalled_write_caches by exact Hmp.
  rewrite lookup_insert_ne by exact Hp. exact Hma.
Qed.

Lemma delta_balance_underflow (w w1 : world) (a : string) (cur : value) (bal delta : Z) :
  get_balance a w = (Ok cur, w1) →
  as_int cur = Some bal →
  bal + delta < 0 →
  delta_balance a delta w = (Ok false, w1) ∧
  caches (w_self w1) = caches (w_self w) ∧
  journal (w_self w1) = journal (w_self w) ∧
  journals (w_heap w1) = journals (w_heap w).
Proof.
  intros Hget Hcur Hneg.
  pose proof (oba__get_acct_item a "balance" _ _ _ Hget) as Hoba.
  apply only_blank_acct_caches in Hoba as (Hc & Hj & Hjs & Hcls).
  split; [|auto].
  unfold delta_balance, _delta_item. unfold get_balance in Hget.
  erewrite bind_ok by exact Hget. rewrite Hcur.
  assert (Hlt : (bal + delta <? 0) = true) by (apply Z.ltb_lt; exact Hneg).
  rewrite Hlt. reflexivity.
Qed.

(** C7. Let [bal] be the balance that [get_balance(a)] returns.  A delta
    that would make the balance negative makes [delta_balance] return
    [False]; no cache and no journal is touched.  Any other delta, on a
    [Block], makes it return [True]: the balance cache and the dirty set
    [all] hold the new balance at [a], and the journal is extended by the
    entries of exactly the writes that changed a cache. *)
Theorem delta_balance_spec (w w1 : world) (a : string) (cur : value) (bal delta : Z) :
  get_balance a w = (Ok cur, w1) →
  as_int cur = Some bal →
  (bal + delta < 0 →
   delta_balance a delta w = (Ok false, w1) ∧
   caches (w_self w1) = caches (w_self w) ∧
   journal (w_self w1) = journal (w_self w) ∧
   journals (w_heap w1) = journals (w_heap w)) ∧
  (0 ≤ bal + delta → cls (w_self w) = ClsBlock →
   ∀ mb ma,
     caches (w_self w) !! "balance"%string = Some mb →
     caches (w_self w) !! "all"%string = Some ma →
     let new := VInt (bal + delta) in
     ∃ w2 v',
       delta_balance a delta w = (Ok true, w2) ∧
       caches (w_self w2) =
         <["all"%string := if py_ne_opt (ma !! KAddr a) new then <[KAddr a := new]> ma else ma]>
           (<["balance"%string := if py_ne_opt (mb !! KAddr a) new then <[KAddr a := new]> mb else mb]>
              (caches (w_self w))) ∧
       journal (w_self w2) = journal (w_self w) ∧
       journals (w_heap w2) !!! journal (w_self w) =
         (journals (w_heap w) !!! journal (w_self w)) ++
         journalled_entries "balance" (KAddr a) new mb ++
         journalled_entries "all" (KAddr a) new ma ∧
       get_balance a w2 = (Ok v', w2) ∧ as_int v' = Some (bal + delta)).
Proof.
  intros Hget Hcur.
  pose proof (oba__get_acct_item a "balance" _ _ _ Hget) as Hoba.
  apply only_blank_acct_caches in Hoba as (Hc & Hj & Hjs & Hcls).
  split.
  - intros Hneg. eapply delta_balance_underflow; eassumption.
  - intros Hpos Hblock mb ma Hmb Hma new.
    assert (Hmb1 : caches (w_self w1) !! "balance"%string = Some mb) by (rewrite Hc; exact Hmb).
    assert (Hma1 : caches (w_self w1) !! "all"%string = Some ma) by (rewrite Hc; exact Hma).
    set (wb := journalled_write "balance" (KAddr a) new mb w1).
    set (w2 := journalled_write "all" (KAddr a) new ma wb).
    assert (Hcb : caches (w_self wb) =
      <["balance"%string := if py_ne_opt (mb !! KAddr a) new then <[KAddr a := new]> mb else mb]>
        (caches (w_self w))).
    { unfold wb. rewrite journalled_write_caches by exact Hmb1. rewrite Hc. reflexivity. }
    assert (Hab : caches (w_self wb) !! "all"%string = Some ma).
    { rewrite Hcb. rewrite lookup_insert_ne by discriminate. exact Hma. }
    assert (Hc2 : caches (w_self w2) =
      <["all"%string := if py_ne_opt (ma !! KAddr a) new then <[KAddr a := new]> ma else ma]>
        (caches (w_self wb))).
    { unfold w2. apply journalled_write_caches. exact Hab. }
    assert (Hv : ∃ v', (if py_ne_opt (mb !! KAddr a) new then <[KAddr a := new]> mb else mb)
                         !! KAddr a = Some v' ∧ as_int v' = Some (bal + delta)).
    { destruct (py_ne_opt (mb !! KAddr a) new) eqn:Hne.
      - exists new. split; [apply lookup_insert_eq | reflexivity].
      - unfold py_ne_opt in Hne. destruct (mb !! KAddr a) as [p|]; [|discriminate].
        exists p. split; [reflexivity|]. apply py_eq_int.
        apply negb_false_iff in Hne. exact Hne. }
    destruct Hv as (v' & Hv1 & Hv2).
    exists w2, v'.
    split.
    { unfold delta_balance, _delta_item. unfold get_balance in Hget.
      erewrite bind_ok by exact Hget. rewrite Hcur.
      assert (Hge : (bal + delta <? 0) = false) by (apply Z.ltb_ge; exact Hpos).
      rewrite Hge. unfold _set_acct_item.
      rewrite bind_unfold. rewrite (bind_unfold get_self). simpl.
      rewrite Hcls, Hblock.
      rewrite (Block__set_acct_item_spec a "balance" (VInt (bal + delta)) mb ma w1)
        by (try discriminate; assumption).
      reflexivity. }
    split; [rewrite Hc2, Hcb; reflexivity|].
    destruct (journalled_write_journal "balance" (KAddr a) new mb w1) as (Hj1 & Hjs1).
    destruct (journalled_write_journal "all" (KAddr a) new ma wb) as (Hj2 & Hjs2).
    fold wb in Hj1, Hjs1. fold w2 in Hj2, Hjs2.
    split; [congruence|].
    split.
    { rewrite <- Hj, <- Hj1. rewrite Hjs2. rewrite Hj1. rewrite Hjs1.
      rewrite Hjs, Hj. rewrite <- app_assoc. reflexivity. }
    split; [|exact Hv2].
    unfold get_balance. eapply _get_acct_item_hit; [discriminate| |exact Hv1].
    rewrite Hc2. rewrite lookup_insert_ne by discriminate.
    rewrite Hcb. apply lookup_insert_eq.
Qed.

End balance.

Lemma delta_balance_spec_witness :
  delta_balance (env := ref_env) "aa" (-11) ref_world_balance = (Ok false, ref_world_balance) ∧
  ∃ w2, delta_balance (env := ref_env) "aa" 5 ref_world_balance = (Ok true, w2).
Proof.
  assert (Hget : get_balance (env := ref_env) "aa" ref_world_balance =
                 (Ok (VInt 10), ref_world_balance)) by (vm_compute; reflexivity).
  split.
  - apply (delta_balance_spec (env := ref_env) _ _ "aa" (VInt 10) 10 (-11) Hget eq_refl).
    reflexivity.
  - destruct (delta_balance_spec (env := ref_env) _ _ "aa" (VInt 10) 10 5 Hget eq_refl)
      as [_ Hpos].
    destruct (Hpos ltac:(discriminate) eq_refl {[ KAddr "aa" := VInt 10 ]} ∅)
      as (w2 & v' & Hd & _).
    + vm_compute; reflexivity.
    + vm_compute; reflexivity.
    + exists w2. exact Hd.
Defined.

(** ** Transfers *)

Section transfer.
Context {env : Env}.


End transfer.


(** ** Committing the caches *)

Section commit.
Context {env : Env}.

Lemma reset_cache_result w r w' :
  reset_cache w = (r, w') →
  r = Ok tt ∧ caches (w_self w') = fresh_caches ∧
  journals (w_heap w') !!! journal (w_self w') = [].
Proof.
  unfold reset_cache. intros Hr. inversion Hr; subst; clear Hr. simpl.
  split; [reflexivity|]. split; [reflexivity|]. apply lookup_total_insert_eq.
Qed.

Lemma commit_state_empty_journal w :
  journals (w_heap w) !!! journal (w_self w) = [] → commit_state w = (Ok tt, w).
Proof.
  intros Hj. unfold commit_state. rewrite bind_unfold. simpl.
  destruct (cls (w_self w)); [|reflexivity].
  unfold Block_commit_state. rewrite bind_unfold. simpl. rewrite Hj. reflexivity.
Qed.

Lemma Block_commit_state_result w w' :
  journals (w_heap w) !!! journal (w_self w) ≠ [] →
  Block_commit_state w = (Ok tt, w') →
  caches (w_self w') = fresh_caches ∧
  journals (w_heap w') !!! journal (w_self w') = [].
Proof.
  intros Hj. unfold Block_commit_state. rewrite bind_unfold. simpl.
  rewrite bool_decide_false
    by (intros Hl; apply Hj; destruct (journals (w_heap w) !!! journal (w_self w));
        [reflexivity | discriminate]).
  rewrite bind_unfold. simpl.
  destruct (caches (w_self w) !! "all"%string) as [all|]; [|discriminate].
  intros Hc.
  apply bind_inv_ok in Hc as (u1 & w1 & _ & Hc).
  apply bind_inv_ok in Hc as (b' & w2 & _ & Hc).
  apply bind_inv_ok in Hc as (u2 & w3 & _ & Hc).
  apply reset_cache_result in Hc as (_ & Hc & Hj'). auto.
Qed.

Lemma commit_state_again w w' :
  commit_state w = (Ok tt, w') → commit_state w' = (Ok tt, w').
Proof.
  intros Hc.
  destruct (decide (journals (w_heap w) !!! journal (w_self w) = [])) as [Hj|Hj].
  - rewrite commit_state_empty_journal in Hc by exact Hj.
    inversion Hc; subst. apply commit_state_empty_journal. exact Hj.
  - unfold commit_state in Hc. rewrite bind_unfold in Hc. simpl in Hc.
    destruct (cls (w_self w)) eqn:Hcls.
    + apply Block_commit_state_result in Hc as (_ & Hj'); [|exact Hj].
      apply commit_state_empty_journal. exact Hj'.
    + inversion Hc; subst. unfold commit_state. rewrite bind_unfold. simpl.
      rewrite Hcls. reflexivity.
Qed.

(** C2. Calling [commit_state] twice in a row is the same as calling it
    once: the same result and the same world, hence the same state root and
    the same caches.  A call on an empty journal changes nothing; a call on a
    non-empty journal that returns has reset the caches and the journal.
    [finalize] ends in [commit_state], so every [commit_state] that directly
    follows a returned [finalize] changes nothing. *)
Theorem commit_state_idempotent (w : world) :
  (commit_state ;; commit_state) w = commit_state w ∧
  (∀ w1 w2, commit_state w = (Ok tt, w1) → commit_state w1 = (Ok tt, w2) →
     root_hash (state (w_self w2)) = root_hash (state (w_self w1)) ∧
     caches (w_self w2) = caches (w_self w1)) ∧
  (journals (w_heap w) !!! journal (w_self w) = [] → commit_state w = (Ok tt, w)) ∧
  (∀ w', cls (w_self w) = ClsBlock →
     journals (w_heap w) !!! journal (w_self w) ≠ [] →
     commit_state w = (Ok tt, w') →
     caches (w_self w') = fresh_caches ∧
     journals (w_heap w') !!! journal (w_self w') = []) ∧
  (∀ w', finalize w = (Ok tt, w') →
     commit_state w' = (Ok tt, w') ∧
     ∀ n, for_each (replicate n tt) (λ _, commit_state) w' = (Ok tt, w')).
Proof.
  split; [|split; [|split; [|split]]].
  - rewrite bind_unfold. destruct (commit_state w) as [[[]|e] w'] eqn:Hc; [|reflexivity].
    apply commit_state_again in Hc. exact Hc.
  - intros w1 w2 H1 H2. apply commit_state_again in H1. rewrite H1 in H2.
    inversion H2; subst. auto.
  - apply commit_state_empty_journal.
  - intros w' Hcls Hj Hc. unfold commit_state in Hc. rewrite bind_unfold in Hc.
    simpl in Hc. rewrite Hcls in Hc.
    eapply Block_commit_state_result; eassumption.
  - intros w' Hf. unfold finalize in Hf.
    apply bind_inv_ok in Hf as (b & w1 & _ & Hf).
    apply bind_inv_ok in Hf as (ok & w2 & _ & Hf).
    apply bind_inv_ok in Hf as (u & w3 & _ & Hf).
    apply commit_state_again in Hf.
    split; [exact Hf|].
    intros n. induction n as [|n IH]; simpl; [reflexivity|].
    erewrite bind_ok by exact Hf. exact IH.
Qed.

End commit.

Lemma commit_state_idempotent_witness :
  finalize (env := ref_env) ref_world = (Ok tt, ref_world_finalized) ∧
  commit_state (env := ref_env) ref_world_finalized = (Ok tt, ref_world_finalized) ∧
  commit_state (env := ref_env) ref_world_balance = (Ok tt, ref_world_balance).
Proof.
  assert (Hr : finalize (env := ref_env) ref_world = (Ok tt, ref_world_finalized))
    by (vm_compute; reflexivity).
  assert (Hj : journals (w_heap ref_world_balance) !!! journal (w_self ref_world_balance) = [])
    by (vm_compute; reflexivity).
  destruct (commit_state_idempotent (env := ref_env) ref_world) as (_ & _ & _ & _ & Hfin).
  destruct (commit_state_idempotent (env := ref_env) ref_world_balance) as (_ & _ & Hempty & _).
  split; [exact Hr|].
  split; [exact (proj1 (Hfin _ Hr))|].
  exact (Hempty Hj).
Defined.

(** ** Cached blocks *)

#[global] Instance cached_pure_preorder : PreOrder cached_pure.
Proof.
  split.
  - intros w _. reflexivity.
  - intros w1 w2 w3 H12 H23 Hc. specialize (H12 Hc). subst w2. apply H23. exact Hc.
Qed.

Section cached.
Context {env : Env}.

Lemma commit_state_cached w :
  cls (w_self w) = ClsCachedBlock → commit_state w = (Ok tt, w).
Proof.
  intros Hc. unfold commit_state. rewrite bind_unfold. simpl. rewrite Hc. reflexivity.
Qed.

Lemma cp_commit_state : preserves cached_pure commit_state.
Proof.
  intros w r w' Hw Hc. rewrite commit_state_cached in Hw by exact Hc.
  inversion Hw; subst. reflexivity.
Qed.

Lemma cp_list_header exclude : preserves cached_pure (list_header exclude).
Proof.
  unfold list_header, getattr_field, get_state_root, get_tx_list_root.
  pres_go; apply cp_commit_state.
Qed.

Lemma list_header_cached w :
  cls (w_self w) = ClsCachedBlock →
  list_header [] w = (Ok (header_fields (w_heap w) (w_self w)), w).
Proof.
  intros Hc.
  assert (Hf : filter (λ nt : string * string, nt.1 ∉ ([] : list string)) block_structure
               = block_structure) by reflexivity.
  unfold list_header. rewrite Hf. unfold block_structure, map_M.
  unfold getattr_field, get_state_root, get_tx_list_root, commit_state.
  unfold mbind, M_bind, mret, M_ret, get_self, read_transactions,
    CachedBlock_commit_state. simpl.
  rewrite Hc. reflexivity.
Qed.

Lemma Block__hash_cached w :
  cls (w_self w) = ClsCachedBlock →
  Block__hash w = (Ok (header_hash (w_heap w) (w_self w)), w).
Proof.
  intros Hc. unfold Block__hash, serialize_header.
  erewrite bind_ok; [reflexivity|].
  erewrite bind_ok by (apply list_header_cached; exact Hc). reflexivity.
Qed.


(** C9, as amended.  On a [CachedBlock], setting an account item, adding a
    transaction to the list, calling [set_state_root] and reverting raise an
    error and leave the block as it was ([TypeError], as the overriding
    methods take no argument; their bodies raise [NotImplemented]);
    [commit_state] raises nothing and does nothing.  The first read of the
    hash computes [sha3] of the serialized header and stores it; a read that
    finds a stored non-empty hash returns it and leaves the block unchanged. *)
Theorem cached_block_rejects (w : world) :
  cls (w_self w) = ClsCachedBlock →
  (∀ a p v, _set_acct_item a p v w = (Raise TypeError, w)) ∧
  (∀ t s g, _add_transaction_to_list t s g w = (Raise TypeError, w)) ∧
  (∀ r, set_state_root r w = (Raise TypeError, w)) ∧
  (∀ s, revert s w = (Raise TypeError, w)) ∧
  CachedBlock_reject 0 w = (Raise (PyException "NotImplemented"), w) ∧
  commit_state w = (Ok tt, w) ∧
  (hash_cached (w_self w) = None →
   let h := sha3 (rlp_encode (rlp_of_header (header_fields (w_heap w) (w_self w)))) in
   let w1 := {| w_heap := w_heap w; w_self := set_hash_cached (Some h) (w_self w) |} in
   serialize_header w = (Ok (rlp_encode (rlp_of_header (header_fields (w_heap w) (w_self w)))), w) ∧
   hash w = (Ok h, w1) ∧
   (h ≠ ""%string → hash w1 = (Ok h, w1))) ∧
  (∀ h, hash_cached (w_self w) = Some h → h ≠ ""%string → hash w = (Ok h, w)).
Proof.
  intros Hc.
  assert (Hmemo : ∀ w' h, cls (w_self w') = ClsCachedBlock →
            hash_cached (w_self w') = Some h → h ≠ ""%string → hash w' = (Ok h, w')).
  { intros w' h Hc' Hm Hne. unfold hash, _hash. rewrite bind_unfold. simpl. rewrite Hc'.
    unfold CachedBlock__hash. rewrite bind_unfold. simpl. rewrite Hm.
    rewrite bool_decide_false by exact Hne. reflexivity. }
  split; [|split; [|split; [|split; [|split; [reflexivity|split; [|split]]]]]].
  - intros a p v. unfold _set_acct_item. rewrite bind_unfold. simpl. rewrite Hc. reflexivity.
  - intros t s g. unfold _add_transaction_to_list. rewrite bind_unfold. simpl.
    rewrite Hc. reflexivity.
  - intros r. unfold set_state_root. rewrite bind_unfold. simpl. rewrite Hc. reflexivity.
  - intros s. unfold revert. rewrite bind_unfold. simpl. rewrite Hc. reflexivity.
  - apply commit_state_cached. exact Hc.
  - intros Hnone h w1. split; [|split].
    + unfold serialize_header.
      erewrite bind_ok by (apply list_header_cached; exact Hc). reflexivity.
    + unfold hash, _hash. rewrite bind_unfold. simpl. rewrite Hc.
      unfold CachedBlock__hash. rewrite bind_unfold. simpl. rewrite Hnone.
      erewrite bind_ok by (apply Block__hash_cached; exact Hc). reflexivity.
    + intros Hne. apply Hmemo; [exact Hc | reflexivity | exact Hne].
  - intros h Hm Hne. apply Hmemo; assumption.
Qed.

End cached.

Lemma cached_block_rejects_witness :
  commit_state (env := ref_env) ref_world_cached = (Ok tt, ref_world_cached) ∧
  revert (mkSnapshot "" 0 1%positive 0 1%positive 1%positive 0 1%positive 0) ref_world_cached =
    (Raise TypeError, ref_world_cached).
Proof.
  destruct (cached_block_rejects (env := ref_env) ref_world_cached eq_refl)
    as (_ & _ & _ & Hrev & _ & Hcommit & _).
  split; [exact Hcommit | apply Hrev].
Defined.

(** C9, as stated, fails: [commit_state] on a [CachedBlock] returns without
    raising. *)
Lemma cached_commit_state_does_not_raise :
  cls (w_self ref_world_cached) = ClsCachedBlock ∧
  ¬ ∃ e w', commit_state (env := ref_env) ref_world_cached = (Raise e, w').
Proof.
  split; [reflexivity|].
  intros (e & w' & He).
  assert (Hc : commit_state (env := ref_env) ref_world_cached = (Ok tt, ref_world_cached))
    by (vm_compute; reflexivity).
  rewrite Hc in He. discriminate.
Qed.

(** ** The Status packet *)

Lemma pbind_ok {A B} (m : PM A) (k : A → PM B) (σ σ' : pworld) (a : A) :
  m σ = (Ok a, σ') → (m ≫= k) σ = k a σ'.
Proof. intros Hm. unfold mbind, PM_bind. rewrite Hm. reflexivity. Qed.

Section status.
Context {env : Env}.

Lemma send_Disconnect_forgets (reason : string) (σ : pworld) :
  reason ∈ reasons_to_forget →
  ∃ σ', send_Disconnect (Some reason) σ = (Ok tt, σ') ∧ disconnected reason σ σ'.
Proof.
  intros Hin. unfold send_Disconnect, send_packet, modify_peer, send_signal.
  unfold mbind, PM_bind. simpl. rewrite bool_decide_true by exact Hin.
  eexists. split; [reflexivity|]. unfold disconnected. simpl. auto.
Qed.

Lemma local_genesis_hash_peer (σ σ1 : pworld) (r : outcome string) :
  local_genesis_hash σ = (r, σ1) →
  pw_peer σ1 = pw_peer σ ∧ pw_signals σ1 = pw_signals σ.
Proof.
  unfold local_genesis_hash, call_blocks. intros Hg. inversion Hg; subst. simpl. auto.
Qed.

(** C8. On a Status packet the peer sends a Disconnect when the packet has
    fewer than five fields, when the Ethereum protocol version differs from
    the local one, when the network id differs, or when the genesis hash
    differs from the hash of the local genesis block; none of these paths
    touches the status attributes.  When all three checks pass it sets
    [status_received], records the head hash and the total difficulty and
    emits [peer_status_received], and no Disconnect is queued. *)
Theorem recv_Status_spec (σ : pworld) (data : list string) :
  ((length data < 5)%nat →
   ∃ σ', _recv_Status data σ = (Ok tt, σ') ∧
         disconnected "Incompatible network protocols" σ σ') ∧
  (∀ d0 d1 d2 d3 d4 rest, data = d0 :: d1 :: d2 :: d3 :: d4 :: rest →
   (idec d0 ≠ ETHEREUM_PROTOCOL_VERSION →
    ∃ σ', _recv_Status data σ = (Ok tt, σ') ∧
          disconnected "Incompatible network protocols" σ σ') ∧
   (idec d0 = ETHEREUM_PROTOCOL_VERSION → idec d1 ≠ NETWORK_ID →
    ∃ σ', _recv_Status data σ = (Ok tt, σ') ∧
          disconnected "Wrong genesis block" σ σ') ∧
   (idec d0 = ETHEREUM_PROTOCOL_VERSION → idec d1 = NETWORK_ID →
    ∀ g σ1, local_genesis_hash σ = (Ok g, σ1) →
      (d4 ≠ g →
       ∃ σ', _recv_Status data σ = (Ok tt, σ') ∧
             disconnected "Wrong genesis block" σ σ') ∧
      (d4 = g →
       ∃ σ', _recv_Status data σ = (Ok tt, σ') ∧
             status_recorded d3 (idec d2) σ σ'))).
Proof.
  assert (Hf1 : ("Incompatible network protocols" : string) ∈ reasons_to_forget)
    by (unfold reasons_to_forget; rewrite !elem_of_cons; auto).
  assert (Hf2 : ("Wrong genesis block" : string) ∈ reasons_to_forget)
    by (unfold reasons_to_forget; rewrite !elem_of_cons; auto).
  split.
  - intros Hlen.
    assert (Hr : _recv_Status data σ =
                 send_Disconnect (Some "Incompatible network protocols"%string) σ).
    { destruct data as [|d0 [|d1 [|d2 [|d3 [|d4 rest]]]]]; try reflexivity.
      simpl in Hlen. lia. }
    rewrite Hr. apply send_Disconnect_forgets. exact Hf1.
  - intros d0 d1 d2 d3 d4 rest ->. unfold _recv_Status. cbv zeta.
    split; [|split].
    + intros Hv. apply Z.eqb_neq in Hv. rewrite Hv. simpl.
      apply send_Disconnect_forgets. exact Hf1.
    + intros Hv Hn. apply Z.eqb_eq in Hv. apply Z.eqb_neq in Hn. rewrite Hv, Hn. simpl.
      apply send_Disconnect_forgets. exact Hf2.
    + intros Hv Hn g σ1 Hg. apply Z.eqb_eq in Hv. apply Z.eqb_eq in Hn.
      rewrite Hv, Hn. simpl.
      destruct (local_genesis_hash_peer _ _ _ Hg) as (Hp & Hs).
      split.
      * intros Hne. erewrite pbind_ok by exact Hg.
        rewrite bool_decide_false by exact Hne. simpl.
        destruct (send_Disconnect_forgets "Wrong genesis block" σ1 Hf2) as (σ' & Hd & Hdis).
        exists σ'. split; [exact Hd|].
        unfold disconnected in *. rewrite <- Hp, <- Hs. exact Hdis.
      * intros Heq. erewrite pbind_ok by exact Hg.
        rewrite bool_decide_true by exact Heq. simpl.
        eexists. split; [reflexivity|].
        unfold status_recorded. simpl. rewrite Hp, Hs. auto.
Qed.

End status.

Lemma recv_Status_spec_witness :
  ∃ σ', _recv_Status (env := ref_env) ref_status ref_peer_world = (Ok tt, σ') ∧
        status_recorded "head" 7 ref_peer_world σ'.
Proof.
  assert (Hg : local_genesis_hash (env := ref_env) ref_peer_world =
               (Ok ref_genesis_hash, (local_genesis_hash (env := ref_env) ref_peer_world).2))
    by (vm_compute; reflexivity).
  destruct (recv_Status_spec (env := ref_env) ref_peer_world ref_status) as (_ & Hfields).
  destruct (Hfields _ _ _ _ _ [] eq_refl) as (_ & _ & Hok).
  destruct (Hok eq_refl eq_refl _ _ Hg) as (_ & Hrec).
  exact (Hrec eq_refl).
Defined.

(** ** Undoing journal entries *)

#[global] Instance keeps_preorder (P : world → Prop) : PreOrder (keeps P).
Proof.
  split.
  - intros w Hw. exact Hw.
  - intros w1 w2 w3 H12 H23 Hw. apply H23, H12, Hw.
Qed.

Lemma preserves_weaken (R1 R2 : relation world) {A} (m : M A) :
  (∀ w w', R1 w w' → R2 w w') → preserves R1 m → preserves R2 m.
Proof. intros HR Hm w r w' Hw. apply HR. eapply Hm. exact Hw. Qed.

Lemma same_contents_refl c : same_contents c c.
Proof. intros name. left. reflexivity. Qed.

Lemma same_contents_trans c1 c2 c3 :
  same_contents c1 c2 → same_contents c2 c3 → same_contents c1 c3.
Proof.
  intros H12 H23 name.
  destruct (H12 name) as [E12|[N1 S2]], (H23 name) as [E23|[N2 S3]].
  - left. congruence.
  - right. split; [congruence|exact S3].
  - right. split; [exact N1|congruence].
  - congruence.
Qed.

Lemma same_contents_create c name :
  c !! name = None → same_contents c (<[name := ∅]> c).
Proof.
  intros Hn name'. destruct (decide (name = name')) as [<-|Hne].
  - right. split; [exact Hn|apply lookup_insert_eq].
  - left. apply lookup_insert_ne. exact Hne.
Qed.

Lemma undo_all_app l1 l2 c :
  undo_all (l1 ++ l2) c = undo_all l1 c ≫= undo_all l2.
Proof.
  revert c. induction l1 as [|e l1 IH]; intros c; simpl; [reflexivity|].
  destruct (undo_caches e c) as [c1|]; simpl; [apply IH|reflexivity].
Qed.

(** Undoing the entry of a write that has just been made gives back the
    caches as they were before the write. *)
Lemma undo_caches_write cache index v m c :
  c !! cache = Some m →
  undo_caches (mkEntry cache index (m !! index) v) (<[cache := <[index := v]> m]> c) = Some c.
Proof.
  intros Hm. unfold undo_caches. simpl. rewrite lookup_insert_eq. simpl.
  destruct (m !! index) as [p|] eqn:Hp.
  - rewrite !insert_insert_eq. rewrite (insert_id m) by exact Hp.
    rewrite insert_id by exact Hm. reflexivity.
  - rewrite lookup_insert_eq. rewrite delete_insert_id by exact Hp.
    rewrite insert_insert_eq. rewrite insert_id by exact Hm. reflexivity.
Qed.

Lemma undo_caches_mono e c c' d :
  same_contents c c' → undo_caches e c = Some d →
  ∃ d', undo_caches e c' = Some d' ∧ same_contents d d'.
Proof.
  intros Hs. unfold undo_caches.
  destruct (c !! e_cache e) as [m|] eqn:Hm; simpl; [|discriminate].
  assert (Hm' : c' !! e_cache e = Some m).
  { destruct (Hs (e_cache e)) as [Heq|[Hn _]]; congruence. }
  rewrite Hm'. simpl.
  assert (Hins : ∀ m', same_contents (<[e_cache e := m']> c) (<[e_cache e := m']> c')).
  { intros m' name. destruct (decide (e_cache e = name)) as [<-|Hne].
    - left. rewrite !lookup_insert_eq. reflexivity.
    - rewrite !lookup_insert_ne by exact Hne. apply Hs. }
  destruct (e_prev e) as [p|].
  - intros Hd. inversion Hd; subst. eexists. split; [reflexivity|apply Hins].
  - destruct (m !! e_index e); [|discriminate].
    intros Hd. inversion Hd; subst. eexists. split; [reflexivity|apply Hins].
Qed.

Lemma undo_all_mono l c c' d :
  same_contents c c' → undo_all l c = Some d →
  ∃ d', undo_all l c' = Some d' ∧ same_contents d d'.
Proof.
  revert c c'. induction l as [|e l IH]; intros c c' Hs; simpl.
  - intros Hd. inversion Hd; subst. eauto.
  - destruct (undo_caches e c) as [c1|] eqn:H1; simpl; [|discriminate].
    destruct (undo_caches_mono e c c' c1 Hs H1) as (c1' & H1' & Hs1).
    rewrite H1'. simpl. apply IH. exact Hs1.
Qed.

Lemma undo_entry_spec e w c' :
  undo_caches e (caches (w_self w)) = Some c' →
  undo_entry e w = (Ok tt, {| w_heap := w_heap w; w_self := set_caches c' (w_self w) |}).
Proof.
  unfold undo_caches, undo_entry. rewrite bind_unfold. simpl.
  destruct (caches (w_self w) !! e_cache e) as [m|]; simpl; [|discriminate].
  destruct (e_prev e) as [p|].
  - intros Hc. inversion Hc; subst. reflexivity.
  - destruct (m !! e_index e); [|discriminate].
    intros Hc. inversion Hc; subst. reflexivity.
Qed.

Lemma set_caches_same b : set_caches (caches b) b = b.
Proof. destruct b; reflexivity. Qed.

Lemma revert_journal_spec (E : list entry) :
  ∀ (fuel : nat) (w : world) (J0 : list entry) c',
    journals (w_heap w) !!! journal (w_self w) = J0 ++ E →
    (length E ≤ fuel)%nat →
    undo_all (rev E) (caches (w_self w)) = Some c' →
    ∃ w', revert_journal fuel (length J0) w = (Ok tt, w') ∧
          w_self w' = set_caches c' (w_self w) ∧
          journals (w_heap w') !!! journal (w_self w) = J0 ∧
          strlists (w_heap w') = strlists (w_heap w) ∧
          queues (w_heap w') = queues (w_heap w) ∧
          tries (w_heap w') = tries (w_heap w).
Proof.
  induction E as [|e E' IH] using rev_ind; intros fuel w J0 c' Hj Hfuel Hundo.
  - simpl in Hundo. inversion Hundo; subst c'. rewrite app_nil_r in Hj.
    exists w. rewrite set_caches_same.
    split; [|auto].
    destruct fuel as [|fuel]; simpl; [reflexivity|].
    erewrite bind_ok by reflexivity. rewrite Hj.
    rewrite bool_decide_false by lia. reflexivity.
  - rewrite length_app in Hfuel. simpl in Hfuel.
    destruct fuel as [|fuel]; [lia|].
    rewrite rev_app_distr in Hundo. simpl in Hundo.
    destruct (undo_caches e (caches (w_self w))) as [c1|] eqn:Hc1; simpl in Hundo;
      [|discriminate].
    set (w1 := {| w_heap := set_journals (insert (journal (w_self w)) (J0 ++ E')) (w_heap w);
                  w_self := set_caches c1 (w_self w) |}).
    destruct (IH fuel w1 J0 c') as (w' & Hr & Hs & Hjs & Hsl & Hq & Ht).
    { simpl. apply lookup_total_insert_eq. }
    { lia. }
    { simpl. exact Hundo. }
    exists w'. split; [|split; [|split; [|auto]]].
    + simpl. erewrite bind_ok by reflexivity. rewrite Hj.
      rewrite bool_decide_true by (rewrite !length_app; simpl; lia).
      rewrite app_assoc, last_snoc, removelast_last.
      erewrite bind_ok by reflexivity.
      erewrite bind_ok; [exact Hr|].
      apply (undo_entry_spec e
               {| w_heap := set_journals (insert (journal (w_self w)) (J0 ++ E')) (w_heap w);
                  w_self := w_self w |}).
      exact Hc1.
    + rewrite Hs. destruct (w_self w); reflexivity.
    + exact Hjs.
Qed.

Lemma revert_suicides_spec (X : list string) :
  ∀ (fuel : nat) (w : world) (S0 : list string),
    strlists (w_heap w) !!! suicides (w_self w) = S0 ++ X →
    (length X ≤ fuel)%nat →
    ∃ w', revert_suicides fuel (length S0) w = (Ok tt, w') ∧
          w_self w' = w_self w ∧
          strlists (w_heap w') !!! suicides (w_self w) = S0 ∧
          journals (w_heap w') = journals (w_heap w) ∧
          queues (w_heap w') = queues (w_heap w) ∧
          tries (w_heap w') = tries (w_heap w).
Proof.
  induction X as [|x X' IH] using rev_ind; intros fuel w S0 Hs Hfuel.
  - rewrite app_nil_r in Hs. exists w. split; [|auto].
    destruct fuel as [|fuel]; simpl; [reflexivity|].
    erewrite bind_ok by reflexivity. rewrite Hs.
    rewrite bool_decide_false by lia. reflexivity.
  - rewrite length_app in Hfuel. simpl in Hfuel.
    destruct fuel as [|fuel]; [lia|].
    set (w1 := {| w_heap := set_strlists (insert (suicides (w_self w)) (S0 ++ X')) (w_heap w);
                  w_self := w_self w |}).
    destruct (IH fuel w1 S0) as (w' & Hr & Hself & Hsl & Hj & Hq & Ht).
    { simpl. apply lookup_total_insert_eq. }
    { lia. }
    exists w'. split; [|auto].
    simpl. erewrite bind_ok by reflexivity. rewrite Hs.
    rewrite bool_decide_true by (rewrite !length_app; simpl; lia).
    rewrite app_assoc, removelast_last.
    erewrite bind_ok by reflexivity. exact Hr.
Qed.

(** ** Mutations keep the journal able to undo them *)

Lemma nothing_pending_empty w :
  nothing_pending w = true → journals (w_heap w) !!! journal (w_self w) = [].
Proof.
  unfold nothing_pending. intros Hp. apply bool_decide_eq_true in Hp.
  destruct (journals (w_heap w) !!! journal (w_self w)); [reflexivity|discriminate].
Qed.

(** What every settled mutation keeps is kept by a settled run, whether it
    runs to its end or stops at an exception. *)
Lemma settled_for_each {env : Env} (P : world → Prop) :
  (∀ mu w r w', run_mutation mu w = (r, w') → mutation_settled mu w = true → P w → P w') →
  ∀ ms w r w',
    for_each ms run_mutation w = (r, w') → commits_settled ms w = true → P w → P w'.
Proof.
  intros Hmu ms. induction ms as [|mu ms IH]; simpl; intros w r w' Hw Hs HP.
  - inversion Hw; subst. exact HP.
  - apply andb_true_iff in Hs as (Hs1 & Hs2).
    rewrite bind_unfold in Hw.
    destruct (run_mutation mu w) as [[[]|e] w1] eqn:Hrun.
    + eapply IH; [exact Hw|exact Hs2|]. eapply Hmu; eassumption.
    + inversion Hw; subst. eapply Hmu; eassumption.
Qed.

Section since_snapshot.
Context {env : Env}.
Variable w0 : world.
Variable lq : loc.

Lemma inv_only_blank_acct w w' : only_blank_acct w w' → (since_snapshot w0 lq) w → (since_snapshot w0 lq) w'.
Proof. intros (ba & dp & ->) Hinv. exact Hinv. Qed.

Lemma inv__get_acct_item address param :
  preserves (keeps (since_snapshot w0 lq)) (_get_acct_item address param).
Proof.
  eapply preserves_weaken; [|apply oba__get_acct_item].
  intros w w' Hoba. exact (inv_only_blank_acct w w' Hoba).
Qed.

Lemma inv_set_and_journal cache index v :
  preserves (keeps (since_snapshot w0 lq)) (set_and_journal cache index v).
Proof.
  intros w r w' Hw Hinv.
  destruct (caches (w_self w) !! cache) as [m|] eqn:Hm.
  - rewrite (set_and_journal_spec cache index v m w Hm) in Hw.
    inversion Hw; subst; clear Hw.
    unfold journalled_write. destruct (py_ne_opt (m !! index) v); [|exact Hinv].
    destruct Hinv as (Hcls & Hj & Hs & (E & c' & HE & Hundo & Hsame) & HX & Hq & Hpq).
    unfold since_snapshot. simpl.
    split; [exact Hcls|]. split; [exact Hj|]. split; [exact Hs|].
    split; [|auto].
    exists (E ++ [mkEntry cache index (m !! index) v]), c'.
    split; [|split; [|exact Hsame]].
    + rewrite Hj, lookup_total_insert_eq, HE, app_assoc. reflexivity.
    + rewrite rev_app_distr. simpl.
      rewrite (undo_caches_write cache index v m _ Hm). simpl. exact Hundo.
  - rewrite (set_and_journal_missing cache index v w Hm) in Hw.
    inversion Hw; subst. exact Hinv.
Qed.

Lemma inv__set_acct_item address param v :
  preserves (keeps (since_snapshot w0 lq)) (_set_acct_item address param v).
Proof.
  unfold _set_acct_item, Block__set_acct_item, CachedBlock__set_acct_item,
    CachedBlock_reject.
  pres_go; apply inv_set_and_journal.
Qed.

Lemma inv__delta_item address param delta :
  preserves (keeps (since_snapshot w0 lq)) (_delta_item address param delta).
Proof.
  unfold _delta_item.
  pres_go; first [ apply inv__get_acct_item | apply inv__set_acct_item ].
Qed.

Lemma inv_set_storage_data address index v :
  preserves (keeps (since_snapshot w0 lq)) (set_storage_data address index v).
Proof.
  intros w r w' Hw Hinv. unfold set_storage_data in Hw.
  rewrite bind_unfold in Hw. simpl in Hw.
  destruct (caches (w_self w) !! ("storage:" +:+ address)) as [m|] eqn:Hm.
  - rewrite bind_unfold in Hw. simpl in Hw.
    eapply inv_set_and_journal; eassumption.
  - assert (Hc : (since_snapshot w0 lq) {| w_heap := w_heap w;
                        w_self := set_caches (<["storage:" +:+ address := ∅]> (caches (w_self w)))
                                    (w_self w) |}).
    { destruct Hinv as (Hcls & Hj & Hs & (E & c' & HE & Hundo & Hsame) & HX & Hq & Hpq).
      unfold since_snapshot. simpl.
      split; [exact Hcls|]. split; [exact Hj|]. split; [exact Hs|].
      split; [|auto].
      destruct (undo_all_mono (rev E) _ _ c' (same_contents_create _ _ Hm) Hundo)
        as (d' & Hundo' & Hsame').
      exists E, d'. split; [exact HE|]. split; [exact Hundo'|].
      eapply same_contents_trans; eassumption. }
    rewrite bind_unfold in Hw. rewrite (bind_unfold (modify_self _)) in Hw. simpl in Hw.
    match type of Hw with
    | context [set_and_journal "all" ?k ?x ?w1] =>
      destruct (set_and_journal "all" k x w1) as [[[]|e] w2] eqn:H1
    end.
    + eapply inv_set_and_journal; [exact Hw|].
      eapply inv_set_and_journal; [exact H1|]. exact Hc.
    + inversion Hw; subst. eapply inv_set_and_journal; [exact H1|]. exact Hc.
Qed.

Lemma inv_suicide address :
  preserves (keeps (since_snapshot w0 lq)) (x ← read_suicides; write_suicides (x ++ [address])).
Proof.
  intros w r w' Hw Hinv. inversion Hw; subst; clear Hw.
  destruct Hinv as (Hcls & Hj & Hs & HE & (X & HX) & Hq & Hpq).
  unfold since_snapshot. simpl.
  split; [exact Hcls|]. split; [exact Hj|]. split; [exact Hs|].
  split; [exact HE|]. split; [|auto].
  exists (X ++ [address]).
  rewrite Hs, lookup_total_insert_eq, HX, app_assoc. reflexivity.
Qed.

Lemma inv_write_postqueue q : preserves (keeps (since_snapshot w0 lq)) (write_postqueue q).
Proof.
  intros w r w' Hw Hinv. inversion Hw; subst; clear Hw.
  destruct Hinv as (Hcls & Hj & Hs & HE & HX & Hq & Hpq).
  unfold since_snapshot. simpl.
  split; [exact Hcls|]. split; [exact Hj|]. split; [exact Hs|].
  split; [exact HE|]. split; [exact HX|]. split; [|exact Hpq].
  rewrite lookup_total_insert_ne by exact Hpq. exact Hq.
Qed.

Lemma inv_write_transactions t : preserves (keeps (since_snapshot w0 lq)) (write_transactions t).
Proof. intros w r w' Hw Hinv. inversion Hw; subst; clear Hw. exact Hinv. Qed.

Lemma inv__add_transaction_to_list tx sr gu :
  preserves (keeps (since_snapshot w0 lq)) (_add_transaction_to_list tx sr gu).
Proof.
  unfold _add_transaction_to_list, Block__add_transaction_to_list,
    CachedBlock__add_transaction_to_list, CachedBlock_reject.
  pres_go; first [ apply inv_write_transactions | pres_prim; intros Hinv; exact Hinv ].
Qed.

(** With nothing pending, the commit that [add_transaction_to_list] and
    [del_account] start with leaves the world as it is. *)
Lemma inv_add_transaction_to_list tx w r w' :
  add_transaction_to_list tx w = (r, w') → nothing_pending w = true →
  since_snapshot w0 lq w → since_snapshot w0 lq w'.
Proof.
  intros Hw Hp Hinv. unfold add_transaction_to_list, get_state_root in Hw. cbv zeta in Hw.
  rewrite bind_assoc in Hw.
  erewrite bind_ok in Hw by (apply commit_state_empty_journal, nothing_pending_empty, Hp).
  rewrite bind_assoc in Hw. erewrite bind_ok in Hw by reflexivity.
  erewrite bind_ok in Hw by reflexivity.
  erewrite bind_ok in Hw by reflexivity.
  eapply inv__add_transaction_to_list; eassumption.
Qed.

Lemma inv_del_account address w r w' :
  del_account address w = (r, w') → nothing_pending w = true →
  since_snapshot w0 lq w → since_snapshot w0 lq w'.
Proof.
  intros Hw Hp Hinv. unfold del_account in Hw.
  erewrite bind_ok in Hw by (apply commit_state_empty_journal, nothing_pending_empty, Hp).
  rewrite decode_hex_if_bind in Hw.
  destruct (bool_decide _); [destruct (hex_decodable address)|];
    inversion Hw; subst; exact Hinv.
Qed.

Lemma inv_set_transactions root :
  preserves (keeps (since_snapshot w0 lq))
    (lt ← alloc_trie (Trie_new root); modify_self (set_transactions lt)).
Proof. intros w r w' Hw Hinv. inversion Hw; subst. exact Hinv. Qed.

Lemma inv_run_mutation mu w r w' :
  run_mutation mu w = (r, w') → mutation_settled mu w = true →
  since_snapshot w0 lq w → since_snapshot w0 lq w'.
Proof.
  destruct mu; simpl; intros Hw Hp.
  - eapply inv_set_and_journal; exact Hw.
  - eapply inv__set_acct_item; exact Hw.
  - revert Hw. generalize w r w'. change (preserves (keeps (since_snapshot w0 lq))
      (_delta_item address param delta ;; mret tt)).
    pres_go. apply inv__delta_item.
  - eapply inv_set_storage_data; exact Hw.
  - eapply inv_suicide; exact Hw.
  - inversion Hw; subst. intros Hinv. exact Hinv.
  - eapply inv__add_transaction_to_list; exact Hw.
  - eapply inv_add_transaction_to_list; eassumption.
  - revert Hw. generalize w r w'. change (preserves (keeps (since_snapshot w0 lq))
      (q ← read_postqueue; write_postqueue (q ++ [m]))).
    pres_go. apply inv_write_postqueue.
  - revert Hw. generalize w r w'. change (preserves (keeps (since_snapshot w0 lq))
      (q ← read_postqueue; match q with [] => raise IndexError | _ :: q' => write_postqueue q' end)).
    pres_go. apply inv_write_postqueue.
  - eapply inv_del_account; eassumption.
  - eapply inv_set_transactions; exact Hw.
Qed.

End since_snapshot.

(** ** Snapshot and revert *)

Section revert.
Context {env : Env}.

Lemma snapshot_spec w0 :
  let lq := fresh (dom (queues (w_heap w0))) in
  snapshot w0 =
    (Ok {| snap_state := root_hash (state (w_self w0));
           snap_gas := gas_used (hdr (w_self w0));
           snap_txs := transactions (w_self w0);
           snap_txcount := transaction_count (w_self w0);
           snap_postqueue := lq;
           snap_suicides := suicides (w_self w0);
           snap_suicides_size := length (strlists (w_heap w0) !!! suicides (w_self w0));
           snap_journal := journal (w_self w0);
           snap_journal_size := length (journals (w_heap w0) !!! journal (w_self w0)) |},
     {| w_heap := set_queues (insert lq (queues (w_heap w0) !!! postqueue (w_self w0)))
                    (w_heap w0);
        w_self := w_self w0 |}).
Proof. reflexivity. Qed.

Lemma since_snapshot_start w0 :
  wf_world w0 → cls (w_self w0) = ClsBlock →
  let lq := fresh (dom (queues (w_heap w0))) in
  since_snapshot w0 lq
    {| w_heap := set_queues (insert lq (queues (w_heap w0) !!! postqueue (w_self w0)))
                   (w_heap w0);
       w_self := w_self w0 |}.
Proof.
  intros (_ & _ & Hq & _) Hcls lq. unfold since_snapshot. simpl.
  split; [exact Hcls|]. split; [reflexivity|]. split; [reflexivity|].
  split.
  { exists [], (caches (w_self w0)). rewrite app_nil_r.
    split; [reflexivity|]. split; [reflexivity|]. apply same_contents_refl. }
  split.
  { exists []. rewrite app_nil_r. reflexivity. }
  split; [apply lookup_total_insert_eq|].
  intros Heq. apply (is_fresh (dom (queues (w_heap w0)))). fold lq. rewrite <- Heq. exact Hq.
Qed.

Lemma Block_revert_spec w0 lq w2 :
  since_snapshot w0 lq w2 →
  ∃ w3,
    Block_revert
      {| snap_state := root_hash (state (w_self w0));
         snap_gas := gas_used (hdr (w_self w0));
         snap_txs := transactions (w_self w0);
         snap_txcount := transaction_count (w_self w0);
         snap_postqueue := lq;
         snap_suicides := suicides (w_self w0);
         snap_suicides_size := length (strlists (w_heap w0) !!! suicides (w_self w0));
         snap_journal := journal (w_self w0);
         snap_journal_size := length (journals (w_heap w0) !!! journal (w_self w0)) |}
      w2 = (Ok tt, w3) ∧
    same_contents (caches (w_self w0)) (caches (w_self w3)) ∧
    journal (w_self w3) = journal (w_self w0) ∧
    journals (w_heap w3) !!! journal (w_self w3) = journals (w_heap w0) !!! journal (w_self w0) ∧
    suicides (w_self w3) = suicides (w_self w0) ∧
    strlists (w_heap w3) !!! suicides (w_self w3) =
      strlists (w_heap w0) !!! suicides (w_self w0) ∧
    root_hash (state (w_self w3)) = root_hash (state (w_self w0)) ∧
    gas_used (hdr (w_self w3)) = gas_used (hdr (w_self w0)) ∧
    transactions (w_self w3) = transactions (w_self w0) ∧
    transaction_count (w_self w3) = transaction_count (w_self w0) ∧
    queues (w_heap w3) !!! postqueue (w_self w3) = queues (w_heap w0) !!! postqueue (w_self w0).
Proof.
  intros (Hcls & Hj & Hs & (E & c' & HE & Hundo & Hsame) & (X & HX) & Hq & Hpq).
  set (J0 := journals (w_heap w0) !!! journal (w_self w0)) in *.
  set (S0 := strlists (w_heap w0) !!! suicides (w_self w0)) in *.
  set (wA := {| w_heap := w_heap w2; w_self := set_journal (journal (w_self w0)) (w_self w2) |}).
  destruct (revert_journal_spec E (length (J0 ++ E)) wA J0 c')
    as (wB & HrB & HselfB & HjB & HslB & HqB & HtB).
  { simpl. exact HE. }
  { rewrite length_app. lia. }
  { simpl. exact Hundo. }
  set (wC := {| w_heap := w_heap wB; w_self := set_suicides (suicides (w_self w0)) (w_self wB) |}).
  destruct (revert_suicides_spec X (length (S0 ++ X)) wC S0)
    as (wD & HrD & HselfD & HslD & HjD & HqD & HtD).
  { simpl. rewrite HslB. simpl. exact HX. }
  { rewrite length_app. lia. }
  eexists. split.
  { unfold Block_revert. simpl.
    erewrite bind_ok by reflexivity.
    erewrite bind_ok by reflexivity.
    simpl. rewrite HE.
    erewrite bind_ok by exact HrB.
    erewrite bind_ok by reflexivity.
    erewrite bind_ok by reflexivity.
    simpl. rewrite HselfB. simpl. rewrite HslB. simpl. rewrite HX.
    erewrite bind_ok.
    2:{ replace {| w_heap := w_heap wB;
                   w_self := set_suicides (suicides (w_self w0))
                               (set_caches c' (set_journal (journal (w_self w0)) (w_self w2))) |}
          with wC by (unfold wC; rewrite HselfB; reflexivity).
        exact HrD. }
    reflexivity. }
  simpl. rewrite HselfD. simpl. rewrite HselfB. simpl.
  split; [exact Hsame|]. split; [reflexivity|].
  split; [rewrite HjD; exact HjB|].
  split; [reflexivity|].
  split; [exact HslD|].
  split; [reflexivity|]. split; [reflexivity|]. split; [reflexivity|].
  split; [reflexivity|].
  rewrite HqD. simpl. rewrite HqB. simpl. exact Hq.
Qed.

(** C1. Take a snapshot [s] of a [Block], then let any sequence of
    journalled cache writes, suicide appends, [gas_used] changes, transaction
    appends and post-queue changes run, up to its end or up to an exception,
    and with them deletions of accounts and assignments of another trie to
    [transactions]; every call in it that commits the state
    ([add_transaction_to_list], [del_account]) is made while no journalled
    write is pending.  Then [revert(s)] returns, and after it: every cache
    that existed at the snapshot has its entries of then, and no cache holds
    an entry written since (a cache that did not exist then has no entry);
    the journal and the suicides list are the lists of then with their
    contents of then; the state root, [gas_used], the transactions trie
    object, the transaction count and the contents of the post-queue are
    those of the snapshot. *)
Theorem revert_restores_snapshot (w0 w1 w2 : world) (s : Snapshot) (ms : list mutation)
    (r : outcome unit) :
  wf_world w0 →
  cls (w_self w0) = ClsBlock →
  snapshot w0 = (Ok s, w1) →
  commits_settled ms w1 = true →
  for_each ms run_mutation w1 = (r, w2) →
  ∃ w3,
    revert s w2 = (Ok tt, w3) ∧
    (∀ name m, caches (w_self w0) !! name = Some m → caches (w_self w3) !! name = Some m) ∧
    (∀ name m, caches (w_self w3) !! name = Some m →
       caches (w_self w0) !! name = Some m ∨ (caches (w_self w0) !! name = None ∧ m = ∅)) ∧
    journal (w_self w3) = journal (w_self w0) ∧
    journals (w_heap w3) !!! journal (w_self w3) = journals (w_heap w0) !!! journal (w_self w0) ∧
    suicides (w_self w3) = suicides (w_self w0) ∧
    strlists (w_heap w3) !!! suicides (w_self w3) =
      strlists (w_heap w0) !!! suicides (w_self w0) ∧
    root_hash (state (w_self w3)) = root_hash (state (w_self w0)) ∧
    gas_used (hdr (w_self w3)) = gas_used (hdr (w_self w0)) ∧
    transactions (w_self w3) = transactions (w_self w0) ∧
    transaction_count (w_self w3) = transaction_count (w_self w0) ∧
    queues (w_heap w3) !!! postqueue (w_self w3) = queues (w_heap w0) !!! postqueue (w_self w0).
Proof.
  intros Hwf Hcls Hsnap Hsettled Hms.
  rewrite snapshot_spec in Hsnap. inversion Hsnap; subst s w1; clear Hsnap.
  pose proof (since_snapshot_start w0 Hwf Hcls) as Hstart. cbv zeta in Hstart.
  assert (Hinv : since_snapshot w0 (fresh (dom (queues (w_heap w0)))) w2).
  { eapply (settled_for_each (since_snapshot w0 _)); [|exact Hms|exact Hsettled|exact Hstart].
    intros mu w r' w'. apply inv_run_mutation. }
  destruct (Block_revert_spec w0 _ w2 Hinv) as (w3 & Hrev & Hsame & Hrest).
  exists w3. split; [|split; [|split; [|exact Hrest]]].
  - unfold revert. rewrite bind_unfold. simpl.
    destruct Hinv as (Hcls2 & _). rewrite Hcls2. exact Hrev.
  - intros name m Hm. destruct (Hsame name) as [Heq|[Hn _]]; congruence.
  - intros name m Hm. destruct (Hsame name) as [Heq|[Hn He]].
    + left. congruence.
    + right. split; [exact Hn|congruence].
Qed.

End revert.

Lemma revert_restores_snapshot_witness :
  gas_used (hdr (w_self ref_world_mutated)) = 7 ∧
  (∃ w3,
     revert ref_snapshot ref_world_mutated = (Ok tt, w3) ∧
     caches (w_self w3) !! "nonce"%string = Some {[ KAddr "aa"%string := VInt 5 ]} ∧
     gas_used (hdr (w_self w3)) = 0) ∧
  root_hash (state (w_self ref_world_settled)) ≠ root_hash (state (w_self ref_world)) ∧
  transactions (w_self ref_world_settled) ≠ transactions (w_self ref_world) ∧
  (∃ w3,
     revert ref_snapshot_settled ref_world_settled = (Ok tt, w3) ∧
     root_hash (state (w_self w3)) = root_hash (state (w_self ref_world)) ∧
     transactions (w_self w3) = transactions (w_self ref_world)).
Proof.
  assert (Hwf : wf_world ref_world_nonce).
  { unfold wf_world. repeat split; apply elem_of_dom; eexists; vm_compute; reflexivity. }
  assert (Hsnap : snapshot ref_world_nonce = (Ok ref_snapshot, (snapshot ref_world_nonce).2))
    by (vm_compute; reflexivity).
  assert (Hms : for_each ref_mutations (run_mutation (env := ref_env))
                  (snapshot ref_world_nonce).2 = (Ok tt, ref_world_mutated))
    by (vm_compute; reflexivity).
  assert (Hset : commits_settled (env := ref_env) ref_mutations (snapshot ref_world_nonce).2 = true)
    by (vm_compute; reflexivity).
  assert (Hwf' : wf_world ref_world).
  { unfold wf_world. repeat split; apply elem_of_dom; eexists; vm_compute; reflexivity. }
  assert (Hsnap' : snapshot ref_world = (Ok ref_snapshot_settled, (snapshot ref_world).2))
    by (vm_compute; reflexivity).
  assert (Hms' : for_each ref_mutations_settled (run_mutation (env := ref_env))
                   (snapshot ref_world).2 = (Ok tt, ref_world_settled))
    by (vm_compute; reflexivity).
  assert (Hset' : commits_settled (env := ref_env) ref_mutations_settled (snapshot ref_world).2 = true)
    by (vm_compute; reflexivity).
  split; [vm_compute; reflexivity|].
  split.
  { destruct (revert_restores_snapshot (env := ref_env) _ _ _ _ _ _ Hwf eq_refl Hsnap Hset Hms)
      as (w3 & Hrev & Hkeep & _ & _ & _ & _ & _ & _ & Hgas & _).
    exists w3. split; [exact Hrev|]. split.
    - apply Hkeep. vm_compute. reflexivity.
    - rewrite Hgas. vm_compute. reflexivity. }
  split; [vm_compute; discriminate|].
  split; [vm_compute; discriminate|].
  destruct (revert_restores_snapshot (env := ref_env) _ _ _ _ _ _ Hwf' eq_refl Hsnap' Hset' Hms')
    as (w3 & Hrev & _ & _ & _ & _ & _ & _ & Hroot & _ & Htx & _).
  exists w3. split; [exact Hrev|]. split; [exact Hroot | exact Htx].
Defined.

(** C1, as stated, fails.  After a snapshot and one storage write, [revert]
    returns with caches that are not those of the snapshot.  And after a
    snapshot, a balance write and [add_transaction_to_list], which commits
    the write, [revert] does not return: it raises [KeyError]. *)
Lemma revert_does_not_restore :
  let r := revert_after (env := ref_env) [MSetStorageData "aa" (KIdx 1) (VInt 5)] ref_world in
  let r' := revert_after (env := ref_env)
              [MSetAcctItem "aa" "balance" (VInt 3); MAddTransactionToList "tx"] ref_world in
  (r.1 = Ok tt ∧ caches (w_self r.2) ≠ caches (w_self ref_world)) ∧
  ((for_each [MSetAcctItem "aa" "balance" (VInt 3); MAddTransactionToList "tx"]
      (run_mutation (env := ref_env)) (snapshot ref_world).2).1 = Ok tt ∧
   r'.1 = Raise KeyError).
Proof.
  cbv zeta. split; [split|split]; try (vm_compute; reflexivity).
  intros Heq.
  apply (f_equal (λ c : gmap string (gmap key value), c !! "storage:aa"%string)) in Heq.
  vm_compute in Heq. discriminate.
Qed.

(** ** Uncles *)

Section uncles.
Context {env : Env}.












End uncles.



(** ** Behaviour at the edges of the properties above *)

(** The sub-cache that [set_storage_data] creates is not journalled: after a
    revert it is still there, empty, and the next storage write to the same
    address finds it and does not mark the address in [all]. *)
Example storage_write_after_revert_not_dirty :
  let r := storage_write_around_revert (env := ref_env) "aa" (KIdx 1) (VInt 5) ref_world in
  r.1 = Ok tt ∧
  caches (w_self r.2) !! "storage:aa"%string = Some {[ KIdx 1 := VInt 5 ]} ∧
  caches (w_self r.2) !! "all"%string = Some ∅.
Proof. vm_compute. auto. Qed.

(** A revert gives back the transactions trie object of the snapshot, which
    is the object that the appended transaction was written to. *)
Example transaction_root_after_revert :
  let r := transaction_around_revert (env := ref_env) (RList []) ref_world in
  r.1 = Ok tt ∧
  transactions (w_self r.2) = transactions (w_self ref_world) ∧
  transaction_count (w_self r.2) = 0 ∧
  root_hash (tries (w_heap r.2) !!! transactions (w_self r.2)) ≠
    root_hash (tries (w_heap ref_world) !!! transactions (w_self ref_world)).
Proof. vm_compute. repeat split. discriminate. Qed.

(** An address that is not a hexadecimal string can be written to, but the
    write cannot be committed: [commit_state] decodes every written address
    from hex. *)
Example commit_state_undecodable_address :
  let r := (set_balance "zz" (VInt 1) ;; commit_state (env := ref_env)) ref_world in
  (set_balance "zz" (VInt 1) ref_world).1 = Ok tt ∧ r.1 = Raise TypeError.
Proof. vm_compute. auto. Qed.

(** Assigning to the property [state_root] of a cached block is not
    rejected. *)
Example state_root_assignment_on_cached :
  let r := assign_state_root (env := ref_env) "other" ref_world_cached in
  r.1 = Ok tt ∧ root_hash (state (w_self r.2)) = "other"%string ∧
  root_hash (state (w_self ref_world_cached)) = "root"%string.
Proof. vm_compute. auto. Qed.

(** A balance change that would succeed on a block is rejected on a cached
    block. *)
Example delta_balance_on_cached :
  (delta_balance (env := ref_env) "aa" 5 ref_world_cached).1 = Raise TypeError.
Proof. vm_compute. reflexivity. Qed.

(** A difficulty of 1 lets every 32-byte nonce pass as long as the digest
    has at most 32 bytes; a zero difficulty raises. *)
Example check_header_pow_zero_difficulty :
  check_header_pow (env := ref_env)
    (<[5%nat := ""%string]> ref_uncle_fields ++ [ref_uncle_nonce]) = Raise ZeroDivisionError.
Proof. vm_compute. reflexivity. Qed.

(** * Further properties *)

(** ** The recurrences *)

Section recurrences.
Context {env : Env}.

(** X1. A parent of positive difficulty gives a child of positive
    difficulty, within one 1024th part of the parent's, and a later child
    timestamp never gives a higher difficulty. *)
Theorem calc_difficulty_bounds (parent : Block) (t1 t2 : Z) :
  0 < difficulty (hdr parent) →
  0 < calc_difficulty parent t1 ∧
  difficulty (hdr parent) - difficulty (hdr parent) / 1024 ≤ calc_difficulty parent t1 ∧
  calc_difficulty parent t1 ≤ difficulty (hdr parent) + difficulty (hdr parent) / 1024 ∧
  (t1 ≤ t2 → calc_difficulty parent t2 ≤ calc_difficulty parent t1).
Proof.
  intros Hd. unfold calc_difficulty, BLOCK_DIFF_FACTOR, DIFF_ADJUSTMENT_CUTOFF.
  cbv zeta.
  set (d := difficulty (hdr parent)) in *. set (tp := timestamp (hdr parent)).
  assert (Hq : 0 ≤ d / 1024 < d) by (split; [apply Z.div_pos; lia|apply Z.div_lt; lia]).
  destruct (Z.ltb_spec (t1 - tp) 5), (Z.ltb_spec (t2 - tp) 5); lia.
Qed.

(** X2. The gas limit of a child is never below 125000; for a parent whose
    gas used is between 0 and its gas limit it is at least the parent's limit
    less its 1024th part (and 1), and at most the larger of 125000 and the
    parent's limit plus its 1024th part. *)
Theorem calc_gaslimit_bounds (parent : Block) :
  125000 ≤ calc_gaslimit parent ∧
  (0 ≤ gas_used (hdr parent) ≤ gas_limit (hdr parent) →
   gas_limit (hdr parent) - gas_limit (hdr parent) / 1024 - 1 ≤ calc_gaslimit parent ∧
   calc_gaslimit parent ≤ Z.max 125000 (gas_limit (hdr parent) + gas_limit (hdr parent) / 1024)).
Proof.
  unfold calc_gaslimit, GASLIMIT_EMA_FACTOR, BLKLIM_FACTOR_NOM, BLKLIM_FACTOR_DEN,
    MIN_GAS_LIMIT.
  cbv zeta. replace (1024 - 1) with 1023 by reflexivity.
  generalize (gas_limit (hdr parent)) (gas_used (hdr parent)). intros gl gu.
  split; [lia|]. intros Hu.
  pose proof (Z.div_mod (gu * 6) 5 ltac:(lia)).
  pose proof (Z.mod_pos_bound (gu * 6) 5 ltac:(lia)).
  pose proof (Z.div_mod (gl * 1023 + gu * 6 / 5) 1024 ltac:(lia)).
  pose proof (Z.mod_pos_bound (gl * 1023 + gu * 6 / 5) 1024 ltac:(lia)).
  pose proof (Z.div_mod gl 1024 ltac:(lia)).
  pose proof (Z.mod_pos_bound gl 1024 ltac:(lia)).
  lia.
Qed.

(** X3. The gas limit follows the gas used: for a parent whose limit is
    at least 125000, the child's limit is not below the parent's when 6/5 of
    the parent's gas used reaches the parent's limit, and not above it when
    6/5 of the gas used stays within the limit; of two parents with the same
    limit, the one that used more gas gives the child the higher limit. *)
Theorem calc_gaslimit_direction (parent parent' : Block) :
  125000 ≤ gas_limit (hdr parent) →
  (gas_limit (hdr parent) ≤ gas_used (hdr parent) * 6 / 5 →
   gas_limit (hdr parent) ≤ calc_gaslimit parent) ∧
  (gas_used (hdr parent) * 6 / 5 ≤ gas_limit (hdr parent) →
   calc_gaslimit parent ≤ gas_limit (hdr parent)) ∧
  (gas_limit (hdr parent') = gas_limit (hdr parent) →
   gas_used (hdr parent) ≤ gas_used (hdr parent') →
   calc_gaslimit parent ≤ calc_gaslimit parent').
Proof.
  unfold calc_gaslimit, GASLIMIT_EMA_FACTOR, BLKLIM_FACTOR_NOM, BLKLIM_FACTOR_DEN,
    MIN_GAS_LIMIT.
  cbv zeta. replace (1024 - 1) with 1023 by reflexivity.
  generalize (gas_limit (hdr parent)) (gas_used (hdr parent))
             (gas_limit (hdr parent')) (gas_used (hdr parent')).
  intros gl gu gl' gu' Hmin.
  split; [|split].
  - intros Hx.
    assert (gl ≤ (gl * 1023 + gu * 6 / 5) / 1024); [|lia].
    apply Z.div_le_lower_bound; lia.
  - intros Hx.
    assert ((gl * 1023 + gu * 6 / 5) / 1024 ≤ gl); [|lia].
    apply Z.div_le_upper_bound; lia.
  - intros -> Hu.
    assert (gu * 6 / 5 ≤ gu' * 6 / 5) by (apply Z.div_le_mono; lia).
    assert ((gl * 1023 + gu * 6 / 5) / 1024 ≤ (gl * 1023 + gu' * 6 / 5) / 1024)
      by (apply Z.div_le_mono; lia).
    lia.
Qed.

End recurrences.

Lemma calc_difficulty_bounds_witness :
  0 < calc_difficulty (w_self ref_world) 1004 ∧
  calc_difficulty (w_self ref_world) 1010 ≤ calc_difficulty (w_self ref_world) 1004.
Proof.
  destruct (calc_difficulty_bounds (w_self ref_world) 1004 1010 eq_refl)
    as (Hpos & _ & _ & Hmono).
  split; [exact Hpos|]. apply Hmono. discriminate.
Defined.

Lemma calc_gaslimit_bounds_witness :
  999023 ≤ calc_gaslimit (w_self ref_world) ∧ calc_gaslimit (w_self ref_world) ≤ 1000976.
Proof.
  destruct (calc_gaslimit_bounds (w_self ref_world)) as (_ & Hb).
  destruct Hb as (Hlo & Hhi).
  - split; discriminate.
  - split; [exact Hlo | exact Hhi].
Defined.

Lemma calc_gaslimit_direction_witness :
  calc_gaslimit (w_self ref_world) ≤ gas_limit (hdr (w_self ref_world)).
Proof.
  destruct (calc_gaslimit_direction (w_self ref_world) (w_self ref_world)) as (_ & Hdown & _).
  - discriminate.
  - apply Hdown. discriminate.
Defined.

(** ** Bounds of the proof-of-work check *)

Lemma big_endian_to_int_bound (s : string) :
  big_endian_to_int s < 256 ^ Z.of_nat (String.length s).
Proof.
  unfold big_endian_to_int.
  assert (Hlen : String.length s = length (list_ascii_of_string s)).
  { induction s as [|c s IH]; simpl; [reflexivity|]. rewrite IH. reflexivity. }
  rewrite Hlen. clear Hlen.
  assert (Hf : ∀ l acc, 0 ≤ acc →
    fold_left (λ acc c, acc * 256 + Z.of_nat (nat_of_ascii c)) l acc
      < (acc + 1) * 256 ^ Z.of_nat (length l)).
  { induction l as [|c l IH]; intros acc Hacc.
    - simpl. lia.
    - cbn [fold_left length]. pose proof (nat_ascii_bounded c) as Hc.
      eapply Z.lt_le_trans; [apply IH; lia|].
      rewrite Nat2Z.inj_succ, Z.pow_succ_r by lia.
      assert (Hp : 0 < 256 ^ Z.of_nat (length l)) by (apply Z.pow_pos_nonneg; lia).
      nia. }
  specialize (Hf (list_ascii_of_string s) 0 ltac:(lia)). lia.
Qed.

Section pow_bounds.
Context {env : Env}.

Lemma check_header_pow_eval (Hn : list string) (nonce' dstr : string) (diff : Z) :
  length Hn = 12%nat →
  Hn !! 5%nat = Some dstr →
  as_int (decoders "int" (RStr dstr)) = Some diff →
  String.length nonce' = 32%nat →
  diff ≠ 0 →
  check_header_pow (Hn ++ [nonce']) =
    Ok (big_endian_to_int (sha3 (sha3 (rlp_encode (rlp_of_header Hn)) +:+ nonce'))
          <? 2 ^ 256 / diff).
Proof.
  intros Hlen Hd Hdiff Hnonce Hnz.
  unfold check_header_pow.
  rewrite last_snoc, removelast_last.
  rewrite bool_decide_true by exact Hnonce. simpl.
  replace (block_structure_rev "difficulty") with (Some (5%nat, "int"%string)) by reflexivity.
  rewrite lookup_app_l by lia. rewrite Hd, Hdiff.
  destruct (Z.eqb_spec diff 0) as [Hz|_]; [contradiction|reflexivity].
Qed.

(** X4. For a header of 13 fields with a 32-byte nonce: no header whose
    difficulty field is above 2^256 (or negative) passes the proof-of-work
    check, and with difficulty 1 every header passes whose digest has at most
    32 bytes. *)
Theorem check_header_pow_extremes (Hn : list string) (nonce' dstr : string) (diff : Z) :
  length Hn = 12%nat →
  Hn !! 5%nat = Some dstr →
  as_int (decoders "int" (RStr dstr)) = Some diff →
  String.length nonce' = 32%nat →
  (2 ^ 256 < diff ∨ diff < 0 → check_header_pow (Hn ++ [nonce']) = Ok false) ∧
  (diff = 1 →
   (String.length (sha3 (sha3 (rlp_encode (rlp_of_header Hn)) +:+ nonce')) ≤ 32)%nat →
   check_header_pow (Hn ++ [nonce']) = Ok true).
Proof.
  intros Hlen Hd Hdiff Hnonce.
  set (h := big_endian_to_int (sha3 (sha3 (rlp_encode (rlp_of_header Hn)) +:+ nonce'))).
  pose proof (big_endian_to_int_nonneg
                (sha3 (sha3 (rlp_encode (rlp_of_header Hn)) +:+ nonce'))) as Hh0.
  fold h in Hh0.
  split.
  - intros Hbig.
    rewrite (check_header_pow_eval Hn nonce' dstr diff Hlen Hd Hdiff Hnonce) by lia.
    fold h. f_equal. apply Z.ltb_ge.
    destruct Hbig as [Hbig|Hneg].
    + rewrite Z.div_small by lia. exact Hh0.
    + pose proof (Z.div_mod (2 ^ 256) diff ltac:(lia)) as Hdm.
      pose proof (Z.mod_neg_bound (2 ^ 256) diff Hneg) as Hmb.
      assert (Hp : 0 < 2 ^ 256) by reflexivity.
      assert (Hq : 2 ^ 256 / diff < 0) by nia.
      lia.
  - intros -> Hdig.
    rewrite (check_header_pow_eval Hn nonce' dstr 1 Hlen Hd Hdiff Hnonce) by lia.
    fold h. f_equal. apply Z.ltb_lt. rewrite Z.div_1_r.
    pose proof (big_endian_to_int_bound
                  (sha3 (sha3 (rlp_encode (rlp_of_header Hn)) +:+ nonce'))) as Hb.
    fold h in Hb.
    eapply Z.lt_le_trans; [exact Hb|].
    change (2 ^ 256) with (256 ^ 32).
    apply Z.pow_le_mono_r; lia.
Qed.

End pow_bounds.

Lemma check_header_pow_extremes_witness :
  check_header_pow (env := ref_env) ref_uncle = Ok true.
Proof.
  destruct (check_header_pow_extremes (env := ref_env) ref_uncle_fields ref_uncle_nonce
              (String (ascii_of_nat 1) EmptyString) 1 eq_refl eq_refl eq_refl eq_refl)
    as (_ & Hone).
  apply Hone; [reflexivity|]. vm_compute. lia.
Defined.

(** ** The header list *)

Lemma map_M_length {A B} (f : A → M B) (l : list A) :
  ∀ w r w', map_M f l w = (Ok r, w') → length r = length l.
Proof.
  induction l as [|x l IH]; intros w r w' Hm; simpl in Hm.
  - inversion Hm; subst. reflexivity.
  - apply bind_inv_ok in Hm as (y & w1 & _ & Hm).
    apply bind_inv_ok in Hm as (ys & w2 & Hys & Hm).
    inversion Hm; subst. simpl. f_equal. eapply IH. exact Hys.
Qed.

Lemma map_M_snoc {A B} (f : A → M B) (l : list A) (x : A) :
  (∀ w, ∃ y, f x w = (Ok y, w)) →
  ∀ w r w', map_M f (l ++ [x]) w = (Ok r, w') →
            map_M f l w = (Ok (removelast r), w') ∧ r ≠ [].
Proof.
  intros Hx. induction l as [|a l IH]; intros w r w' Hm; simpl in Hm.
  - destruct (Hx w) as (y & Hy).
    erewrite bind_ok in Hm by exact Hy. inversion Hm; subst. simpl. auto.
  - apply bind_inv_ok in Hm as (b & w1 & Hb & Hm).
    apply bind_inv_ok in Hm as (ys & w2 & Hys & Hm).
    inversion Hm; subst; clear Hm.
    destruct (IH _ _ _ Hys) as (Hl & Hne).
    assert (Hrl : removelast (b :: ys) = b :: removelast ys).
    { destruct ys; [contradiction|reflexivity]. }
    rewrite Hrl. split; [|discriminate].
    simpl. erewrite bind_ok by exact Hb. erewrite bind_ok by exact Hl. reflexivity.
Qed.

Section header_list.
Context {env : Env}.

(** X5. Whenever [list_header()] returns, it returns 13 fields; from the
    same block, [list_header(exclude=['nonce'])] returns the first 12 of them,
    [serialize_header_without_nonce()] is their encoding, and
    [check_proof_of_work(nonce)] is the proof-of-work check of these 12 fields
    followed by [nonce], which raises [AssertionError] for a nonce that is
    not 32 bytes long. *)
Theorem list_header_without_nonce (w w1 : world) (h : list string) :
  list_header [] w = (Ok h, w1) →
  length h = 13%nat ∧
  list_header ["nonce"%string] w = (Ok (removelast h), w1) ∧
  serialize_header_without_nonce w = (Ok (rlp_encode (rlp_of_header (removelast h))), w1) ∧
  (∀ n, check_proof_of_work n w = (check_header_pow (removelast h ++ [n]), w1)) ∧
  (∀ n, String.length n ≠ 32%nat → check_proof_of_work n w = (Raise AssertionError, w1)).
Proof.
  intros Hh.
  assert (Hlen : length h = 13%nat).
  { unfold list_header in Hh. apply map_M_length in Hh. rewrite Hh. reflexivity. }
  assert (Hex : list_header ["nonce"%string] w = (Ok (removelast h), w1)).
  { unfold list_header in *.
    assert (Hall : filter (λ nt : string * string, nt.1 ∉ ([] : list string)) block_structure
                   = filter (λ nt : string * string, nt.1 ∉ ["nonce"%string]) block_structure
                     ++ [("nonce"%string, "bin"%string)]) by reflexivity.
    rewrite Hall in Hh.
    eapply map_M_snoc in Hh.
    - exact (proj1 Hh).
    - intros w0. eexists. unfold getattr_field. simpl. reflexivity. }
  assert (Hpow : ∀ n, check_proof_of_work n w = (check_header_pow (removelast h ++ [n]), w1)).
  { intros n. unfold check_proof_of_work. erewrite bind_ok by exact Hh.
    destruct h; [discriminate|reflexivity]. }
  split; [exact Hlen|]. split; [exact Hex|]. split; [|split; [exact Hpow|]].
  - unfold serialize_header_without_nonce. erewrite bind_ok by exact Hex. reflexivity.
  - intros n Hn. rewrite Hpow. f_equal. unfold check_header_pow.
    rewrite last_snoc. rewrite bool_decide_false by exact Hn. reflexivity.
Qed.

End header_list.

Lemma list_header_without_nonce_witness :
  length ref_header_list = 13%nat ∧
  check_proof_of_work (env := ref_env) "short" ref_world =
    (Raise AssertionError, (list_header (env := ref_env) [] ref_world).2).
Proof.
  assert (Hh : list_header (env := ref_env) [] ref_world =
               (Ok ref_header_list, (list_header (env := ref_env) [] ref_world).2))
    by (vm_compute; reflexivity).
  destruct (list_header_without_nonce (env := ref_env) _ _ _ Hh) as (Hlen & _ & _ & _ & Hbad).
  split; [exact Hlen|]. apply Hbad. vm_compute. discriminate.
Defined.

(** ** Reading and writing account items *)

Lemma py_eq_refl (v : value) : py_eq v v = true.
Proof.
  unfold py_eq. destruct (as_int v) as [a|].
  - apply Z.eqb_refl.
  - apply bool_decide_eq_true. reflexivity.
Qed.

Lemma journalled_write_lookup cache index v m w :
  caches (w_self w) !! cache = Some m →
  ∃ m', caches (w_self (journalled_write cache index v m w)) !! cache = Some m' ∧
        py_ne_opt (m' !! index) v = false ∧
        (∀ i, i ≠ index → m' !! i = m !! i) ∧
        (∀ c, c ≠ cache →
              caches (w_self (journalled_write cache index v m w)) !! c = caches (w_self w) !! c).
Proof.
  intros Hm. rewrite journalled_write_caches by exact Hm.
  destruct (py_ne_opt (m !! index) v) eqn:Hne.
  - exists (<[index := v]> m). split; [apply lookup_insert_eq|].
    split; [rewrite lookup_insert_eq; simpl; rewrite py_eq_refl; reflexivity|].
    split; [intros i Hi; apply lookup_insert_ne; congruence|].
    intros c Hc. apply lookup_insert_ne. congruence.
  - exists m. split; [apply lookup_insert_eq|]. split; [exact Hne|].
    split; [reflexivity|]. intros c Hc. apply lookup_insert_ne. congruence.
Qed.

Lemma journalled_write_rest cache index v m w :
  state (w_self (journalled_write cache index v m w)) = state (w_self w) ∧
  blank_acct (w_self (journalled_write cache index v m w)) = blank_acct (w_self w) ∧
  proof_mode (w_self (journalled_write cache index v m w)) = proof_mode (w_self w) ∧
  proof_nodes (w_self (journalled_write cache index v m w)) = proof_nodes (w_self w) ∧
  hdr (w_self (journalled_write cache index v m w)) = hdr (w_self w).
Proof. unfold journalled_write. destruct (py_ne_opt (m !! index) v); simpl; auto. Qed.

Section account_items.
Context {env : Env}.

(** X6. Writing a value that a cache already holds changes nothing: two
    successive calls of [set_and_journal] with the same arguments leave the
    block and the journal as one call does, and so do two successive calls
    of [_set_acct_item], whatever they return or raise. *)
Theorem set_and_journal_twice (w : world) (cache : string) (index : key) (v : value)
    (address param : string) :
  (set_and_journal cache index v ;; set_and_journal cache index v) w =
    set_and_journal cache index v w ∧
  (_set_acct_item address param v ;; _set_acct_item address param v) w =
    _set_acct_item address param v w.
Proof.
  assert (Hsj : ∀ c i w0,
    (set_and_journal c i v ;; set_and_journal c i v) w0 = set_and_journal c i v w0).
  { intros c i w0. destruct (caches (w_self w0) !! c) as [m|] eqn:Hm.
    - erewrite bind_ok by (apply set_and_journal_spec; exact Hm).
      rewrite (set_and_journal_spec c i v m w0 Hm).
      destruct (journalled_write_lookup c i v m w0 Hm) as (m' & Hm' & Hne & _).
      rewrite (set_and_journal_spec c i v m' _ Hm').
      f_equal. unfold journalled_write at 1. rewrite Hne. reflexivity.
    - erewrite bind_raise by (apply set_and_journal_missing; exact Hm).
      rewrite set_and_journal_missing by exact Hm. reflexivity. }
  split; [apply Hsj|].
  unfold _set_acct_item. rewrite !bind_unfold. simpl.
  destruct (cls (w_self w)) eqn:Hcls; [|reflexivity].
  unfold Block__set_acct_item.
  destruct (caches (w_self w) !! param) as [mp|] eqn:Hmp.
  2:{ rewrite !bind_unfold. rewrite set_and_journal_missing by exact Hmp. reflexivity. }
  rewrite (bind_unfold (set_and_journal param (KAddr address) v)).
  rewrite (set_and_journal_spec param _ v mp w Hmp).
  destruct (journalled_write_lookup param (KAddr address) v mp w Hmp)
    as (mp' & Hmp' & Hnep & _ & Hother).
  set (w1 := journalled_write param (KAddr address) v mp w) in *.
  destruct (caches (w_self w1) !! "all"%string) as [ma|] eqn:Hma.
  2:{ rewrite set_and_journal_missing by exact Hma. reflexivity. }
  rewrite (set_and_journal_spec "all" _ v ma w1 Hma).
  destruct (journalled_write_lookup "all" (KAddr address) v ma w1 Hma)
    as (ma' & Hma' & Hnea & _ & Hothera).
  set (w2 := journalled_write "all" (KAddr address) v ma w1) in *.
  rewrite bind_unfold. simpl.
  assert (Hc2 : cls (w_self w2) = ClsBlock).
  { unfold w2, w1. rewrite !journalled_write_cls. exact Hcls. }
  rewrite Hc2.
  assert (Hp2 : ∃ mp2, caches (w_self w2) !! param = Some mp2 ∧
                       py_ne_opt (mp2 !! KAddr address) v = false).
  { destruct (decide (param = "all"%string)) as [->|Hpa].
    - exists ma'. auto.
    - exists mp'. rewrite Hothera by exact Hpa. auto. }
  destruct Hp2 as (mp2 & Hmp2 & Hne2).
  rewrite bind_unfold.
  rewrite (set_and_journal_spec param _ v mp2 w2 Hmp2).
  unfold journalled_write at 1. rewrite Hne2.
  rewrite (set_and_journal_spec "all" _ v ma' w2 Hma').
  unfold journalled_write at 1. rewrite Hnea. reflexivity.
Qed.

End account_items.

(** ** Reads of an account *)

Lemma bind_fst_agree {A B} (m : M A) (k : A → M B) (w w' : world) :
  (∀ a w1 w2, (k a w1).1 = (k a w2).1) →
  (m w').1 = (m w).1 → ((m ≫= k) w').1 = ((m ≫= k) w).1.
Proof.
  intros Hk Hm. rewrite !bind_unfold.
  destruct (m w) as [[a|e] w1], (m w') as [[a'|e'] w1']; simpl in *;
    try discriminate; inversion Hm; subst; auto.
Qed.

Lemma map_M_fst_agree {A B} (f : A → M B) (l : list A) :
  (∀ x w1 w2, (f x w1).1 = (f x w2).1) →
  ∀ w1 w2, (map_M f l w1).1 = (map_M f l w2).1.
Proof.
  intros Hf. induction l as [|x l IH]; intros w1 w2; simpl; [reflexivity|].
  apply bind_fst_agree; [|apply Hf].
  intros y u1 u2. apply bind_fst_agree; [|apply IH].
  intros ys v1 v2. reflexivity.
Qed.

Section reads.
Context {env : Env}.

#[global] Instance reads_only_preorder : PreOrder reads_only.
Proof.
  split.
  - intros w. split; reflexivity.
  - intros w1 w2 w3 (H1 & E1) (H2 & E2). split; [etransitivity; eassumption | congruence].
Qed.

Lemma mk_blank_acct_fst w w' :
  blank_acct (w_self w') = blank_acct (w_self w) →
  (mk_blank_acct w').1 = (mk_blank_acct w).1.
Proof.
  intros Hb. unfold mk_blank_acct. rewrite !bind_unfold. simpl. rewrite Hb.
  destruct (blank_acct (w_self w)); reflexivity.
Qed.

Lemma ro_mk_blank_acct : preserves reads_only mk_blank_acct.
Proof.
  intros w r w' Hw. split; [eapply oba_mk_blank_acct; exact Hw|].
  unfold mk_blank_acct in *. rewrite !bind_unfold in *. simpl in *.
  destruct (blank_acct (w_self w)) as [a|] eqn:Hb.
  - inversion Hw; subst. rewrite Hb. reflexivity.
  - inversion Hw; subst. reflexivity.
Qed.

Lemma ro_get_acct address : preserves reads_only (get_acct address).
Proof. unfold get_acct, load_acct. pres_go; try apply ro_mk_blank_acct. Qed.

Lemma ro__get_acct_item address param : preserves reads_only (_get_acct_item address param).
Proof. unfold _get_acct_item. pres_go; apply ro_get_acct. Qed.

Lemma reads_only_fields w w' :
  reads_only w w' →
  caches (w_self w') = caches (w_self w) ∧ state (w_self w') = state (w_self w) ∧
  cls (w_self w') = cls (w_self w) ∧ journal (w_self w') = journal (w_self w) ∧
  journals (w_heap w') = journals (w_heap w) ∧
  proof_mode (w_self w') = proof_mode (w_self w) ∧
  proof_nodes (w_self w') = proof_nodes (w_self w) ∧
  hdr (w_self w') = hdr (w_self w).
Proof. intros ((ba & dp & ->) & _). simpl. repeat split; reflexivity. Qed.

Lemma get_acct_agree address w w' :
  state (w_self w') = state (w_self w) →
  (mk_blank_acct w').1 = (mk_blank_acct w).1 →
  (get_acct address w').1 = (get_acct address w).1.
Proof.
  intros Hs Hb. unfold get_acct. rewrite !decode_hex_if_bind.
  destruct (bool_decide _); [destruct (hex_decodable address); [|reflexivity]|].
  all: apply bind_fst_agree;
    [ intros acct w1 w2; apply map_M_fst_agree; intros [i [n t]] u1 u2;
      rewrite !bind_unfold; unfold lift; destruct (rlp_index acct i); reflexivity
    | unfold load_acct; rewrite !bind_unfold; simpl; rewrite Hs;
      destruct (rlp_truthy _); [reflexivity | exact Hb] ].
Qed.

(** Two worlds in which the account item [(address, param)] reads alike. *)
Lemma _get_acct_item_agree address param w w' :
  state (w_self w') = state (w_self w) →
  (mk_blank_acct w').1 = (mk_blank_acct w).1 →
  (param ≠ "storage"%string →
   (λ m : gmap key value, m !! KAddr address) <$> (caches (w_self w') !! param) =
   (λ m : gmap key value, m !! KAddr address) <$> (caches (w_self w) !! param)) →
  (_get_acct_item address param w').1 = (_get_acct_item address param w).1.
Proof.
  intros Hs Hb Hc. unfold _get_acct_item. rewrite !(bind_unfold get_self). simpl.
  assert (Hmiss : ∀ u u' : world, state (w_self u') = state (w_self u) →
            (mk_blank_acct u').1 = (mk_blank_acct u).1 →
            ((get_acct address ≫= λ acct : list value,
                match acct_structure_rev param with
                | None => raise KeyError
                | Some (i, _) =>
                  match acct !! i with
                  | Some v => mret v
                  | None => raise IndexError
                  end
                end) u').1 =
            ((get_acct address ≫= λ acct : list value,
                match acct_structure_rev param with
                | None => raise KeyError
                | Some (i, _) =>
                  match acct !! i with
                  | Some v => mret v
                  | None => raise IndexError
                  end
                end) u).1).
  { intros u u' Hsu Hbu. apply bind_fst_agree; [|apply get_acct_agree; assumption].
    intros acct w1 w2. destruct (acct_structure_rev param) as [[i t]|]; [|reflexivity].
    destruct (acct !! i); reflexivity. }
  destruct (bool_decide (param ≠ "storage"%string)) eqn:Hp.
  - apply bool_decide_eq_true in Hp. specialize (Hc Hp).
    destruct (caches (w_self w) !! param) as [m|], (caches (w_self w') !! param) as [m'|];
      simpl in Hc; try discriminate.
    + rewrite !bind_unfold. simpl. inversion Hc as [Hl]. rewrite Hl.
      destruct (m !! KAddr address); [reflexivity|]. apply Hmiss; assumption.
    + reflexivity.
  - rewrite !bind_unfold. simpl. apply Hmiss; assumption.
Qed.

End reads.

Section read_back.
Context {env : Env}.

Lemma _set_acct_item_block address param v mp ma w :
  cls (w_self w) = ClsBlock →
  param ≠ "all"%string →
  caches (w_self w) !! param = Some mp →
  caches (w_self w) !! "all"%string = Some ma →
  _set_acct_item address param v w =
    (Ok tt, journalled_write "all" (KAddr address) v ma
              (journalled_write param (KAddr address) v mp w)).
Proof.
  intros Hcls Hp Hmp Hma. unfold _set_acct_item. rewrite bind_unfold. simpl. rewrite Hcls.
  apply Block__set_acct_item_spec; assumption.
Qed.

(** The caches after the two journalled writes of [_set_acct_item]. *)
Lemma set_acct_item_caches address param v mp ma w :
  param ≠ "all"%string →
  caches (w_self w) !! param = Some mp →
  caches (w_self w) !! "all"%string = Some ma →
  let w2 := journalled_write "all" (KAddr address) v ma
              (journalled_write param (KAddr address) v mp w) in
  (∃ mp', caches (w_self w2) !! param = Some mp' ∧
          py_ne_opt (mp' !! KAddr address) v = false ∧
          ∀ i, i ≠ KAddr address → mp' !! i = mp !! i) ∧
  (∃ ma', caches (w_self w2) !! "all"%string = Some ma' ∧
          py_ne_opt (ma' !! KAddr address) v = false ∧
          ∀ i, i ≠ KAddr address → ma' !! i = ma !! i) ∧
  (∀ c, c ≠ param → c ≠ "all"%string → caches (w_self w2) !! c = caches (w_self w) !! c).
Proof.
  intros Hp Hmp Hma w2.
  destruct (journalled_write_lookup param (KAddr address) v mp w Hmp)
    as (mp' & Hmp' & Hnep & Hip & Hother).
  assert (Hma1 : caches (w_self (journalled_write param (KAddr address) v mp w)) !! "all"%string
                 = Some ma) by (rewrite Hother by congruence; exact Hma).
  destruct (journalled_write_lookup "all" (KAddr address) v ma _ Hma1)
    as (ma' & Hma' & Hnea & Hia & Hothera).
  split; [|split].
  - exists mp'. split; [|auto]. unfold w2. rewrite Hothera by exact Hp. exact Hmp'.
  - exists ma'. auto.
  - intros c Hc1 Hc2. unfold w2. rewrite Hothera by exact Hc2. apply Hother. exact Hc1.
Qed.

Lemma py_ne_opt_false (o : option value) (v : value) :
  py_ne_opt o v = false → ∃ v', o = Some v' ∧ py_eq v' v = true.
Proof.
  unfold py_ne_opt. destruct o as [p|]; [|discriminate].
  intros Hn. apply negb_false_iff in Hn. eauto.
Qed.

(** X7. On a [Block], after [_set_acct_item(a, p, v)] for one of the account
    caches [p], [_get_acct_item(a, p)] returns a value equal to [v] and
    changes nothing; every other item, of another account or of another
    cache, reads as it did before the write. *)
Theorem set_acct_item_read_back (w : world) (a p : string) (v : value)
    (mp ma : gmap key value) :
  cls (w_self w) = ClsBlock →
  p ≠ "all"%string → p ≠ "storage"%string →
  caches (w_self w) !! p = Some mp →
  caches (w_self w) !! "all"%string = Some ma →
  ∃ w2,
    _set_acct_item a p v w = (Ok tt, w2) ∧
    (∃ v', _get_acct_item a p w2 = (Ok v', w2) ∧ py_eq v' v = true) ∧
    (∀ a' p', a' ≠ a ∨ (p' ≠ p ∧ p' ≠ "all"%string) →
              (_get_acct_item a' p' w2).1 = (_get_acct_item a' p' w).1).
Proof.
  intros Hcls Hpa Hps Hmp Hma.
  eexists. split; [apply _set_acct_item_block; eassumption|].
  destruct (set_acct_item_caches a p v mp ma w Hpa Hmp Hma)
    as ((mp' & Hmp' & Hnep & Hip) & (ma' & Hma' & Hnea & Hia) & Hother).
  cbv zeta in *.
  set (w2 := journalled_write "all" (KAddr a) v ma (journalled_write p (KAddr a) v mp w)) in *.
  assert (Hrest : state (w_self w2) = state (w_self w) ∧
                  blank_acct (w_self w2) = blank_acct (w_self w)).
  { unfold w2.
    destruct (journalled_write_rest "all" (KAddr a) v ma (journalled_write p (KAddr a) v mp w))
      as (E1 & E2 & _).
    destruct (journalled_write_rest p (KAddr a) v mp w) as (E3 & E4 & _).
    split; congruence. }
  destruct Hrest as (Hst & Hbl).
  split.
  - apply py_ne_opt_false in Hnep as (v' & Hv' & Heq).
    exists v'. split; [|exact Heq].
    eapply _get_acct_item_hit; eassumption.
  - intros a' p' Hne. apply _get_acct_item_agree; [exact Hst | apply mk_blank_acct_fst; exact Hbl |].
    intros _.
    destruct (decide (p' = p)) as [->|Hp'].
    + rewrite Hmp', Hmp. simpl. f_equal. apply Hip.
      destruct Hne as [Hne|[Hne _]]; congruence.
    + destruct (decide (p' = "all"%string)) as [->|Hp''].
      * rewrite Hma', Hma. simpl. f_equal. apply Hia.
        destruct Hne as [Hne|[_ Hne]]; congruence.
      * rewrite Hother by assumption. reflexivity.
Qed.

End read_back.

Lemma set_acct_item_read_back_witness :
  ∃ w2, _set_acct_item "aa" "balance" (VInt 7) ref_world_balance = (Ok tt, w2) ∧
        ∃ v', _get_acct_item (env := ref_env) "aa" "balance" w2 = (Ok v', w2) ∧
              py_eq v' (VInt 7) = true.
Proof.
  destruct (set_acct_item_read_back (env := ref_env) ref_world_balance "aa" "balance" (VInt 7)
              {[ KAddr "aa" := VInt 10 ]} ∅) as (w2 & Hs & Hg & _).
  - vm_compute; reflexivity.
  - discriminate.
  - discriminate.
  - vm_compute; reflexivity.
  - vm_compute; reflexivity.
  - exists w2. split; [exact Hs | exact Hg].
Defined.

(** ** Transfers conserve the balances *)

Section conservation.
Context {env : Env}.

Lemma _delta_item_block_ok a p d w cur w1 c mp ma :
  cls (w_self w) = ClsBlock →
  p ≠ "all"%string →
  caches (w_self w) !! p = Some mp →
  caches (w_self w) !! "all"%string = Some ma →
  _get_acct_item a p w = (Ok cur, w1) → as_int cur = Some c → 0 ≤ c + d →
  ∃ w2 mp',
    _delta_item a p d w = (Ok true, w2) ∧
    cls (w_self w2) = ClsBlock ∧
    caches (w_self w2) !! p = Some mp' ∧
    (∃ v', mp' !! KAddr a = Some v' ∧ as_int v' = Some (c + d)) ∧
    (∀ i, i ≠ KAddr a → mp' !! i = mp !! i) ∧
    is_Some (caches (w_self w2) !! "all"%string) ∧
    state (w_self w2) = state (w_self w) ∧
    (mk_blank_acct w2).1 = (mk_blank_acct w).1.
Proof.
  intros Hcls Hpa Hmp Hma Hget Hcur Hpos.
  pose proof (ro__get_acct_item a p _ _ _ Hget) as Hro.
  pose proof (reads_only_fields _ _ Hro) as (Hc & Hst & Hcl & _).
  destruct Hro as (_ & Hbl).
  assert (Hmp1 : caches (w_self w1) !! p = Some mp) by (rewrite Hc; exact Hmp).
  assert (Hma1 : caches (w_self w1) !! "all"%string = Some ma) by (rewrite Hc; exact Hma).
  destruct (set_acct_item_caches a p (VInt (c + d)) mp ma w1 Hpa Hmp1 Hma1)
    as ((mp' & Hmp' & Hnep & Hip) & (ma' & Hma' & _) & _).
  cbv zeta in *.
  set (w2 := journalled_write "all" (KAddr a) (VInt (c + d)) ma
               (journalled_write p (KAddr a) (VInt (c + d)) mp w1)) in *.
  exists w2, mp'.
  split.
  { unfold _delta_item. erewrite bind_ok by exact Hget. rewrite Hcur.
    assert (Hge : (c + d <? 0) = false) by (apply Z.ltb_ge; exact Hpos).
    rewrite Hge.
    erewrite bind_ok; [reflexivity|].
    apply _set_acct_item_block; try assumption. congruence. }
  split; [unfold w2; rewrite !journalled_write_cls; congruence|].
  split; [exact Hmp'|].
  split.
  { apply py_ne_opt_false in Hnep as (v' & Hv' & Heq).
    exists v'. split; [exact Hv'|]. apply py_eq_int. exact Heq. }
  split; [exact Hip|].
  split; [eauto|].
  destruct (journalled_write_rest "all" (KAddr a) (VInt (c + d)) ma
              (journalled_write p (KAddr a) (VInt (c + d)) mp w1)) as (E1 & E2 & _).
  destruct (journalled_write_rest p (KAddr a) (VInt (c + d)) mp w1) as (E3 & E4 & _).
  fold w2 in E1, E2.
  split; [congruence|].
  rewrite <- Hbl. apply mk_blank_acct_fst. congruence.
Qed.

(** X8. On a [Block] whose receiver has a non-negative balance, a transfer
    of [v] with [0 <= v <= balance(from)] returns [True]; afterwards the
    sender reads [v] less and the receiver [v] more than before (both read
    the old balance when they are the same account), and every other account
    reads the balance it had. *)
Theorem transfer_value_conserves (w w1 w1' : world) (from_addr to_addr : string)
    (v bf bt : Z) (cf ct : value) (mb ma : gmap key value) :
  cls (w_self w) = ClsBlock →
  caches (w_self w) !! "balance"%string = Some mb →
  caches (w_self w) !! "all"%string = Some ma →
  get_balance from_addr w = (Ok cf, w1) → as_int cf = Some bf →
  get_balance to_addr w = (Ok ct, w1') → as_int ct = Some bt →
  0 ≤ v ≤ bf → 0 ≤ bt →
  ∃ w2 vf vt,
    transfer_value from_addr to_addr v w = (Ok true, w2) ∧
    get_balance from_addr w2 = (Ok vf, w2) ∧
    get_balance to_addr w2 = (Ok vt, w2) ∧
    as_int vf = Some (if decide (from_addr = to_addr) then bf else bf - v) ∧
    as_int vt = Some (if decide (from_addr = to_addr) then bt else bt + v) ∧
    (∀ a, a ≠ from_addr → a ≠ to_addr → (get_balance a w2).1 = (get_balance a w).1).
Proof.
  intros Hcls Hmb Hma Hgf Hcf Hgt Hct Hv Hbt.
  unfold get_balance in *.
  assert (Hsame : from_addr = to_addr → bt = bf).
  { intros <-. rewrite Hgf in Hgt. inversion Hgt; subst. congruence. }
  destruct (_delta_item_block_ok from_addr "balance" (- v) w cf w1 bf mb ma)
    as (wd & mbd & Hd & Hclsd & Hmbd & (vd & Hvd & Hvdi) & Hid & (mad & Hmad) & Hstd & Hbld);
    try assumption; try discriminate; try lia.
  (* the balance of the receiver after the debit *)
  assert (Hgt' : ∃ ct' wd1 bt', _get_acct_item to_addr "balance" wd = (Ok ct', wd1) ∧
                   as_int ct' = Some bt' ∧
                   bt' = if decide (from_addr = to_addr) then bf - v else bt).
  { destruct (decide (from_addr = to_addr)) as [<-|Hne].
    - exists vd, wd, (bf - v). split; [|split; [|reflexivity]].
      + eapply _get_acct_item_hit; [discriminate|exact Hmbd|exact Hvd].
      + replace (bf - v) with (bf + - v) by lia. exact Hvdi.
    - assert (Hag : (_get_acct_item to_addr "balance" wd).1 =
                    (_get_acct_item to_addr "balance" w).1).
      { apply _get_acct_item_agree; [exact Hstd|exact Hbld|]. intros _.
        rewrite Hmbd, Hmb. simpl. f_equal. apply Hid. congruence. }
      rewrite Hgt in Hag. simpl in Hag.
      destruct (_get_acct_item to_addr "balance" wd) as [r wd1] eqn:E. simpl in Hag. subst r.
      exists ct, wd1, bt. auto. }
  destruct Hgt' as (ct' & wd1 & bt' & Hgtd & Hct' & Hbt').
  assert (Hpos : 0 ≤ bt' + v).
  { rewrite Hbt'. destruct (decide (from_addr = to_addr)); lia. }
  destruct (_delta_item_block_ok to_addr "balance" v wd ct' wd1 bt' mbd mad)
    as (w2 & mb2 & Hd2 & Hcls2 & Hmb2 & (v2 & Hv2 & Hv2i) & Hi2 & _ & Hst2 & Hbl2);
    try assumption; try discriminate.
  assert (Hf2 : ∃ vf, mb2 !! KAddr from_addr = Some vf ∧
                      as_int vf = Some (if decide (from_addr = to_addr) then bf else bf - v)).
  { destruct (decide (from_addr = to_addr)) as [<-|Hne].
    - exists v2. split; [exact Hv2|]. rewrite Hv2i, Hbt'. f_equal; lia.
    - exists vd. split; [rewrite Hi2 by congruence; exact Hvd|].
      rewrite Hvdi. f_equal; lia. }
  destruct Hf2 as (vf & Hvf & Hvfi).
  exists w2, vf, v2.
  split.
  { unfold transfer_value.
    assert (Hle : (0 <=? v) = true) by (apply Z.leb_le; lia).
    rewrite Hle. simpl. rewrite bind_unfold. simpl.
    unfold delta_balance. erewrite bind_ok by exact Hd. exact Hd2. }
  split; [eapply _get_acct_item_hit; [discriminate|exact Hmb2|exact Hvf]|].
  split; [eapply _get_acct_item_hit; [discriminate|exact Hmb2|exact Hv2]|].
  split; [exact Hvfi|].
  split.
  { rewrite Hv2i, Hbt'. destruct (decide (from_addr = to_addr)) as [Heq|Hne].
    - specialize (Hsame Heq). f_equal; lia.
    - reflexivity. }
  intros a Haf Hat.
  apply _get_acct_item_agree; [congruence|congruence|].
  intros _. rewrite Hmb2, Hmb. simpl. f_equal.
  rewrite Hi2 by congruence. apply Hid. congruence.
Qed.

End conservation.

Lemma transfer_value_conserves_witness :
  ∃ w2, transfer_value (env := ref_env) "aa" "bb" 4 ref_world_balance = (Ok true, w2) ∧
        ∃ vf vt, get_balance (env := ref_env) "aa" w2 = (Ok vf, w2) ∧
                 get_balance (env := ref_env) "bb" w2 = (Ok vt, w2) ∧
                 as_int vf = Some 6 ∧ as_int vt = Some 4.
Proof.
  assert (Hf : get_balance (env := ref_env) "aa" ref_world_balance =
               (Ok (VInt 10), ref_world_balance)) by (vm_compute; reflexivity).
  assert (Ht : get_balance (env := ref_env) "bb" ref_world_balance =
               (Ok (VInt 0), (get_balance (env := ref_env) "bb" ref_world_balance).2))
    by (vm_compute; reflexivity).
  destruct (transfer_value_conserves (env := ref_env) ref_world_balance ref_world_balance
              (get_balance (env := ref_env) "bb" ref_world_balance).2 "aa" "bb" 4 10 0
              (VInt 10) (VInt 0) {[ KAddr "aa" := VInt 10 ]} ∅)
    as (w2 & vf & vt & Hr & Hgf & Hgt & Hvf & Hvt & _).
  - vm_compute; reflexivity.
  - vm_compute; reflexivity.
  - vm_compute; reflexivity.
  - exact Hf.
  - reflexivity.
  - exact Ht.
  - reflexivity.
  - lia.
  - lia.
  - exists w2. split; [exact Hr|]. exists vf, vt. auto.
Defined.

(** ** Storage of an account *)

Lemma storage_key_inj (a a' : string) :
  ("storage:" +:+ a')%string = ("storage:" +:+ a)%string → a' = a.
Proof. simpl. intros H. injection H. auto. Qed.

Lemma storage_key_not_all (a : string) : ("storage:" +:+ a)%string ≠ "all"%string.
Proof. simpl. discriminate. Qed.

Section storage.
Context {env : Env} {reads : TrieReads}.

Lemma get_storage_data_hit a i v w :
  storage_cached (w_self w) a i = Some v → get_storage_data a i w = (Ok v, w).
Proof.
  intros Hc. unfold get_storage_data. rewrite bind_unfold. simpl. rewrite Hc. reflexivity.
Qed.

(** Two worlds in which the storage item [(a, i)] reads alike. *)
Lemma get_storage_data_agree a i w w' :
  state (w_self w') = state (w_self w) →
  (mk_blank_acct w').1 = (mk_blank_acct w).1 →
  proof_mode (w_self w') = proof_mode (w_self w) →
  proof_nodes (w_self w') = proof_nodes (w_self w) →
  storage_cached (w_self w') a i = storage_cached (w_self w) a i →
  (get_storage_data a i w').1 = (get_storage_data a i w).1.
Proof.
  intros Hs Hb Hpm Hpn Hc. unfold get_storage_data.
  rewrite !(bind_unfold get_self). simpl. rewrite Hc.
  destruct (storage_cached (w_self w) a i); [reflexivity|].
  assert (Hag : (_get_acct_item a "storage" w').1 = (_get_acct_item a "storage" w).1).
  { apply _get_acct_item_agree; [exact Hs|exact Hb|]. intros Hne. contradiction. }
  unfold get_storage. rewrite !bind_assoc.
  rewrite (bind_unfold (_get_acct_item a "storage") _ w).
  rewrite (bind_unfold (_get_acct_item a "storage") _ w').
  destruct (_get_acct_item a "storage" w) as [r w1] eqn:E1.
  destruct (_get_acct_item a "storage" w') as [r' w1'] eqn:E1'.
  simpl in Hag. subst r'.
  destruct r as [root|e]; [|reflexivity].
  pose proof (reads_only_fields _ _ (ro__get_acct_item _ _ _ _ _ E1))
    as (_ & _ & _ & _ & _ & Hm1 & Hn1 & _).
  pose proof (reads_only_fields _ _ (ro__get_acct_item _ _ _ _ _ E1'))
    as (_ & _ & _ & _ & _ & Hm1' & Hn1' & _).
  unfold mbind, M_bind, get_self, modify_self. simpl.
  rewrite Hm1, Hn1, Hm1', Hn1', Hpm, Hpn.
  destruct (rlp_truthy _); [|reflexivity].
  destruct (rlp_decode _); reflexivity.
Qed.

Lemma set_storage_data_result a i v ma w :
  caches (w_self w) !! "all"%string = Some ma →
  ∃ w2 ms2,
    set_storage_data a i v w = (Ok tt, w2) ∧
    state (w_self w2) = state (w_self w) ∧
    blank_acct (w_self w2) = blank_acct (w_self w) ∧
    proof_mode (w_self w2) = proof_mode (w_self w) ∧
    proof_nodes (w_self w2) = proof_nodes (w_self w) ∧
    caches (w_self w2) !! ("storage:" +:+ a)%string = Some ms2 ∧
    py_ne_opt (ms2 !! i) v = false ∧
    (∀ i', i' ≠ i → ms2 !! i' = storage_cached (w_self w) a i') ∧
    (∀ c, c ≠ ("storage:" +:+ a)%string → c ≠ "all"%string →
          caches (w_self w2) !! c = caches (w_self w) !! c).
Proof.
  intros Hma. unfold set_storage_data, storage_cached.
  rewrite (bind_unfold get_self). simpl.
  destruct (caches (w_self w) !! ("storage:" +:+ a)%string) as [ms|] eqn:Hms.
  - rewrite bind_unfold. simpl.
    destruct (journalled_write_lookup ("storage:" +:+ a) i v ms w Hms)
      as (ms2 & Hms2 & Hne & Hi & Hother).
    destruct (journalled_write_rest ("storage:" +:+ a) i v ms w) as (E1 & E2 & E3 & E4 & _).
    eexists _, ms2. split; [apply set_and_journal_spec; exact Hms|].
    repeat split; auto.
  - rewrite bind_unfold. rewrite (bind_unfold (modify_self _)). simpl.
    set (wa := {| w_heap := w_heap w;
                  w_self := set_caches (<["storage:" +:+ a := ∅]> (caches (w_self w))) (w_self w) |}).
    assert (Hma1 : caches (w_self wa) !! "all"%string = Some ma).
    { simpl. rewrite lookup_insert_ne by apply storage_key_not_all. exact Hma. }
    rewrite (set_and_journal_spec "all" (KAddr a) (VBool true) ma wa Hma1).
    destruct (journalled_write_lookup "all" (KAddr a) (VBool true) ma wa Hma1)
      as (ma2 & Hma2 & _ & _ & Hother1).
    destruct (journalled_write_rest "all" (KAddr a) (VBool true) ma wa) as (E1 & E2 & E3 & E4 & _).
    set (wb := journalled_write "all" (KAddr a) (VBool true) ma wa) in *.
    assert (Hmsb : caches (w_self wb) !! ("storage:" +:+ a)%string = Some ∅).
    { rewrite Hother1 by apply storage_key_not_all. simpl. apply lookup_insert_eq. }
    destruct (journalled_write_lookup ("storage:" +:+ a) i v ∅ wb Hmsb)
      as (ms2 & Hms2 & Hne & Hi & Hother).
    destruct (journalled_write_rest ("storage:" +:+ a) i v ∅ wb) as (F1 & F2 & F3 & F4 & _).
    eexists _, ms2. split; [apply set_and_journal_spec; exact Hmsb|].
    split; [rewrite F1, E1; reflexivity|].
    split; [rewrite F2, E2; reflexivity|].
    split; [rewrite F3, E3; reflexivity|].
    split; [rewrite F4, E4; reflexivity|].
    split; [exact Hms2|]. split; [exact Hne|].
    split.
    + intros i' Hi'. rewrite Hi by exact Hi'. apply lookup_empty.
    + intros c Hc1 Hc2. rewrite Hother by exact Hc1. rewrite Hother1 by exact Hc2.
      simpl. apply lookup_insert_ne. congruence.
Qed.

(** X9. On a block of either class whose cache [all] exists, after
    [set_storage_data(a, i, v)] a call of [get_storage_data(a, i)] returns a
    value equal to [v] and changes nothing; every other storage item, of the
    same account at another index or of another account, reads as it did
    before the write. *)
Theorem set_storage_data_read_back (w : world) (a : string) (i : key) (v : value)
    (ma : gmap key value) :
  caches (w_self w) !! "all"%string = Some ma →
  ∃ w2,
    set_storage_data a i v w = (Ok tt, w2) ∧
    (∃ v', get_storage_data a i w2 = (Ok v', w2) ∧ py_eq v' v = true) ∧
    (∀ a' i', a' ≠ a ∨ i' ≠ i →
              (get_storage_data a' i' w2).1 = (get_storage_data a' i' w).1).
Proof.
  intros Hma.
  destruct (set_storage_data_result a i v ma w Hma)
    as (w2 & ms2 & Hset & Hst & Hbl & Hpm & Hpn & Hms2 & Hne & Hi & Hother).
  exists w2. split; [exact Hset|]. split.
  - apply py_ne_opt_false in Hne as (v' & Hv' & Heq).
    exists v'. split; [|exact Heq].
    apply get_storage_data_hit. unfold storage_cached. rewrite Hms2. exact Hv'.
  - intros a' i' Hne'.
    apply get_storage_data_agree; try assumption; [apply mk_blank_acct_fst; exact Hbl|].
    destruct (decide (a' = a)) as [->|Ha].
    + destruct Hne' as [Hc|Hi']; [contradiction|].
      unfold storage_cached at 1. rewrite Hms2. apply Hi. exact Hi'.
    + unfold storage_cached. rewrite Hother; [reflexivity| |apply storage_key_not_all].
      intros Heq. apply Ha. apply storage_key_inj. exact Heq.
Qed.

End storage.

Lemma set_storage_data_read_back_witness :
  ∃ w2, set_storage_data "aa" (KIdx 3) (VInt 9) ref_world_cached = (Ok tt, w2) ∧
        ∃ v', get_storage_data (env := ref_env) (reads := ref_reads) "aa" (KIdx 3) w2 = (Ok v', w2) ∧
              py_eq v' (VInt 9) = true.
Proof.
  destruct (set_storage_data_read_back (env := ref_env) (reads := ref_reads)
              ref_world_cached "aa" (KIdx 3) (VInt 9) ∅) as (w2 & Hs & Hg & _).
  - vm_compute; reflexivity.
  - exists w2. split; [exact Hs | exact Hg].
Defined.

(** ** Parents *)

Section parents.
Context {env : Env}.

(** X10. [has_parent()] changes nothing and never raises
    [UnknownParentException]: it returns [True] exactly when [get_parent()]
    returns a block and [False] exactly when [get_parent()] raises
    [UnknownParentException], which is the case for a block of number 0 and
    for a block whose parent hash the store lacks; any other error of the
    load goes through. *)
Theorem has_parent_spec (w : world) :
  (has_parent w).2 = w ∧
  (has_parent w).1 ≠ Raise UnknownParentException ∧
  ((has_parent w).1 = Ok true ↔ ∃ p, (get_parent w).1 = Ok p) ∧
  ((has_parent w).1 = Ok false ↔ (get_parent w).1 = Raise UnknownParentException) ∧
  (number (hdr (w_self w)) = 0 → (has_parent w).1 = Ok false) ∧
  (load_block (prevhash (hdr (w_self w))) = Raise KeyError → (has_parent w).1 = Ok false) ∧
  (∀ e, number (hdr (w_self w)) ≠ 0 → e ≠ KeyError → e ≠ UnknownParentException →
        load_block (prevhash (hdr (w_self w))) = Raise e → (has_parent w).1 = Raise e).
Proof.
  unfold has_parent, get_parent, try_except, get_block.
  rewrite !bind_unfold. simpl.
  destruct (number (hdr (w_self w)) =? 0) eqn:Hn; simpl.
  - apply Z.eqb_eq in Hn.
    repeat split; intros; try discriminate; try congruence;
      try (match goal with H : ∃ _, _ |- _ => destruct H; discriminate end).
  - apply Z.eqb_neq in Hn. rewrite bind_unfold. unfold lift.
    destruct (load_block (prevhash (hdr (w_self w)))) as [b|e]; simpl.
    + repeat split; intros; try discriminate; try congruence; eauto.
    + destruct (bool_decide (e = KeyError)) eqn:He; simpl.
      * apply bool_decide_eq_true in He. subst e.
        repeat split; intros; try discriminate; try congruence;
          try (match goal with H : ∃ _, _ |- _ => destruct H; discriminate end).
      * apply bool_decide_eq_false in He.
        destruct (bool_decide (e = UnknownParentException)) eqn:Hu; simpl.
        -- apply bool_decide_eq_true in Hu. subst e.
           repeat split; intros; try discriminate; try congruence;
             try (match goal with H : ∃ _, _ |- _ => destruct H; discriminate end).
        -- apply bool_decide_eq_false in Hu.
           repeat split; intros; try discriminate; try congruence;
             try (match goal with H : ∃ _, _ |- _ => destruct H; discriminate end).
Qed.

End parents.

Lemma has_parent_spec_witness :
  (has_parent (env := ref_env) ref_world).1 = Ok true ∧
  (has_parent (env := ref_env) {| w_heap := ref_heap; w_self := ref_block "" 0 None |}).1 = Ok false.
Proof.
  split.
  - destruct (has_parent_spec (env := ref_env) ref_world) as (_ & _ & Ht & _).
    apply Ht. eexists. vm_compute. reflexivity.
  - destruct (has_parent_spec (env := ref_env)
                {| w_heap := ref_heap; w_self := ref_block "" 0 None |}) as (_ & _ & _ & _ & Hz & _).
    apply Hz. reflexivity.
Defined.

(** ** Snapshots within snapshots *)

#[global] Instance queues_grow_preorder : PreOrder queues_grow.
Proof.
  split.
  - intros w. split; reflexivity.
  - intros w1 w2 w3 (H1 & D1) (H2 & D2). split; [congruence | set_solver].
Qed.

Ltac qg_prim := pres_prim; unfold queues_grow; simpl; split; [reflexivity | set_solver].

Section queues_grow.
Context {env : Env}.

Lemma qg_only_blank_acct w w' : only_blank_acct w w' → queues_grow w w'.
Proof. intros (ba & dp & ->). split; reflexivity. Qed.

Lemma qg__get_acct_item address param : preserves queues_grow (_get_acct_item address param).
Proof. eapply preserves_weaken; [|apply oba__get_acct_item]. apply qg_only_blank_acct. Qed.

Lemma qg_write_journal j : preserves queues_grow (write_journal j).
Proof. unfold write_journal. pres_go. qg_prim. Qed.

Lemma qg_set_and_journal cache index v : preserves queues_grow (set_and_journal cache index v).
Proof. unfold set_and_journal. pres_go; first [apply qg_write_journal | qg_prim]. Qed.

Lemma qg__set_acct_item address param v : preserves queues_grow (_set_acct_item address param v).
Proof.
  unfold _set_acct_item, Block__set_acct_item, CachedBlock__set_acct_item, CachedBlock_reject.
  pres_go; apply qg_set_and_journal.
Qed.

Lemma qg_write_postqueue q : preserves queues_grow (write_postqueue q).
Proof.
  unfold write_postqueue. pres_go. pres_prim. unfold queues_grow. simpl.
  split; [reflexivity|]. rewrite dom_insert. set_solver.
Qed.

Lemma qg__add_transaction_to_list tx sr gu :
  preserves queues_grow (_add_transaction_to_list tx sr gu).
Proof.
  unfold _add_transaction_to_list, Block__add_transaction_to_list,
    CachedBlock__add_transaction_to_list, CachedBlock_reject, write_transactions.
  pres_go; qg_prim.
Qed.

Lemma qg_mk_blank_acct : preserves queues_grow mk_blank_acct.
Proof. unfold mk_blank_acct. pres_go; qg_prim. Qed.

Lemma qg_commit_fields address l acct : preserves queues_grow (commit_fields address l acct).
Proof.
  revert acct. induction l as [|[i [k typ]] l IH]; intros acct; simpl.
  - pres_go.
  - pres_go; [|apply IH]. unfold commit_field. pres_go; qg_prim.
Qed.

Lemma qg_commit_state : preserves queues_grow commit_state.
Proof.
  unfold commit_state, Block_commit_state, CachedBlock_commit_state, commit_account,
    reset_cache.
  pres_go; first [ apply qg_mk_blank_acct | apply qg_commit_fields | qg_prim ].
Qed.

Lemma qg_run_mutation mu : preserves queues_grow (run_mutation mu).
Proof.
  destruct mu; simpl.
  - apply qg_set_and_journal.
  - apply qg__set_acct_item.
  - unfold _delta_item. pres_go; first [apply qg__get_acct_item | apply qg__set_acct_item].
  - unfold set_storage_data. pres_go; first [apply qg_set_and_journal | qg_prim].
  - unfold write_suicides. pres_go. qg_prim.
  - qg_prim.
  - apply qg__add_transaction_to_list.
  - unfold add_transaction_to_list, get_state_root.
    pres_go; first [apply qg_commit_state | apply qg__add_transaction_to_list].
  - pres_go. apply qg_write_postqueue.
  - pres_go. apply qg_write_postqueue.
  - unfold del_account. pres_go; first [apply qg_commit_state | qg_prim].
  - apply preserves_bind; [apply _| |intros lt; qg_prim].
    intros w r w' Hw. inversion Hw; subst. split; reflexivity.
Qed.

End queues_grow.

Section nested.
Context {env : Env}.

(** A run of [revert] on a world whose journal and suicides list extend
    those that the snapshot measured. *)
Lemma Block_revert_run (s : Snapshot) (w2 : world) (J0 E : list entry) (S0 X : list string) c' :
  journals (w_heap w2) !!! snap_journal s = J0 ++ E →
  length J0 = snap_journal_size s →
  undo_all (rev E) (caches (w_self w2)) = Some c' →
  strlists (w_heap w2) !!! snap_suicides s = S0 ++ X →
  length S0 = snap_suicides_size s →
  ∃ w3,
    Block_revert s w2 = (Ok tt, w3) ∧
    cls (w_self w3) = cls (w_self w2) ∧
    caches (w_self w3) = c' ∧
    journal (w_self w3) = snap_journal s ∧
    suicides (w_self w3) = snap_suicides s ∧
    postqueue (w_self w3) = snap_postqueue s ∧
    transactions (w_self w3) = snap_txs s ∧
    transaction_count (w_self w3) = snap_txcount s ∧
    root_hash (state (w_self w3)) = snap_state s ∧
    gas_used (hdr (w_self w3)) = snap_gas s ∧
    journals (w_heap w3) !!! snap_journal s = J0 ∧
    strlists (w_heap w3) !!! snap_suicides s = S0 ∧
    queues (w_heap w3) = queues (w_heap w2) ∧
    tries (w_heap w3) = tries (w_heap w2).
Proof.
  intros HE HJ0 Hundo HX HS0.
  set (wA := {| w_heap := w_heap w2; w_self := set_journal (snap_journal s) (w_self w2) |}).
  destruct (revert_journal_spec E (length (J0 ++ E)) wA J0 c')
    as (wB & HrB & HselfB & HjB & HslB & HqB & HtB).
  { simpl. exact HE. }
  { rewrite length_app. lia. }
  { simpl. exact Hundo. }
  set (wC := {| w_heap := w_heap wB; w_self := set_suicides (snap_suicides s) (w_self wB) |}).
  destruct (revert_suicides_spec X (length (S0 ++ X)) wC S0)
    as (wD & HrD & HselfD & HslD & HjD & HqD & HtD).
  { simpl. rewrite HslB. simpl. exact HX. }
  { rewrite length_app. lia. }
  eexists. split.
  { unfold Block_revert.
    erewrite bind_ok by reflexivity.
    erewrite bind_ok by reflexivity.
    simpl. rewrite HE. rewrite <- HJ0.
    erewrite bind_ok by exact HrB.
    erewrite bind_ok by reflexivity.
    erewrite bind_ok by reflexivity.
    simpl. rewrite HselfB. simpl. rewrite HslB. simpl. rewrite HX. rewrite <- HS0.
    erewrite bind_ok.
    2:{ replace {| w_heap := w_heap wB;
                   w_self := set_suicides (snap_suicides s)
                               (set_caches c' (set_journal (snap_journal s) (w_self w2))) |}
          with wC by (unfold wC; rewrite HselfB; reflexivity).
        exact HrD. }
    reflexivity. }
  simpl. rewrite HselfD. simpl. rewrite HselfB. simpl.
  repeat split; try reflexivity.
  - rewrite HjD. exact HjB.
  - exact HslD.
  - rewrite HqD. simpl. rewrite HqB. reflexivity.
  - rewrite HtD. simpl. rewrite HtB. reflexivity.
Qed.

End nested.

Lemma dom_insert_here {A} (m : gmap loc A) (l : loc) (x : A) : l ∈ dom (<[l := x]> m).
Proof. apply elem_of_dom. rewrite lookup_insert_eq. eauto. Qed.

Lemma dom_insert_there {A} (m : gmap loc A) (l j : loc) (x : A) :
  j ∈ dom m → j ∈ dom (<[l := x]> m).
Proof. intros Hj. rewrite dom_insert. apply elem_of_union_r. exact Hj. Qed.

Section nested_steps.
Context {env : Env}.

Lemma since_snapshot_start_alloc w0 :
  postqueue (w_self w0) ∈ dom (queues (w_heap w0)) → cls (w_self w0) = ClsBlock →
  let lq := fresh (dom (queues (w_heap w0))) in
  since_snapshot_alloc w0 lq
    {| w_heap := set_queues (insert lq (queues (w_heap w0) !!! postqueue (w_self w0)))
                   (w_heap w0);
       w_self := w_self w0 |}.
Proof.
  intros Hq Hcls lq. split; [|split].
  - unfold since_snapshot. simpl.
    split; [exact Hcls|]. split; [reflexivity|]. split; [reflexivity|].
    split.
    { exists [], (caches (w_self w0)). rewrite app_nil_r.
      split; [reflexivity|]. split; [reflexivity|]. apply same_contents_refl. }
    split.
    { exists []. rewrite app_nil_r. reflexivity. }
    split; [apply lookup_total_insert_eq|].
    intros Heq. apply (is_fresh (dom (queues (w_heap w0)))). fold lq. rewrite <- Heq. exact Hq.
  - simpl. apply dom_insert_here.
  - simpl. apply dom_insert_there. exact Hq.
Qed.

Lemma alloc_run_mutation w0 lq mu w r w' :
  run_mutation mu w = (r, w') → mutation_settled mu w = true →
  since_snapshot_alloc w0 lq w → since_snapshot_alloc w0 lq w'.
Proof.
  intros Hw Hset (Hinv & Hlq & Hpq).
  pose proof (qg_run_mutation mu w r w' Hw) as (Hp & Hd).
  split; [eapply inv_run_mutation; eassumption|].
  split; [apply Hd; exact Hlq|]. rewrite Hp. apply Hd. exact Hpq.
Qed.

Lemma alloc_mutations w0 lq ms w r w' :
  for_each ms run_mutation w = (r, w') → commits_settled ms w = true →
  since_snapshot_alloc w0 lq w → since_snapshot_alloc w0 lq w'.
Proof.
  apply (settled_for_each (since_snapshot_alloc w0 lq)).
  intros mu u r' u'. apply alloc_run_mutation.
Qed.

(** The world right after a snapshot still satisfies what held of an
    enclosing snapshot. *)
Lemma alloc_snapshot w0 lq w :
  since_snapshot_alloc w0 lq w →
  since_snapshot_alloc w0 lq
    {| w_heap := set_queues (insert (fresh (dom (queues (w_heap w))))
                               (queues (w_heap w) !!! postqueue (w_self w))) (w_heap w);
       w_self := w_self w |}.
Proof.
  intros ((Hcls & Hj & Hs & HE & HX & Hq & Hpq) & Hlq & Hp).
  assert (Hne : fresh (dom (queues (w_heap w))) ≠ lq).
  { intros Heq. apply (is_fresh (dom (queues (w_heap w)))). rewrite Heq. exact Hlq. }
  split; [|split].
  - unfold since_snapshot. simpl.
    split; [exact Hcls|]. split; [exact Hj|]. split; [exact Hs|].
    split; [exact HE|]. split; [exact HX|]. split; [|exact Hpq].
    rewrite lookup_total_insert_ne by exact Hne. exact Hq.
  - simpl. apply dom_insert_there. exact Hlq.
  - simpl. apply dom_insert_there. exact Hp.
Qed.

Lemma alloc_try w0 lq ms w r w' :
  run_step (STry ms) w = (r, w') → commits_settled ms (snapshot w).2 = true →
  since_snapshot_alloc w0 lq w → since_snapshot_alloc w0 lq w'.
Proof.
  intros Hw Hset Hinv. simpl in Hw.
  rewrite bind_unfold, snapshot_spec in Hw. rewrite snapshot_spec in Hset.
  cbv zeta in Hw, Hset. simpl in Hset.
  pose proof Hinv as ((Hcls & Hj & Hs & (E0 & c0 & HE0 & Hundo0 & Hsame0) & (X0 & HX0) & Hq0 & Hpq0)
                      & Hlq & Hp).
  pose proof (since_snapshot_start_alloc w Hp Hcls) as Hin. cbv zeta in Hin.
  pose proof (alloc_snapshot w0 lq w Hinv) as Hout.
  set (lq' := fresh (dom (queues (w_heap w)))) in *.
  set (wi := {| w_heap := set_queues (insert lq' (queues (w_heap w) !!! postqueue (w_self w)))
                            (w_heap w);
                w_self := w_self w |}) in *.
  rewrite bind_unfold in Hw.
  destruct (for_each ms run_mutation wi) as [[[]|e] w2] eqn:Hms.
  2:{ inversion Hw; subst. eapply alloc_mutations; eassumption. }
  pose proof (alloc_mutations w0 lq ms _ _ _ Hms Hset Hout) as Hout2.
  pose proof (alloc_mutations w lq' ms _ _ _ Hms Hset Hin) as Hin2.
  destruct Hin2 as ((Hcls2 & Hj2 & Hs2 & (E & c' & HE & Hundo & Hsame) & (X & HX) & Hq2 & Hpq2)
                    & Hlq2 & Hp2).
  destruct Hout2 as ((_ & _ & _ & _ & _ & Hqo & _) & Hlqo & _).
  unfold revert in Hw. rewrite bind_unfold in Hw. simpl in Hw. rewrite Hcls2 in Hw.
  match type of Hw with
  | Block_revert ?s w2 = _ =>
    destruct (Block_revert_run s w2 (journals (w_heap w) !!! journal (w_self w)) E
                (strlists (w_heap w) !!! suicides (w_self w)) X c')
      as (w3 & Hrun & Hc3 & Hca3 & Hj3 & Hs3 & Hp3 & Ht3 & _ & _ & _ & Hjs3 & Hsl3 & Hq3 & _);
      simpl; try assumption; try reflexivity
  end.
  rewrite Hrun in Hw. inversion Hw; subst r w'; clear Hw. simpl in *.
  destruct (undo_all_mono (rev E0) _ _ c0 Hsame Hundo0) as (d & Hundod & Hsamed).
  assert (Hne : lq' ≠ lq).
  { intros Heq. apply (is_fresh (dom (queues (w_heap w)))). fold lq'. rewrite Heq. exact Hlq. }
  split; [|split].
  - unfold since_snapshot.
    split; [congruence|]. split; [congruence|]. split; [congruence|].
    split.
    { exists E0, d. split; [|split].
      - rewrite <- Hj in HE0 |- *. rewrite Hjs3. exact HE0.
      - rewrite Hca3. exact Hundod.
      - eapply same_contents_trans; eassumption. }
    split.
    { exists X0. rewrite <- Hs in HX0 |- *. rewrite Hsl3. exact HX0. }
    split; [rewrite Hq3; exact Hqo|].
    rewrite Hp3. exact Hne.
  - rewrite Hq3. exact Hlqo.
  - rewrite Hp3, Hq3. exact Hlq2.
Qed.

Lemma alloc_run_step w0 lq st w r w' :
  run_step st w = (r, w') → step_settled st w = true →
  since_snapshot_alloc w0 lq w → since_snapshot_alloc w0 lq w'.
Proof.
  destruct st as [mu|ms]; [apply alloc_run_mutation | apply alloc_try].
Qed.

Lemma alloc_steps w0 lq steps :
  ∀ w r w',
    for_each steps run_step w = (r, w') → steps_settled steps w = true →
    since_snapshot_alloc w0 lq w → since_snapshot_alloc w0 lq w'.
Proof.
  induction steps as [|st steps IH]; simpl; intros w r w' Hw Hset Hinv.
  - inversion Hw; subst. exact Hinv.
  - apply andb_true_iff in Hset as (Hs1 & Hs2).
    rewrite bind_unfold in Hw.
    destruct (run_step st w) as [[[]|e] w1] eqn:Hrun.
    + eapply IH; [exact Hw|exact Hs2|]. eapply alloc_run_step; eassumption.
    + inversion Hw; subst. eapply alloc_run_step; eassumption.
Qed.

(** X11. Take a snapshot [s] of a [Block], then let any sequence of steps
    run, up to its end or up to an exception, each step a mutation or an
    attempt that takes its own snapshot, runs mutations and, when they all
    return, reverts to its snapshot; every call that commits the state
    ([add_transaction_to_list], [del_account]) is made while no journalled
    write is pending.  Then [revert(s)] returns, and after it: every cache
    that existed at the snapshot has its entries of then, and a cache that
    did not exist then has no entry; the journal and the suicides list are
    the lists of then with their contents of then; the state root,
    [gas_used], the transactions trie object, the transaction count and the
    contents of the post-queue are those of the snapshot. *)
Theorem nested_revert_restores (w0 w1 w2 : world) (s : Snapshot) (steps : list step)
    (r : outcome unit) :
  wf_world w0 →
  cls (w_self w0) = ClsBlock →
  snapshot w0 = (Ok s, w1) →
  steps_settled steps w1 = true →
  for_each steps run_step w1 = (r, w2) →
  ∃ w3,
    revert s w2 = (Ok tt, w3) ∧
    (∀ name m, caches (w_self w0) !! name = Some m → caches (w_self w3) !! name = Some m) ∧
    (∀ name m, caches (w_self w3) !! name = Some m →
       caches (w_self w0) !! name = Some m ∨ (caches (w_self w0) !! name = None ∧ m = ∅)) ∧
    journal (w_self w3) = journal (w_self w0) ∧
    journals (w_heap w3) !!! journal (w_self w3) = journals (w_heap w0) !!! journal (w_self w0) ∧
    suicides (w_self w3) = suicides (w_self w0) ∧
    strlists (w_heap w3) !!! suicides (w_self w3) =
      strlists (w_heap w0) !!! suicides (w_self w0) ∧
    root_hash (state (w_self w3)) = root_hash (state (w_self w0)) ∧
    gas_used (hdr (w_self w3)) = gas_used (hdr (w_self w0)) ∧
    transactions (w_self w3) = transactions (w_self w0) ∧
    transaction_count (w_self w3) = transaction_count (w_self w0) ∧
    queues (w_heap w3) !!! postqueue (w_self w3) = queues (w_heap w0) !!! postqueue (w_self w0).
Proof.
  intros (_ & _ & Hq & _) Hcls Hsnap Hset Hsteps.
  rewrite snapshot_spec in Hsnap. inversion Hsnap; subst s w1; clear Hsnap.
  pose proof (since_snapshot_start_alloc w0 Hq Hcls) as Hstart. cbv zeta in Hstart.
  assert (Hinv : since_snapshot_alloc w0 (fresh (dom (queues (w_heap w0)))) w2).
  { eapply alloc_steps; [exact Hsteps|exact Hset|exact Hstart]. }
  destruct Hinv as (Hinv & _).
  destruct (Block_revert_spec w0 _ w2 Hinv) as (w3 & Hrev & Hsame & Hrest).
  exists w3. split; [|split; [|split; [|exact Hrest]]].
  - unfold revert. rewrite bind_unfold. simpl.
    destruct Hinv as (Hcls2 & _). rewrite Hcls2. exact Hrev.
  - intros name m Hm. destruct (Hsame name) as [Heq|[Hn _]]; congruence.
  - intros name m Hm. destruct (Hsame name) as [Heq|[Hn He]].
    + left. congruence.
    + right. split; [exact Hn|congruence].
Qed.

End nested_steps.

Lemma nested_revert_restores_witness :
  (∃ w3, revert ref_snapshot ref_world_stepped = (Ok tt, w3) ∧
         gas_used (hdr (w_self w3)) = 0 ∧
         caches (w_self w3) !! "nonce"%string = Some {[ KAddr "aa"%string := VInt 5 ]}) ∧
  root_hash (state (w_self ref_world_stepped_settled)) ≠ root_hash (state (w_self ref_world)) ∧
  (∃ w3, revert ref_snapshot_settled ref_world_stepped_settled = (Ok tt, w3) ∧
         root_hash (state (w_self w3)) = root_hash (state (w_self ref_world))).
Proof.
  assert (Hwf : wf_world ref_world_nonce).
  { unfold wf_world. repeat split; apply elem_of_dom; eexists; vm_compute; reflexivity. }
  assert (Hsnap : snapshot ref_world_nonce = (Ok ref_snapshot, (snapshot ref_world_nonce).2))
    by (vm_compute; reflexivity).
  assert (Hsteps : for_each ref_steps (run_step (env := ref_env))
                     (snapshot ref_world_nonce).2 = (Ok tt, ref_world_stepped))
    by (vm_compute; reflexivity).
  assert (Hset : steps_settled (env := ref_env) ref_steps (snapshot ref_world_nonce).2 = true)
    by (vm_compute; reflexivity).
  assert (Hwf' : wf_world ref_world).
  { unfold wf_world. repeat split; apply elem_of_dom; eexists; vm_compute; reflexivity. }
  assert (Hsnap' : snapshot ref_world = (Ok ref_snapshot_settled, (snapshot ref_world).2))
    by (vm_compute; reflexivity).
  assert (Hsteps' : for_each ref_steps_settled (run_step (env := ref_env))
                      (snapshot ref_world).2 = (Ok tt, ref_world_stepped_settled))
    by (vm_compute; reflexivity).
  assert (Hset' : steps_settled (env := ref_env) ref_steps_settled (snapshot ref_world).2 = true)
    by (vm_compute; reflexivity).
  split.
  { destruct (nested_revert_restores (env := ref_env) _ _ _ _ _ _ Hwf eq_refl Hsnap Hset Hsteps)
      as (w3 & Hrev & Hkeep & _ & _ & _ & _ & _ & _ & Hgas & _).
    exists w3. split; [exact Hrev|]. split.
    - rewrite Hgas. vm_compute. reflexivity.
    - apply Hkeep. vm_compute. reflexivity. }
  split; [vm_compute; discriminate|].
  destruct (nested_revert_restores (env := ref_env) _ _ _ _ _ _ Hwf' eq_refl Hsnap' Hset' Hsteps')
    as (w3 & Hrev & _ & _ & _ & _ & _ & _ & Hroot & _).
  exists w3. split; [exact Hrev | exact Hroot].
Defined.

Section revert_twice.
Context {env : Env}.

(** X12. [revert] installs the snapshot's copy of the post-queue as the
    post-queue of the block, without copying it again: a message appended
    after a first [revert(s)] is appended to the list that [s] holds, so a
    second [revert(s)] returns with that message still in the post-queue. *)
Theorem revert_twice_keeps_append (w0 : world) (m : msg) :
  wf_world w0 →
  cls (w_self w0) = ClsBlock →
  ∃ w3,
    revert_append_revert m w0 = (Ok tt, w3) ∧
    queues (w_heap w3) !!! postqueue (w_self w3) =
      (queues (w_heap w0) !!! postqueue (w_self w0)) ++ [m].
Proof.
  intros (_ & _ & Hq & _) Hcls. unfold revert_append_revert.
  rewrite bind_unfold, snapshot_spec. cbv zeta.
  set (lq := fresh (dom (queues (w_heap w0)))).
  set (q0 := queues (w_heap w0) !!! postqueue (w_self w0)).
  set (wi := {| w_heap := set_queues (insert lq q0) (w_heap w0); w_self := w_self w0 |}).
  match goal with
  | |- context [revert ?s0] => set (s := s0)
  end.
  destruct (Block_revert_run s wi (journals (w_heap w0) !!! journal (w_self w0)) []
              (strlists (w_heap w0) !!! suicides (w_self w0)) [] (caches (w_self w0)))
    as (wa & Hra & Hca & Hcaa & Hja & Hsa & Hpa & _ & _ & _ & _ & Hjsa & Hsla & Hqa & _);
    try (simpl; rewrite ?app_nil_r; reflexivity).
  assert (Hreva : revert s wi = (Ok tt, wa)).
  { unfold revert. rewrite bind_unfold. simpl. rewrite Hcls. exact Hra. }
  erewrite bind_ok by exact Hreva.
  simpl run_mutation.
  set (wb := {| w_heap := set_queues (insert lq (q0 ++ [m])) (w_heap wa); w_self := w_self wa |}).
  assert (Happ : (read_postqueue ≫= λ q, write_postqueue (q ++ [m])) wa = (Ok tt, wb)).
  { unfold read_postqueue, write_postqueue. rewrite !bind_unfold. simpl.
    unfold modify_heap. rewrite Hpa. simpl. rewrite Hqa. simpl.
    rewrite lookup_total_insert_eq. reflexivity. }
  erewrite bind_ok by exact Happ.
  destruct (Block_revert_run s wb (journals (w_heap w0) !!! journal (w_self w0)) []
              (strlists (w_heap w0) !!! suicides (w_self w0)) [] (caches (w_self wb)))
    as (w3 & Hr3 & _ & _ & _ & _ & Hp3 & _ & _ & _ & _ & _ & _ & Hq3 & _);
    try (simpl; rewrite ?app_nil_r; reflexivity).
  { simpl. rewrite app_nil_r. exact Hjsa. }
  { simpl. rewrite app_nil_r. exact Hsla. }
  exists w3. split.
  - unfold revert. rewrite bind_unfold. simpl. rewrite Hca. simpl. rewrite Hcls. exact Hr3.
  - rewrite Hp3, Hq3. simpl. apply lookup_total_insert_eq.
Qed.

End revert_twice.

Lemma revert_twice_keeps_append_witness :
  ∃ w3, revert_append_revert (env := ref_env) "m" ref_world_nonce = (Ok tt, w3) ∧
        queues (w_heap w3) !!! postqueue (w_self w3) = ["m"%string].
Proof.
  assert (Hwf : wf_world ref_world_nonce).
  { unfold wf_world. repeat split; apply elem_of_dom; eexists; vm_compute; reflexivity. }
  destruct (revert_twice_keeps_append (env := ref_env) ref_world_nonce "m" Hwf eq_refl)
    as (w3 & Hr & Hq).
  exists w3. split; [exact Hr|]. etransitivity; [exact Hq|]. vm_compute. reflexivity.
Defined.

(** ** The state root, set and read *)

Section state_root.
Context {env : Env}.

(** X13. On a [Block], [set_state_root(r)] followed by a read of
    [state_root] gives [r] back and the read changes nothing: the setter
    drops every write that was not committed (the caches are the four empty
    ones) and gives the block a new, empty journal list, which is not one of
    the lists that existed before. *)
Theorem set_state_root_read_back (w : world) (r : string) :
  cls (w_self w) = ClsBlock →
  ∃ w1,
    set_state_root r w = (Ok tt, w1) ∧
    get_state_root w1 = (Ok r, w1) ∧
    caches (w_self w1) = fresh_caches ∧
    journals (w_heap w1) !!! journal (w_self w1) = [] ∧
    journal (w_self w1) ∉ dom (journals (w_heap w)).
Proof.
  intros Hcls.
  destruct (set_state_root r w) as [res w1] eqn:Hset.
  unfold set_state_root in Hset. rewrite bind_unfold in Hset. simpl in Hset.
  rewrite Hcls in Hset. unfold Block_set_state_root in Hset.
  rewrite bind_unfold in Hset. simpl in Hset.
  pose proof (reset_cache_result _ _ _ Hset) as (-> & Hc & Hj).
  exists w1. split; [reflexivity|].
  assert (Hroot : root_hash (state (w_self w1)) = r ∧
                  journal (w_self w1) ∉ dom (journals (w_heap w))).
  { unfold reset_cache in Hset. inversion Hset; subst; clear Hset. simpl.
    split; [reflexivity|]. apply is_fresh. }
  destruct Hroot as (Hroot & Hfresh).
  split; [|auto].
  unfold get_state_root.
  erewrite bind_ok by (apply commit_state_empty_journal; exact Hj).
  rewrite bind_unfold. simpl. rewrite Hroot. reflexivity.
Qed.

End state_root.

Lemma set_state_root_read_back_witness :
  ∃ w1, set_state_root "r" ref_world_balance = (Ok tt, w1) ∧
        get_state_root (env := ref_env) w1 = (Ok "r"%string, w1) ∧
        caches (w_self w1) = fresh_caches.
Proof.
  destruct (set_state_root_read_back (env := ref_env) ref_world_balance "r" eq_refl)
    as (w1 & Hs & Hg & Hc & _).
  exists w1. auto.
Defined.

(** ** Construction *)

#[global] Instance committed_pure_preorder : PreOrder committed_pure.
Proof.
  split.
  - intros w _. reflexivity.
  - intros w1 w2 w3 H12 H23 Hj. specialize (H12 Hj). subst w2. apply H23. exact Hj.
Qed.

Section fresh_block.
Context {env : Env}.

Lemma cmp_commit_state : preserves committed_pure commit_state.
Proof.
  intros w r w' Hw Hj. rewrite commit_state_empty_journal in Hw by exact Hj.
  inversion Hw; subst. reflexivity.
Qed.

Lemma cmp_getattr_field name : preserves committed_pure (getattr_field name).
Proof.
  unfold getattr_field, get_state_root, get_tx_list_root. pres_go; apply cmp_commit_state.
Qed.

Lemma cmp_list_header exclude : preserves committed_pure (list_header exclude).
Proof. unfold list_header. pres_go. apply cmp_getattr_field. Qed.

Lemma cmp_Block_init_checks root header :
  preserves committed_pure (Block_init_checks root [] header).
Proof.
  unfold Block_init_checks.
  replace (bool_decide (@nil rlp ≠ [])) with false
    by (symmetry; apply bool_decide_eq_false; tauto).
  pres_go; first [ apply cmp_getattr_field | apply cmp_list_header ].
Qed.

(** The block that the constructor returns when it is given no
    transactions, and the store it leaves. *)
Lemma Block_init_fresh p uh cb sr tr d n mgp gl gu ts ed nc us header w child w' :
  Block_init p uh cb sr tr d n mgp gl gu ts ed nc [] us header w = (Ok child, w') →
  cls child = ClsBlock ∧
  hdr child = {| prevhash := p; uncles_hash := uh; coinbase := cb; difficulty := d;
                 number := n; min_gas_price := mgp; gas_limit := gl; gas_used := gu;
                 timestamp := ts; extra_data := ed; nonce := nc |} ∧
  uncles child = us ∧
  caches child = fresh_caches ∧
  state child = Trie_new sr ∧
  transaction_count child = 0 ∧
  blank_acct child = None ∧
  journals (w_heap w') !!! journal child = [] ∧
  tries (w_heap w') !!! transactions child = Trie_new tr ∧
  wf_world {| w_heap := w_heap w'; w_self := child |} ∧
  Block_init_checks tr [] header {| w_heap := w_heap w'; w_self := child |} =
    (Ok tt, {| w_heap := w_heap w'; w_self := child |}) ∧
  w_self w' = w_self w.
Proof.
  unfold Block_init. intros Hi.
  apply bind_inv_ok in Hi as (ls & w1 & H1 & Hi).
  apply bind_inv_ok in Hi as (lq & w2 & H2 & Hi).
  apply bind_inv_ok in Hi as (lj & w3 & H3 & Hi).
  apply bind_inv_ok in Hi as (lt & w4 & H4 & Hi).
  cbv zeta in Hi.
  apply bind_inv_ok in Hi as ([u b'] & w5 & Hc & Hi).
  inversion Hi; subst child w'; clear Hi. simpl.
  apply call_on_inv in Hc as (w6 & Hc & -> & ->).
  unfold alloc_strlist in H1. inversion H1; subst ls w1; clear H1.
  unfold alloc_queue in H2. inversion H2; subst lq w2; clear H2.
  unfold alloc_journal in H3. inversion H3; subst lj w3; clear H3.
  unfold alloc_trie in H4. inversion H4; subst lt w4; clear H4.
  simpl in Hc.
  pose proof (cmp_Block_init_checks tr header _ _ _ Hc) as Hpure.
  rewrite Hpure in * by (simpl; apply lookup_total_insert_eq).
  simpl. destruct u.
  repeat split; try reflexivity; try (apply lookup_total_insert_eq);
    try (simpl; apply dom_insert_here).
  exact Hc.
Qed.

End fresh_block.

Section genesis.
Context {env : Env}.

(** The allocation loop of [genesis] on a block whose balance cache has none
    of the addresses. *)
Lemma genesis_alloc_loop (alloc : list (string * Z)) :
  ∀ w mb ma,
    cls (w_self w) = ClsBlock →
    caches (w_self w) !! "balance"%string = Some mb →
    caches (w_self w) !! "all"%string = Some ma →
    NoDup alloc.*1 →
    (∀ a, a ∈ alloc.*1 → mb !! KAddr a = None) →
    ∃ w' mb',
      for_each alloc (λ ab, set_balance ab.1 (VInt ab.2)) w = (Ok tt, w') ∧
      cls (w_self w') = ClsBlock ∧
      hdr (w_self w') = hdr (w_self w) ∧
      state (w_self w') = state (w_self w) ∧
      caches (w_self w') !! "balance"%string = Some mb' ∧
      (∀ a bal, (a, bal) ∈ alloc → mb' !! KAddr a = Some (VInt bal)) ∧
      (∀ a, a ∉ alloc.*1 → mb' !! KAddr a = mb !! KAddr a).
Proof.
  induction alloc as [|[a bal] alloc IH]; intros w mb ma Hcls Hmb Hma Hnd Hnew.
  - exists w, mb. simpl. repeat split; auto. intros a bal Hin. inversion Hin.
  - simpl in Hnd. apply NoDup_cons in Hnd as (Hnotin & Hnd).
    assert (Hnone : mb !! KAddr a = None) by (apply Hnew; simpl; left).
    set (w1 := journalled_write "all" (KAddr a) (VInt bal) ma
                 (journalled_write "balance" (KAddr a) (VInt bal) mb w)).
    assert (Hset : set_balance a (VInt bal) w = (Ok tt, w1)).
    { unfold set_balance. apply _set_acct_item_block; try assumption. discriminate. }
    assert (Hmb1 : caches (w_self w1) !! "balance"%string = Some (<[KAddr a := VInt bal]> mb)).
    { unfold w1. rewrite journalled_write_caches.
      - rewrite lookup_insert_ne by discriminate.
        rewrite journalled_write_caches by exact Hmb.
        rewrite lookup_insert_eq. rewrite Hnone. reflexivity.
      - rewrite journalled_write_caches by exact Hmb.
        rewrite lookup_insert_ne by discriminate. exact Hma. }
    assert (Hma1 : is_Some (caches (w_self w1) !! "all"%string)).
    { unfold w1. rewrite journalled_write_caches.
      - rewrite lookup_insert_eq. eauto.
      - rewrite journalled_write_caches by exact Hmb.
        rewrite lookup_insert_ne by discriminate. exact Hma. }
    destruct Hma1 as (ma1 & Hma1).
    destruct (journalled_write_rest "all" (KAddr a) (VInt bal) ma
                (journalled_write "balance" (KAddr a) (VInt bal) mb w)) as (E1 & _ & _ & _ & E2).
    destruct (journalled_write_rest "balance" (KAddr a) (VInt bal) mb w) as (E3 & _ & _ & _ & E4).
    fold w1 in E1, E2.
    destruct (IH w1 (<[KAddr a := VInt bal]> mb) ma1) as (w' & mb' & Hrun & Hc' & Hh' & Hs' & Hmb' & Hin' & Hout');
      try assumption.
    { unfold w1. rewrite !journalled_write_cls. exact Hcls. }
    { intros a' Ha'. rewrite lookup_insert_ne.
      - apply Hnew. simpl. right. exact Ha'.
      - intros Heq. inversion Heq; subst. contradiction. }
    exists w', mb'. split.
    { simpl. erewrite bind_ok by exact Hset. exact Hrun. }
    split; [exact Hc'|]. split; [congruence|]. split; [congruence|].
    split; [exact Hmb'|]. split.
    + intros a' bal' Hin. apply elem_of_cons in Hin as [Heq|Hin].
      * inversion Heq; subst. rewrite Hout' by exact Hnotin. apply lookup_insert_eq.
      * apply Hin'. exact Hin.
    + intros a' Ha'. simpl in Ha'. apply not_elem_of_cons in Ha' as (Hne & Ha').
      rewrite Hout' by exact Ha'. apply lookup_insert_ne. congruence.
Qed.

(** X14. The block that [genesis(start_alloc, difficulty)] returns is a
    [Block] of number 0 with the genesis parent hash, nonce, coinbase and gas
    limit and the given difficulty, so [is_genesis()] holds and
    [get_parent()] raises [UnknownParentException].  Its state root is still
    the blank root: the allocation is held by the balance cache, where
    [get_balance] finds, for every address of the allocation, exactly the
    allocated amount. *)
Theorem genesis_spec (start_alloc : list (string * Z)) (difficulty' : Z)
    (w w' : world) (g : Block) :
  NoDup start_alloc.*1 →
  genesis start_alloc difficulty' w = (Ok g, w') →
  let wg := {| w_heap := w_heap w'; w_self := g |} in
  cls g = ClsBlock ∧
  number (hdr g) = 0 ∧
  difficulty (hdr g) = difficulty' ∧
  prevhash (hdr g) = GENESIS_PREVHASH ∧
  nonce (hdr g) = GENESIS_NONCE ∧
  coinbase (hdr g) = GENESIS_COINBASE ∧
  gas_limit (hdr g) = GENESIS_GAS_LIMIT ∧
  is_genesis g = true ∧
  get_parent wg = (Raise UnknownParentException, wg) ∧
  root_hash (state g) = BLANK_ROOT ∧
  (∀ a bal, (a, bal) ∈ start_alloc → get_balance a wg = (Ok (VInt bal), wg)).
Proof.
  intros Hnd Hg wg. unfold genesis in Hg.
  apply bind_inv_ok in Hg as (b0 & w1 & Hinit & Hg).
  apply bind_inv_ok in Hg as ([u g'] & w2 & Hloop & Hg).
  inversion Hg; subst g' w2; clear Hg.
  apply call_on_inv in Hloop as (w3 & Hloop & Hgeq & Hw').
  pose proof (Block_init_fresh _ _ _ _ _ _ _ _ _ _ _ _ _ _ _ _ _ _ Hinit)
    as (Hcls & Hhdr & _ & Hcaches & Hstate & _).
  destruct (genesis_alloc_loop start_alloc {| w_heap := w_heap w1; w_self := b0 |} ∅ ∅)
    as (w3' & mb' & Hrun & Hc' & Hh' & Hs' & Hmb' & Hin' & _); simpl; try assumption.
  { rewrite Hcaches. reflexivity. }
  { rewrite Hcaches. reflexivity. }
  { intros a _. apply lookup_empty. }
  rewrite Hrun in Hloop. inversion Hloop; subst w3'; clear Hloop.
  assert (Hwg : wg = w3).
  { unfold wg. rewrite Hw', Hgeq. simpl. destruct w3; reflexivity. }
  rewrite Hwg. rewrite Hgeq. simpl in Hh', Hs'.
  rewrite Hh', Hs', Hhdr, Hstate. simpl.
  split; [exact Hc'|].
  repeat split; try reflexivity.
  - unfold is_genesis. rewrite Hh', Hhdr. simpl.
    rewrite !bool_decide_true by reflexivity. reflexivity.
  - unfold get_parent. rewrite bind_unfold. simpl. rewrite Hh', Hhdr. reflexivity.
  - intros a bal Hin. unfold get_balance.
    eapply _get_acct_item_hit; [discriminate|exact Hmb'|]. apply Hin'. exact Hin.
Qed.

End genesis.

Lemma genesis_spec_witness :
  is_genesis (env := ref_env) ref_genesis = true ∧ number (hdr ref_genesis) = 0.
Proof.
  assert (Hnd : NoDup GENESIS_INITIAL_ALLOC.*1).
  { apply (bool_decide_unpack _). vm_compute. exact I. }
  assert (Hg : genesis (env := ref_env) GENESIS_INITIAL_ALLOC INITIAL_DIFFICULTY ref_world =
               (Ok ref_genesis,
                (genesis (env := ref_env) GENESIS_INITIAL_ALLOC INITIAL_DIFFICULTY ref_world).2))
    by (vm_compute; reflexivity).
  destruct (genesis_spec (env := ref_env) _ _ _ _ _ Hnd Hg)
    as (_ & Hn & _ & _ & _ & _ & _ & Hgen & _).
  split; [exact Hgen | exact Hn].
Defined.

Section child.
Context {env : Env}.

(** X15. The block that [init_from_parent] returns is a [Block] whose
    parent hash is the hash of the parent, whose number is the parent's plus
    one, with the given coinbase, extra data, timestamp and uncles, an empty
    nonce, the four empty caches and no transaction.  Its state root reads as
    the state root of the parent (which reading the parent's hash has
    committed), its transaction list root as the blank root, and
    [get_parent()] on it loads the block stored under the parent's hash. *)
Theorem init_from_parent_child (w w' : world) (coinbase' extra_data' : string)
    (timestamp' : Z) (uncles' : list (list string)) (child : Block) :
  init_from_parent coinbase' extra_data' timestamp' uncles' w = (Ok child, w') →
  ∃ h w1,
    hash w = (Ok h, w1) ∧
    w_self w' = w_self w1 ∧
    let wc := {| w_heap := w_heap w'; w_self := child |} in
    cls child = ClsBlock ∧
    prevhash (hdr child) = h ∧
    number (hdr child) = number (hdr (w_self w)) + 1 ∧
    coinbase (hdr child) = coinbase' ∧
    extra_data (hdr child) = extra_data' ∧
    timestamp (hdr child) = timestamp' ∧
    nonce (hdr child) = ""%string ∧
    uncles child = uncles' ∧
    uncles_hash (hdr child) = sha3 (rlp_encode (RList (rlp_of_header <$> uncles'))) ∧
    caches child = fresh_caches ∧
    transaction_count child = 0 ∧
    get_state_root wc = (Ok (root_hash (state (w_self w1))), wc) ∧
    get_tx_list_root wc = (Ok BLANK_ROOT, wc) ∧
    (number (hdr (w_self w)) ≠ -1 →
     get_parent wc =
       match load_block h with
       | Ok p => (Ok (create_cached p), wc)
       | Raise e => (Raise (if bool_decide (e = KeyError) then UnknownParentException else e), wc)
       end).
Proof.
  unfold init_from_parent. intros Hi.
  apply bind_inv_ok in Hi as (h & w1 & Hh & Hi).
  apply bind_inv_ok in Hi as (parent & w2 & Hp & Hi).
  inversion Hp; subst parent w2; clear Hp.
  pose proof (kh_hash _ _ _ Hh) as (Hhdr1 & _).
  pose proof (Block_init_fresh _ _ _ _ _ _ _ _ _ _ _ _ _ _ _ _ _ _ Hi)
    as (Hcls & Hhdr & Hunc & Hcaches & Hstate & Hcount & _ & Hj & Htx & _ & _ & Hself).
  exists h, w1. split; [exact Hh|]. split; [exact Hself|].
  cbv zeta. rewrite Hhdr. simpl.
  repeat split; try assumption; try reflexivity.
  - rewrite Hhdr1. reflexivity.
  - unfold get_state_root.
    erewrite bind_ok by (apply commit_state_empty_journal; simpl; exact Hj).
    rewrite bind_unfold. simpl. rewrite Hstate. reflexivity.
  - unfold get_tx_list_root, read_transactions. rewrite bind_unfold. simpl.
    rewrite Htx. reflexivity.
  - intros Hn. unfold get_parent. rewrite bind_unfold. simpl. rewrite Hhdr. simpl.
    assert (Hz : (number (hdr (w_self w1)) + 1 =? 0) = false).
    { apply Z.eqb_neq. rewrite Hhdr1. lia. }
    rewrite Hz. unfold try_except, get_block. rewrite bind_unfold. unfold lift.
    destruct (load_block h) as [p|e]; simpl; [reflexivity|].
    destruct (bool_decide (e = KeyError)); reflexivity.
Qed.

End child.

Lemma init_from_parent_child_witness :
  number (hdr ref_child_1004) = 3 ∧ coinbase (hdr ref_child_1004) = "cb"%string ∧
  caches ref_child_1004 = fresh_caches.
Proof.
  assert (H1 : init_from_parent (env := ref_env) "cb" "" 1004 [] ref_world =
               (Ok ref_child_1004, (init_from_parent (env := ref_env) "cb" "" 1004 [] ref_world).2))
    by (vm_compute; reflexivity).
  destruct (init_from_parent_child (env := ref_env) _ _ _ _ _ _ _ H1)
    as (h & w1 & _ & _ & _ & _ & Hn & Hcb & _ & _ & _ & _ & _ & Hc & _).
  split; [|split; [exact Hcb | exact Hc]].
  rewrite Hn. vm_compute. reflexivity.
Defined.

(** ** The header of a constructed block survives encoding and decoding *)

Lemma for_each_pure_inv {A} (f : A → M unit) (l : list A) (w w' : world) :
  (∀ x, preserves committed_pure (f x)) →
  journals (w_heap w) !!! journal (w_self w) = [] →
  for_each l f w = (Ok tt, w') →
  w' = w ∧ Forall (λ x, f x w = (Ok tt, w)) l.
Proof.
  intros Hf Hj. induction l as [|x l IH]; simpl; intros Hl.
  - inversion Hl; subst. split; [reflexivity|constructor].
  - apply bind_inv_ok in Hl as ([] & w1 & Hx & Hl).
    pose proof (Hf x _ _ _ Hx Hj) as ->.
    destruct (IH Hl) as (-> & Hall). split; [reflexivity|]. constructor; assumption.
Qed.

Lemma map_M_pure {A B} (f : A → M B) (g : A → B → Prop) (l : list A) (w : world) :
  Forall (λ x, ∃ y, f x w = (Ok y, w) ∧ g x y) l →
  ∃ ys, map_M f l w = (Ok ys, w) ∧ Forall2 g l ys.
Proof.
  induction 1 as [|x l (y & Hy & Hg) _ (ys & Hys & Hall)]; simpl.
  - exists []. split; [reflexivity|constructor].
  - exists (y :: ys). split; [|constructor; assumption].
    erewrite bind_ok by exact Hy. erewrite bind_ok by exact Hys. reflexivity.
Qed.

Lemma Forall2_zip_with_r {A B C} (P : A → B → Prop) (Q : A → C → Prop) (F : A → B → C)
    (l : list A) (h : list B) :
  (∀ x y, P x y → Q x (F x y)) → Forall2 P l h → Forall2 Q l (zip_with F l h).
Proof. intros HPQ. induction 1; simpl; constructor; auto. Qed.

Section header_round_trip.
Context {env : Env}.

(** X16. A block that the constructor returns (given no transactions) has
    a header that survives the codec: [list_header()] returns without
    changing anything, [deserialize_header] accepts the list, and the fields
    it decodes are, name by name and in the order of [block_structure], equal
    to the attributes of the block. *)
Theorem constructed_header_round_trip p uh cb sr tr d n mgp gl gu ts ed nc us header
    (w w' : world) (child : Block) :
  Block_init p uh cb sr tr d n mgp gl gu ts ed nc [] us header w = (Ok child, w') →
  let wc := {| w_heap := w_heap w'; w_self := child |} in
  ∃ h kv,
    list_header [] wc = (Ok h, wc) ∧
    deserialize_header h = Ok kv ∧
    Forall2 (λ (nt : string * string) (nv : string * value),
               nv.1 = nt.1 ∧
               ∃ v, getattr_field nt.1 wc = (Ok v, wc) ∧ py_eq nv.2 v = true)
            block_structure kv.
Proof.
  intros Hi wc.
  pose proof (Block_init_fresh _ _ _ _ _ _ _ _ _ _ _ _ _ _ _ _ _ _ Hi)
    as (_ & _ & _ & _ & _ & _ & _ & Hj & _ & _ & Hchecks & _).
  fold wc in Hchecks.
  unfold Block_init_checks in Hchecks.
  replace (bool_decide (@nil rlp ≠ [])) with false in Hchecks
    by (symmetry; apply bool_decide_eq_false; tauto).
  apply bind_inv_ok in Hchecks as ([] & w1 & H1 & Hchecks).
  inversion H1; subst w1; clear H1.
  apply bind_inv_ok in Hchecks as ([] & w2 & Hloop & _).
  apply for_each_pure_inv in Hloop as (_ & Hall); [| |exact Hj].
  2:{ intros nt. pres_go. apply cmp_getattr_field. }
  assert (Hfields : Forall (λ nt : string * string,
            ∃ y, (getattr_field nt.1 ≫= λ v, mret (encoders nt.2 v)) wc = (Ok y, wc) ∧
                 ∃ v, getattr_field nt.1 wc = (Ok v, wc) ∧ y = encoders nt.2 v ∧
                      py_eq (decoders nt.2 (RStr (encoders nt.2 v))) v = true)
            block_structure).
  { eapply Forall_impl; [exact Hall|]. intros nt Hnt. simpl in Hnt.
    apply bind_inv_ok in Hnt as (v & w3 & Hv & Ha).
    pose proof (cmp_getattr_field _ _ _ _ Hv Hj) as ->.
    exists (encoders nt.2 v). split; [erewrite bind_ok by exact Hv; reflexivity|].
    exists v. split; [exact Hv|]. split; [reflexivity|].
    unfold assert in Ha. destruct (py_eq _ v); [reflexivity|discriminate]. }
  destruct (map_M_pure
              (λ nt : string * string, getattr_field nt.1 ≫= λ v, mret (encoders nt.2 v))
              (λ (nt : string * string) (y : string),
                 ∃ v, getattr_field nt.1 wc = (Ok v, wc) ∧ y = encoders nt.2 v ∧
                      py_eq (decoders nt.2 (RStr (encoders nt.2 v))) v = true)
              block_structure wc Hfields) as (h & Hh & Hf2).
  exists h, (zip_with (λ (nt : string * string) x, (nt.1, decoders nt.2 (RStr x))) block_structure h).
  split; [exact Hh|]. split.
  - unfold deserialize_header. rewrite bool_decide_true; [reflexivity|].
    symmetry. eapply Forall2_length. exact Hf2.
  - eapply Forall2_zip_with_r; [|exact Hf2].
    intros nt x (v & Hv & -> & Heq). simpl.
    split; [reflexivity|]. exists v. split; [exact Hv|exact Heq].
Qed.

End header_round_trip.

Lemma constructed_header_round_trip_witness :
  ∃ h kv, list_header (env := ref_env) []
            {| w_heap := w_heap (init_from_parent (env := ref_env) "cb" "" 1004 [] ref_world).2;
               w_self := ref_child_1004 |} =
            (Ok h, {| w_heap := w_heap (init_from_parent (env := ref_env) "cb" "" 1004 [] ref_world).2;
                      w_self := ref_child_1004 |}) ∧
          deserialize_header (env := ref_env) h = Ok kv.
Proof.
  assert (H1 : init_from_parent (env := ref_env) "cb" "" 1004 [] ref_world =
               (Ok ref_child_1004, (init_from_parent (env := ref_env) "cb" "" 1004 [] ref_world).2))
    by (vm_compute; reflexivity).
  unfold init_from_parent in H1 at 1.
  destruct (hash (env := ref_env) ref_world) as [[hh|e] w1] eqn:Hh.
  2:{ rewrite (bind_raise _ _ _ _ _ Hh) in H1. discriminate. }
  rewrite (bind_ok _ _ _ _ _ Hh) in H1.
  rewrite bind_unfold in H1. simpl in H1.
  destruct (constructed_header_round_trip (env := ref_env) _ _ _ _ _ _ _ _ _ _ _ _ _ _ _ _ _ _ H1)
    as (h & kv & Hl & Hd & _).
  exists h, kv. split; [exact Hl | exact Hd].
Defined.

(** ** The transaction list *)

Section transaction_list.
Context {env : Env}.

Lemma _add_transaction_to_list_ok a b c w w' :
  _add_transaction_to_list a b c w = (Ok tt, w') →
  is_RList a = true ∧
  cls (w_self w) = ClsBlock ∧ cls (w_self w') = ClsBlock ∧
  transaction_count (w_self w') = transaction_count (w_self w) + 1 ∧
  transactions (w_self w') = transactions (w_self w) ∧
  tries (w_heap w') !!! transactions (w_self w) =
    trie_update (tries (w_heap w) !!! transactions (w_self w))
      (rlp_encode (RStr (encode_int (transaction_count (w_self w)))))
      (rlp_encode (RList [a; b; c])).
Proof.
  unfold _add_transaction_to_list. rewrite bind_unfold. simpl.
  destruct (cls (w_self w)) eqn:Hcls; [|discriminate].
  unfold Block__add_transaction_to_list.
  destruct (is_RList a); [|discriminate].
  unfold assert, write_transactions, read_transactions.
  rewrite !bind_unfold. simpl. unfold modify_heap, modify_self. simpl.
  intros Hr. inversion Hr; subst; clear Hr. simpl.
  repeat split; try assumption; try reflexivity.
  apply lookup_total_insert_eq.
Qed.

(** X17. The loop of the constructor over [transaction_list] returns only
    when every entry is a triple whose first part is a list, and only on a
    [Block]; it then has raised [transaction_count] by the number of entries,
    and the last entry is stored in the transactions trie under the encoded
    index it was given, the count before it. *)
Theorem transactions_counted (l : list rlp) (w w' : world) :
  for_each l add_listed_transaction w = (Ok tt, w') →
  transaction_count (w_self w') = transaction_count (w_self w) + Z.of_nat (length l) ∧
  Forall (λ item, ∃ a b c, item = RList [a; b; c] ∧ is_RList a = true) l ∧
  (l ≠ [] → cls (w_self w) = ClsBlock) ∧
  transactions (w_self w') = transactions (w_self w) ∧
  (∀ l0 item, l = l0 ++ [item] →
     ∃ t, tries (w_heap w') !!! transactions (w_self w) =
            trie_update t
              (rlp_encode (RStr (encode_int (transaction_count (w_self w) + Z.of_nat (length l0)))))
              (rlp_encode item)).
Proof.
  revert w. induction l as [|item l IH]; intros w Hl; simpl in Hl.
  - inversion Hl; subst. simpl.
    split; [lia|]. split; [constructor|]. split; [congruence|]. split; [reflexivity|].
    intros l0 item Heq. destruct l0; discriminate.
  - apply bind_inv_ok in Hl as ([] & w1 & Hitem & Hl).
    assert (Hshape : ∃ a b c, item = RList [a; b; c] ∧
                              _add_transaction_to_list a b c w = (Ok tt, w1)).
    { unfold add_listed_transaction in Hitem.
      destruct item as [s|[|a [|b [|c [|x r]]]]]; try discriminate.
      - destruct (bool_decide (String.length s = 3%nat)); [|discriminate].
        apply _add_transaction_to_list_ok in Hitem as (Hlist & _). discriminate.
      - eauto. }
    destruct Hshape as (a & b & c & -> & Hadd).
    apply _add_transaction_to_list_ok in Hadd as (Hlist & Hcls & Hcls1 & Hcount & Htx & Htrie).
    destruct (IH w1 Hl) as (Hc & Hall & _ & Htx' & Hlast).
    split; [rewrite Hc, Hcount; simpl length; lia|].
    split; [constructor; eauto|].
    split; [intros _; exact Hcls|].
    split; [congruence|].
    intros l0 item Heq. destruct l0 as [|x l0]; simpl in Heq.
    + inversion Heq; subst. simpl in Hl. inversion Hl; subst w'.
      eexists. rewrite Htrie. simpl. rewrite Z.add_0_r. reflexivity.
    + inversion Heq; subst.
      destruct (Hlast l0 item eq_refl) as (t & Ht).
      exists t. rewrite <- Htx. rewrite Ht. rewrite Hcount. simpl length.
      replace (transaction_count (w_self w) + Z.of_nat (S (length l0)))
        with (transaction_count (w_self w) + 1 + Z.of_nat (length l0)) by lia.
      reflexivity.
Qed.

End transaction_list.

Lemma transactions_counted_witness :
  transaction_count (w_self ref_world_transactions) = 2.
Proof.
  assert (Hl : for_each ref_transaction_list (add_listed_transaction (env := ref_env)) ref_world =
               (Ok tt, ref_world_transactions)) by (vm_compute; reflexivity).
  destruct (transactions_counted (env := ref_env) _ _ _ Hl) as (Hc & _).
  rewrite Hc. vm_compute. reflexivity.
Defined.

(** ** A Disconnect packet that arrives *)

Section recv_disconnect.
Context {pk : Packeter}.

(** X18. [_recv_Disconnect] never queues a packet and changes no
    attribute of the peer.  Without a reason it signals the disconnect
    request with [forget=None]; with a reason identifier that the packet
    encoder knows it signals the request once, with [forget=True] exactly
    when the reason is one of the three reasons to forget; an identifier
    that the encoder lacks raises [KeyError] and nothing is signalled. *)
Theorem recv_Disconnect_spec (σ : pworld) (data : list string) :
  pw_peer (_recv_Disconnect data σ).2 = pw_peer σ ∧
  pw_heap (_recv_Disconnect data σ).2 = pw_heap σ ∧
  (data = [] →
   (_recv_Disconnect data σ).1 = Ok tt ∧
   pw_signals (_recv_Disconnect data σ).2 = pw_signals σ ++ [peer_disconnect_requested None]) ∧
  (∀ d0 rest reason,
     data = d0 :: rest → disconnect_reasons_map_by_id (idec d0) = Some reason →
     (_recv_Disconnect data σ).1 = Ok tt ∧
     ∃ forget,
       pw_signals (_recv_Disconnect data σ).2 =
         pw_signals σ ++ [peer_disconnect_requested (Some forget)] ∧
       (forget = true ↔
        reason = "Bad protocol"%string ∨ reason = "Incompatible network protocols"%string ∨
        reason = "Wrong genesis block"%string)) ∧
  (∀ d0 rest,
     data = d0 :: rest → disconnect_reasons_map_by_id (idec d0) = None →
     _recv_Disconnect data σ = (Raise KeyError, σ)).
Proof.
  unfold _recv_Disconnect.
  destruct data as [|d0 rest].
  - repeat split; try reflexivity; intros; discriminate.
  - destruct (disconnect_reasons_map_by_id (idec d0)) as [reason|] eqn:Hm.
    + split; [reflexivity|]. split; [reflexivity|]. split; [discriminate|]. split.
      * intros d0' rest' reason' Heq Hr. inversion Heq; subst d0' rest'.
        rewrite Hm in Hr. inversion Hr; subst reason'.
        unfold mbind, PM_bind, mret, PM_ret, send_signal. simpl.
        split; [reflexivity|].
        exists (bool_decide (reason ∈ reasons_to_forget)). split; [reflexivity|].
        rewrite bool_decide_eq_true. unfold reasons_to_forget.
        rewrite !elem_of_cons, elem_of_nil. tauto.
      * intros d0' rest' Heq Hr. inversion Heq; subst. congruence.
    + split; [reflexivity|]. split; [reflexivity|]. split; [discriminate|]. split.
      * intros d0' rest' reason' Heq Hr. inversion Heq; subst. congruence.
      * intros d0' rest' Heq Hr. inversion Heq; subst. reflexivity.
Qed.

End recv_disconnect.

Lemma recv_Disconnect_spec_witness :
  ∃ forget,
    pw_signals (_recv_Disconnect (pk := ref_packeter) [String (ascii_of_nat 2) EmptyString]
                  ref_peer_world).2 =
      pw_signals ref_peer_world ++ [peer_disconnect_requested (Some forget)] ∧
    forget = true.
Proof.
  destruct (recv_Disconnect_spec (pk := ref_packeter) ref_peer_world
              [String (ascii_of_nat 2) EmptyString]) as (_ & _ & _ & Hknown & _).
  destruct (Hknown _ _ "Bad protocol"%string eq_refl eq_refl) as (_ & forget & Hs & Hf).
  exists forget. split; [exact Hs|]. apply Hf. left. reflexivity.
Defined.

(** ** Reads are repeatable *)

Section repeat_reads.
Context {env : Env}.

Lemma mk_blank_acct_again w r w1 :
  mk_blank_acct w = (r, w1) → mk_blank_acct w1 = (r, w1).
Proof.
  unfold mk_blank_acct. rewrite !bind_unfold. simpl.
  destruct (blank_acct (w_self w)) as [a|] eqn:Hb.
  - intros Hr. inversion Hr; subst. rewrite Hb. reflexivity.
  - intros Hr. inversion Hr; subst. reflexivity.
Qed.

Lemma load_acct_again address w r w1 :
  load_acct address w = (r, w1) → load_acct address w1 = (r, w1).
Proof.
  unfold load_acct. rewrite !bind_unfold. simpl.
  destruct (rlp_truthy (rlp_decode (trie_get (state (w_self w)) address))) eqn:Ht.
  - intros Hr. inversion Hr; subst. rewrite Ht. reflexivity.
  - intros Hr. pose proof (oba_mk_blank_acct _ _ _ Hr) as (ba & dp & Hw).
    assert (Hs : state (w_self w1) = state (w_self w)) by (rewrite Hw; reflexivity).
    rewrite Hs, Ht. eapply mk_blank_acct_again. exact Hr.
Qed.

Lemma bind_again {A B} (m : M A) (k : A → M B) w r w1 :
  (∀ w0 r0 w0', m w0 = (r0, w0') → m w0' = (r0, w0')) →
  (∀ a u, (k a u).2 = u) →
  (∀ a u u', (k a u).1 = (k a u').1) →
  (m ≫= k) w = (r, w1) → (m ≫= k) w1 = (r, w1).
Proof.
  intros Hm Hk2 Hk1. rewrite !bind_unfold.
  destruct (m w) as [[a|e] w0] eqn:E; intros Hr.
  - assert (Hw : w1 = w0).
    { pose proof (Hk2 a w0) as H2. rewrite Hr in H2. simpl in H2. exact H2. }
    subst w1. rewrite (Hm _ _ _ E). exact Hr.
  - inversion Hr; subst. rewrite (Hm _ _ _ E). reflexivity.
Qed.

Lemma get_acct_again address w r w1 :
  get_acct address w = (r, w1) → get_acct address w1 = (r, w1).
Proof.
  unfold get_acct. rewrite !decode_hex_if_bind.
  assert (Hk : ∀ a,
    (load_acct a ≫= λ acct,
       map_M (λ '(i, (n, t)), x ← lift (rlp_index acct i); mret (decoders t x))
             (imap (λ (i : nat) (nt : string * string), (i, nt)) acct_structure)) w = (r, w1) →
    (load_acct a ≫= λ acct,
       map_M (λ '(i, (n, t)), x ← lift (rlp_index acct i); mret (decoders t x))
             (imap (λ (i : nat) (nt : string * string), (i, nt)) acct_structure)) w1 = (r, w1)).
  { intros a. apply bind_again.
    - intros w0 r0 w0'. apply load_acct_again.
    - intros acct u.
      assert (Hp : preserves eq
                (map_M (λ '(i, (n, t)), x ← lift (rlp_index acct i); mret (decoders t x))
                       (imap (λ (i : nat) (nt : string * string), (i, nt)) acct_structure))).
      { apply preserves_map_M; [apply _|]. intros [i [n t]]. pres_go. }
      symmetry. eapply Hp. apply surjective_pairing.
    - intros acct u u'. apply map_M_fst_agree. intros [i [n t]] u1 u2.
      rewrite !bind_unfold. unfold lift. destruct (rlp_index acct i); reflexivity. }
  destruct (bool_decide _); [destruct (hex_decodable address)|]; try apply Hk.
  intros Hr. inversion Hr; subst. reflexivity.
Qed.

#[global] Instance memo_pure_preorder : PreOrder memo_pure.
Proof.
  split.
  - intros w _. reflexivity.
  - intros w1 w2 w3 H12 H23 Hb. specialize (H12 Hb). subst w2. apply H23. exact Hb.
Qed.

Lemma mp_mk_blank_acct : preserves memo_pure mk_blank_acct.
Proof.
  intros w r w' Hw Hb. unfold mk_blank_acct in Hw. rewrite bind_unfold in Hw. simpl in Hw.
  destruct (blank_acct (w_self w)); [|contradiction].
  inversion Hw; subst. reflexivity.
Qed.

Lemma mp__get_acct_item address param : preserves memo_pure (_get_acct_item address param).
Proof.
  unfold _get_acct_item, get_acct, load_acct. pres_go; apply mp_mk_blank_acct.
Qed.

(** X19. Reading an account item changes nothing but the memo of the blank
    account and the log of its [db.put], and nothing at all once the memo
    exists; a second read of the same item returns what the first returned,
    or raises what it raised, and changes nothing. *)
Theorem get_acct_item_repeatable (w w1 : world) (address param : string) (r : outcome value) :
  _get_acct_item address param w = (r, w1) →
  _get_acct_item address param w1 = (r, w1) ∧
  only_blank_acct w w1 ∧
  (blank_acct (w_self w) ≠ None → w1 = w).
Proof.
  intros Hr.
  pose proof (oba__get_acct_item _ _ _ _ _ Hr) as Hoba.
  split; [|split; [exact Hoba | exact (mp__get_acct_item _ _ _ _ _ Hr)]].
  apply only_blank_acct_caches in Hoba as (Hc & _).
  revert Hr. unfold _get_acct_item. rewrite !(bind_unfold get_self). simpl. rewrite Hc.
  destruct (bool_decide (param ≠ "storage"%string)).
  - destruct (caches (w_self w) !! param) as [m|].
    + rewrite !(bind_unfold (mret _)). simpl.
      destruct (m !! KAddr address).
      * intros Hr. inversion Hr; subst. reflexivity.
      * apply bind_again.
        -- intros w0 r0 w0'. apply get_acct_again.
        -- intros acct u. destruct (acct_structure_rev param) as [[i t]|]; [|reflexivity].
           destruct (acct !! i); reflexivity.
        -- intros acct u u'. destruct (acct_structure_rev param) as [[i t]|]; [|reflexivity].
           destruct (acct !! i); reflexivity.
    + rewrite !bind_unfold. simpl. intros Hr. inversion Hr; subst. reflexivity.
  - rewrite !(bind_unfold (mret _)). simpl.
    apply bind_again.
    + intros w0 r0 w0'. apply get_acct_again.
    + intros acct u. destruct (acct_structure_rev param) as [[i t]|]; [|reflexivity].
      destruct (acct !! i); reflexivity.
    + intros acct u u'. destruct (acct_structure_rev param) as [[i t]|]; [|reflexivity].
      destruct (acct !! i); reflexivity.
Qed.

End repeat_reads.

Lemma get_acct_item_repeatable_witness :
  _get_acct_item (env := ref_env) "bb" "balance"
    (_get_acct_item (env := ref_env) "bb" "balance" ref_world_balance).2 =
  (Ok (VInt 0), (_get_acct_item (env := ref_env) "bb" "balance" ref_world_balance).2).
Proof.
  assert (Hr : _get_acct_item (env := ref_env) "bb" "balance" ref_world_balance =
               (Ok (VInt 0), (_get_acct_item (env := ref_env) "bb" "balance" ref_world_balance).2))
    by (vm_compute; reflexivity).
  exact (proj1 (get_acct_item_repeatable (env := ref_env) _ _ _ _ _ Hr)).
Defined.

(** ** Nonces *)

Section nonces.
Context {env : Env}.

(** X20. Let [c >= 0] be the nonce that [get_nonce(a)] returns on a
    [Block].  [increment_nonce(a)] returns [True], after it
    [decrement_nonce(a)] returns [True], and the nonce reads [c] again.  At
    nonce 0, [decrement_nonce(a)] returns [False] and writes nothing. *)
Theorem nonce_round_trip (w w1 : world) (a : string) (cur : value) (c : Z)
    (mn ma : gmap key value) :
  cls (w_self w) = ClsBlock →
  caches (w_self w) !! "nonce"%string = Some mn →
  caches (w_self w) !! "all"%string = Some ma →
  get_nonce a w = (Ok cur, w1) → as_int cur = Some c → 0 ≤ c →
  (∃ w2 w3 v,
     increment_nonce a w = (Ok true, w2) ∧
     decrement_nonce a w2 = (Ok true, w3) ∧
     get_nonce a w3 = (Ok v, w3) ∧ as_int v = Some c) ∧
  (c = 0 → decrement_nonce a w = (Ok false, w1)).
Proof.
  intros Hcls Hmn Hma Hget Hcur Hc. unfold get_nonce, increment_nonce, decrement_nonce in *.
  split.
  - destruct (_delta_item_block_ok a "nonce" 1 w cur w1 c mn ma)
      as (w2 & mn2 & Hd & Hcls2 & Hmn2 & (v2 & Hv2 & Hv2i) & _ & (ma2 & Hma2) & _);
      try assumption; try discriminate; try lia.
    assert (Hget2 : _get_acct_item a "nonce" w2 = (Ok v2, w2)).
    { eapply _get_acct_item_hit; [discriminate|exact Hmn2|exact Hv2]. }
    destruct (_delta_item_block_ok a "nonce" (-1) w2 v2 w2 (c + 1) mn2 ma2)
      as (w3 & mn3 & Hd3 & _ & Hmn3 & (v3 & Hv3 & Hv3i) & _);
      try assumption; try discriminate; try lia.
    exists w2, w3, v3. split; [exact Hd|]. split; [exact Hd3|]. split.
    + eapply _get_acct_item_hit; [discriminate|exact Hmn3|exact Hv3].
    + rewrite Hv3i. f_equal. lia.
  - intros ->. unfold _delta_item. erewrite bind_ok by exact Hget. rewrite Hcur. reflexivity.
Qed.

End nonces.

Lemma nonce_round_trip_witness :
  ∃ w2 w3 v,
    increment_nonce (env := ref_env) "aa" ref_world_nonce = (Ok true, w2) ∧
    decrement_nonce (env := ref_env) "aa" w2 = (Ok true, w3) ∧
    get_nonce (env := ref_env) "aa" w3 = (Ok v, w3) ∧ as_int v = Some 5.
Proof.
  assert (Hget : get_nonce (env := ref_env) "aa" ref_world_nonce = (Ok (VInt 5), ref_world_nonce))
    by (vm_compute; reflexivity).
  destruct (nonce_round_trip (env := ref_env) ref_world_nonce ref_world_nonce "aa" (VInt 5) 5
              {[ KAddr "aa" := VInt 5 ]} {[ KAddr "aa" := VInt 5 ]}) as (Hrt & _).
  - vm_compute; reflexivity.
  - vm_compute; reflexivity.
  - vm_compute; reflexivity.
  - exact Hget.
  - reflexivity.
  - lia.
  - exact Hrt.
Defined.

(** ** The block reward *)

Section reward.
Context {env : Env}.

Lemma load_acct_stable address w acct w1 w' :
  load_acct address w = (Ok acct, w1) →
  state (w_self w') = state (w_self w) →
  blank_acct (w_self w') = blank_acct (w_self w1) →
  load_acct address w' = (Ok acct, w').
Proof.
  unfold load_acct. rewrite !bind_unfold. simpl. intros Hl Hs Hb. rewrite Hs.
  destruct (rlp_truthy (rlp_decode (trie_get (state (w_self w)) address))).
  - inversion Hl; subst. reflexivity.
  - unfold mk_blank_acct in *. rewrite !bind_unfold in *. simpl in *.
    destruct (blank_acct (w_self w)) as [x|] eqn:Hx.
    + inversion Hl; subst. rewrite Hb, Hx. reflexivity.
    + inversion Hl; subst. simpl in Hb. rewrite Hb. reflexivity.
Qed.

Lemma commit_field_miss address i k typ acct (m : gmap key value) w :
  k ≠ "storage"%string →
  caches (w_self w) !! k = Some m → m !! KAddr address = None →
  commit_field address i k typ acct w = (Ok acct, w).
Proof.
  intros Hk Hm Hnone. unfold commit_field. rewrite bind_unfold. simpl.
  rewrite bool_decide_false by exact Hk. rewrite Hm, Hnone. reflexivity.
Qed.

Lemma commit_field_hit address i k typ acct (m : gmap key value) v w :
  k ≠ "storage"%string →
  caches (w_self w) !! k = Some m → m !! KAddr address = Some v →
  commit_field address i k typ acct w = (rlp_set acct i (RStr (encoders typ v)), w).
Proof.
  intros Hk Hm Hv. unfold commit_field. rewrite bind_unfold. simpl.
  rewrite bool_decide_false by exact Hk. rewrite Hm, Hv. reflexivity.
Qed.

(** The storage field of an account none of whose storage was written. *)
Lemma commit_field_storage_clean address i typ acct root acct' w :
  caches (w_self w) !! ("storage:" +:+ address)%string = None →
  rlp_index acct i = Ok root →
  rlp_set acct i (RStr (rlp_str root)) = Ok acct' →
  commit_field address i "storage" typ acct w =
    (Ok acct',
     {| w_heap := w_heap w;
        w_self := set_proof_nodes
          (proof_nodes (w_self w) ++
           if bool_decide (proof_mode (w_self w) = Some RECORDING)
           then proof_nodes (w_self w) else []) (w_self w) |}).
Proof.
  intros Hsub Hroot Hset. unfold commit_field. rewrite bind_unfold. simpl.
  rewrite Hsub. simpl. rewrite map_to_list_empty. simpl.
  rewrite Hroot. unfold lift, mbind, M_bind. simpl. rewrite Hset. reflexivity.
Qed.

(** Committing a block whose only pending write is the balance of one
    account. *)
Lemma commit_state_one_balance (w : world) (a : string) (new : value) (n bals s c : string) :
  cls (w_self w) = ClsBlock →
  caches (w_self w) =
    <["all"%string := <[KAddr a := new]> ∅]>
      (<["balance"%string := <[KAddr a := new]> ∅]> fresh_caches) →
  journals (w_heap w) !!! journal (w_self w) ≠ [] →
  hex_decodable a = true →
  load_acct (hex_decode a) w = (Ok (RList [RStr n; RStr bals; RStr s; RStr c]), w) →
  ∃ w',
    commit_state w = (Ok tt, w') ∧
    root_hash (state (w_self w')) =
      root_hash (trie_update (state (w_self w)) (hex_decode a)
                   (rlp_encode (RList [RStr n; RStr (encoders "int" new); RStr s; RStr c]))) ∧
    caches (w_self w') = fresh_caches ∧
    journals (w_heap w') !!! journal (w_self w') = [] ∧
    proof_nodes (w_self w') =
      (if bool_decide (proof_mode (w_self w) = Some RECORDING)
      then (proof_nodes (w_self w) ++ proof_nodes (w_self w)) ++
           t_proof_nodes (trie_update (state (w_self w)) (hex_decode a)
                            (rlp_encode (RList [RStr n; RStr (encoders "int" new); RStr s; RStr c])))
      else proof_nodes (w_self w)) ∧
    cls (w_self w') = ClsBlock ∧
    (∀ l, l ∈ dom (journals (w_heap w)) →
          journals (w_heap w') !!! l = journals (w_heap w) !!! l).
Proof.
  intros Hcls Hcaches Hj Hhex Hload.
  assert (Hall : caches (w_self w) !! "all"%string = Some (<[KAddr a := new]> ∅)).
  { rewrite Hcaches. apply lookup_insert_eq. }
  assert (Hbalance : caches (w_self w) !! "balance"%string = Some (<[KAddr a := new]> ∅)).
  { rewrite Hcaches. rewrite lookup_insert_ne by discriminate. apply lookup_insert_eq. }
  assert (Hnonce : caches (w_self w) !! "nonce"%string = Some ∅).
  { rewrite Hcaches. rewrite !lookup_insert_ne by discriminate. reflexivity. }
  assert (Hcode : caches (w_self w) !! "code"%string = Some ∅).
  { rewrite Hcaches. rewrite !lookup_insert_ne by discriminate. reflexivity. }
  assert (Hsub : caches (w_self w) !! ("storage:" +:+ a)%string = None).
  { rewrite Hcaches. unfold fresh_caches.
    rewrite !lookup_insert_ne by (simpl; discriminate).
    apply lookup_singleton_ne. simpl. discriminate. }
  assert (Hjl : bool_decide (length (journals (w_heap w) !!! journal (w_self w)) = 0%nat) = false).
  { apply bool_decide_eq_false. intros Hl. apply Hj.
    destruct (journals (w_heap w) !!! journal (w_self w)); [reflexivity|discriminate]. }
  assert (Hacct : commit_account (KAddr a) w =
    (Ok tt, {| w_heap := w_heap w;
               w_self := set_state
                 (trie_update (state (w_self w)) (hex_decode a)
                    (rlp_encode (RList [RStr n; RStr (encoders "int" new); RStr s; RStr c])))
                 (set_proof_nodes
                    (proof_nodes (w_self w) ++
                     if bool_decide (proof_mode (w_self w) = Some RECORDING)
                     then proof_nodes (w_self w) else []) (w_self w)) |})).
  { unfold commit_account. rewrite bind_unfold. simpl.
    rewrite decode_hex_bind, Hhex.
    unfold load_acct in Hload. rewrite bind_unfold in Hload. simpl in Hload.
    erewrite bind_ok by exact Hload.
    erewrite bind_ok.
    2:{ simpl.
        erewrite bind_ok
          by (eapply commit_field_miss; [discriminate|exact Hnonce|apply lookup_empty]).
        erewrite bind_ok
          by (erewrite commit_field_hit;
              [reflexivity|discriminate|exact Hbalance|apply lookup_insert_eq]).
        erewrite bind_ok
          by (eapply commit_field_storage_clean; [exact Hsub|reflexivity|reflexivity]).
        erewrite bind_ok
          by (eapply commit_field_miss; [discriminate|exact Hcode|apply lookup_empty]).
        reflexivity. }
    rewrite bind_unfold. simpl. rewrite decode_hex_bind, Hhex. reflexivity. }
  assert (Hkeys : (map_to_list (<[KAddr a := new]> (∅ : gmap key value))).*1 = [KAddr a]).
  { rewrite insert_empty, map_to_list_singleton. reflexivity. }
  unfold commit_state. rewrite bind_unfold. simpl. rewrite Hcls.
  unfold Block_commit_state. rewrite bind_unfold. simpl. rewrite Hjl.
  rewrite bind_unfold. simpl. rewrite Hall. rewrite Hkeys.
  simpl for_each.
  rewrite bind_assoc. erewrite bind_ok by exact Hacct.
  rewrite !bind_unfold. simpl.
  unfold mbind, M_bind, mret, M_ret, get_self, modify_self, reset_cache, alloc_journal. simpl.
  destruct (bool_decide (proof_mode (w_self w) = Some RECORDING)); simpl.
  - eexists. split; [reflexivity|]. simpl.
    split; [reflexivity|]. split; [reflexivity|].
    split; [apply lookup_total_insert_eq|]. split; [reflexivity|].
    split; [exact Hcls|].
    intros l Hl. apply lookup_total_insert_ne.
    intros Heq. apply (is_fresh (dom (journals (w_heap w)))). rewrite Heq. exact Hl.
  - eexists. split; [reflexivity|]. simpl.
    split; [reflexivity|]. split; [reflexivity|].
    split; [apply lookup_total_insert_eq|]. split; [apply app_nil_r|].
    split; [exact Hcls|].
    intros l Hl. apply lookup_total_insert_ne.
    intros Heq. apply (is_fresh (dom (journals (w_heap w)))). rewrite Heq. exact Hl.
Qed.

(** [finalize] on a block without uncles and without pending writes. *)
Lemma finalize_clean_block (w w1 : world) (n bals s c : string) (bal : Z) :
  cls (w_self w) = ClsBlock →
  uncles (w_self w) = [] →
  caches (w_self w) = fresh_caches →
  String.length (coinbase (hdr (w_self w))) = 40%nat →
  hex_decodable (coinbase (hdr (w_self w))) = true →
  load_acct (hex_decode (coinbase (hdr (w_self w)))) w =
    (Ok (RList [RStr n; RStr bals; RStr s; RStr c]), w1) →
  as_int (decoders "int" (RStr bals)) = Some bal → 0 ≤ bal →
  let committed :=
    trie_update (state (w_self w)) (hex_decode (coinbase (hdr (w_self w))))
      (rlp_encode (RList [RStr n; RStr (encoders "int" (VInt (bal + 1500 * 10 ^ 15)));
                          RStr s; RStr c])) in
  ∃ w',
    finalize w = (Ok tt, w') ∧
    root_hash (state (w_self w')) = root_hash committed ∧
    caches (w_self w') = fresh_caches ∧
    journals (w_heap w') !!! journal (w_self w') = [] ∧
    proof_nodes (w_self w') =
      if bool_decide (proof_mode (w_self w) = Some RECORDING)
      then (proof_nodes (w_self w) ++ proof_nodes (w_self w)) ++ t_proof_nodes committed
      else proof_nodes (w_self w).
Proof.
  intros Hcls Hunc Hcaches Hlen Hhex Hload Hbal Hpos.
  set (cb := coinbase (hdr (w_self w))) in *.
  assert (Hget : get_balance cb w = (Ok (decoders "int" (RStr bals)), w1)).
  { unfold get_balance, _get_acct_item. rewrite bind_unfold. simpl.
    rewrite Hcaches. 
    replace (fresh_caches !! "balance"%string) with (Some (∅ : gmap key value))
      by (symmetry; vm_compute; reflexivity).
    rewrite bind_unfold. simpl. rewrite lookup_empty.
    unfold get_acct. rewrite bind_assoc, decode_hex_if_bind.
    rewrite bool_decide_true by exact Hlen. rewrite Hhex.
    rewrite bind_assoc. erewrite bind_ok by exact Hload.
    simpl. reflexivity. }
  pose proof (oba__get_acct_item cb "balance" _ _ _ Hget) as Hoba.
  pose proof Hoba as (ba & dp & Hw1).
  apply only_blank_acct_caches in Hoba as (Hc1 & Hj1 & Hjs1 & Hcls1).
  set (new := VInt (bal + 1500 * 10 ^ 15)).
  set (wB := journalled_write "balance" (KAddr cb) new ∅ w1).
  set (w2 := journalled_write "all" (KAddr cb) new ∅ wB).
  assert (Hdelta : delta_balance cb (BLOCK_REWARD + NEPHEW_REWARD * Z.of_nat (length (uncles (w_self w)))) w
                   = (Ok true, w2)).
  { unfold delta_balance, _delta_item. unfold get_balance in Hget.
    erewrite bind_ok by exact Hget. rewrite Hbal. rewrite Hunc.
    replace (bal + (BLOCK_REWARD + NEPHEW_REWARD * Z.of_nat (length (@nil (list string)))))
      with (bal + 1500 * 10 ^ 15) by (vm_compute (BLOCK_REWARD + _); reflexivity).
    assert (Hge : (bal + 1500 * 10 ^ 15 <? 0) = false) by (apply Z.ltb_ge; lia).
    rewrite Hge. erewrite bind_ok; [reflexivity|].
    apply _set_acct_item_block; try discriminate.
    - congruence.
    - rewrite Hc1, Hcaches. vm_compute. reflexivity.
    - rewrite Hc1, Hcaches. vm_compute. reflexivity. }
  assert (HcB : caches (w_self wB) = <["balance"%string := <[KAddr cb := new]> ∅]> fresh_caches).
  { unfold wB. rewrite journalled_write_caches
      by (rewrite Hc1, Hcaches; vm_compute; reflexivity).
    rewrite lookup_empty. simpl. rewrite Hc1, Hcaches. reflexivity. }
  assert (Hc2 : caches (w_self w2) =
            <["all"%string := <[KAddr cb := new]> ∅]>
              (<["balance"%string := <[KAddr cb := new]> ∅]> fresh_caches)).
  { unfold w2. rewrite journalled_write_caches
      by (rewrite HcB, lookup_insert_ne by discriminate; vm_compute; reflexivity).
    rewrite lookup_empty. simpl. rewrite HcB. reflexivity. }
  assert (Hcls2 : cls (w_self w2) = ClsBlock).
  { unfold w2, wB. rewrite !journalled_write_cls. congruence. }
  assert (Hj2 : journals (w_heap w2) !!! journal (w_self w2) ≠ []).
  { destruct (journalled_write_journal "all" (KAddr cb) new ∅ wB) as (Hjj & Hjs).
    fold w2 in Hjj, Hjs. rewrite Hjj, Hjs.
    unfold journalled_entries. rewrite lookup_empty. simpl.
    intros Hnil. apply app_eq_nil in Hnil as (_ & Hnil). discriminate. }
  assert (Hload2 : load_acct (hex_decode cb) w2 =
                   (Ok (RList [RStr n; RStr bals; RStr s; RStr c]), w2)).
  { destruct (journalled_write_rest "all" (KAddr cb) new ∅ wB) as (E1 & E2 & _).
    destruct (journalled_write_rest "balance" (KAddr cb) new ∅ w1) as (E3 & E4 & _).
    fold wB in E3, E4. fold w2 in E1, E2.
    eapply load_acct_stable; [exact Hload| |congruence].
    rewrite E1, E3, Hw1. reflexivity. }
  destruct (commit_state_one_balance w2 cb new n bals s c Hcls2 Hc2 Hj2 Hhex Hload2)
    as (w' & Hcommit & Hroot & Hcf & Hjf & Hpn & _).
  destruct (journalled_write_rest "all" (KAddr cb) new ∅ wB) as (E1 & _ & E5 & E7 & _).
  destruct (journalled_write_rest "balance" (KAddr cb) new ∅ w1) as (E3 & _ & E6 & E8 & _).
  fold wB in E3, E6, E8. fold w2 in E1, E5, E7.
  assert (Hst : state (w_self w2) = state (w_self w)) by (rewrite E1, E3, Hw1; reflexivity).
  assert (Hpm : proof_mode (w_self w2) = proof_mode (w_self w))
    by (rewrite E5, E6, Hw1; reflexivity).
  assert (Hpn2 : proof_nodes (w_self w2) = proof_nodes (w_self w))
    by (rewrite E7, E8, Hw1; reflexivity).
  exists w'. split.
  - unfold finalize. rewrite bind_unfold. simpl. fold cb.
    erewrite bind_ok by exact Hdelta.
    rewrite Hunc. simpl. rewrite bind_unfold. simpl. exact Hcommit.
  - rewrite Hroot, Hpn, Hst, Hpm, Hpn2. auto.
Qed.

(** X21. [finalize] on a [Block] without uncles and without pending
    writes, whose coinbase is an address of 40 hexadecimal digits with an
    account [[nonce, balance, storage, code]] of non-negative balance [bal]:
    the call returns and has committed, under the decoded address, the same
    account with the balance [bal + 1500 * 10^15] (the block reward); the
    caches are the four empty ones again and the journal is empty. *)
Theorem finalize_rewards_coinbase (w w1 : world) (n bals s c : string) (bal : Z) :
  cls (w_self w) = ClsBlock →
  uncles (w_self w) = [] →
  caches (w_self w) = fresh_caches →
  String.length (coinbase (hdr (w_self w))) = 40%nat →
  hex_decodable (coinbase (hdr (w_self w))) = true →
  load_acct (hex_decode (coinbase (hdr (w_self w)))) w =
    (Ok (RList [RStr n; RStr bals; RStr s; RStr c]), w1) →
  as_int (decoders "int" (RStr bals)) = Some bal → 0 ≤ bal →
  ∃ w',
    finalize w = (Ok tt, w') ∧
    root_hash (state (w_self w')) =
      root_hash (trie_update (state (w_self w)) (hex_decode (coinbase (hdr (w_self w))))
                   (rlp_encode (RList [RStr n; RStr (encoders "int" (VInt (bal + 1500 * 10 ^ 15)));
                                       RStr s; RStr c]))) ∧
    caches (w_self w') = fresh_caches ∧
    journals (w_heap w') !!! journal (w_self w') = [].
Proof.
  intros Hcls Hunc Hcaches Hlen Hhex Hload Hbal Hpos.
  destruct (finalize_clean_block w w1 n bals s c bal Hcls Hunc Hcaches Hlen Hhex Hload Hbal
              Hpos)
    as (w' & Hf & Hroot & Hc & Hj & _).
  exists w'. auto.
Qed.

(** X22. In proof-recording mode the commit doubles the proof nodes
    recorded so far: the trie opened for the storage of an account shares the
    block's list of proof nodes, and the block extends its list by that of
    the trie, that is by itself.  After [finalize] on a recording [Block]
    without uncles and without pending writes, whose coinbase is an address
    of 40 hexadecimal digits with an account of non-negative balance, the
    proof nodes are those of before, twice, followed by what the state trie
    recorded during the update. *)
Theorem finalize_recording_doubles (w w1 : world) (n bals s c : string) (bal : Z) :
  cls (w_self w) = ClsBlock →
  uncles (w_self w) = [] →
  caches (w_self w) = fresh_caches →
  String.length (coinbase (hdr (w_self w))) = 40%nat →
  hex_decodable (coinbase (hdr (w_self w))) = true →
  load_acct (hex_decode (coinbase (hdr (w_self w)))) w =
    (Ok (RList [RStr n; RStr bals; RStr s; RStr c]), w1) →
  as_int (decoders "int" (RStr bals)) = Some bal → 0 ≤ bal →
  proof_mode (w_self w) = Some RECORDING →
  ∃ w',
    finalize w = (Ok tt, w') ∧
    proof_nodes (w_self w') =
      (proof_nodes (w_self w) ++ proof_nodes (w_self w)) ++
      t_proof_nodes
        (trie_update (state (w_self w)) (hex_decode (coinbase (hdr (w_self w))))
           (rlp_encode (RList [RStr n; RStr (encoders "int" (VInt (bal + 1500 * 10 ^ 15)));
                               RStr s; RStr c]))).
Proof.
  intros Hcls Hunc Hcaches Hlen Hhex Hload Hbal Hpos Hrec.
  destruct (finalize_clean_block w w1 n bals s c bal Hcls Hunc Hcaches Hlen Hhex Hload Hbal
              Hpos)
    as (w' & Hf & _ & _ & _ & Hpn).
  exists w'. split; [exact Hf|].
  rewrite Hpn. rewrite bool_decide_true by exact Hrec. reflexivity.
Qed.

End reward.

Lemma finalize_rewards_coinbase_witness :
  ∃ w', finalize (env := ref_env) ref_world_miner = (Ok tt, w') ∧
        caches (w_self w') = fresh_caches.
Proof.
  assert (Hload : load_acct (env := ref_env) (@hex_decode ref_env (coinbase (hdr (w_self ref_world_miner))))
                    ref_world_miner =
                  (Ok (RList [RStr ""; RStr ""; RStr ""; RStr ""]),
                   (load_acct (env := ref_env)
                      (@hex_decode ref_env (coinbase (hdr (w_self ref_world_miner)))) ref_world_miner).2))
    by (vm_compute; reflexivity).
  destruct (finalize_rewards_coinbase (env := ref_env) ref_world_miner _ "" "" "" "" 0
              eq_refl eq_refl eq_refl eq_refl eq_refl Hload eq_refl ltac:(lia))
    as (w' & Hf & _ & Hc & _).
  exists w'. split; [exact Hf | exact Hc].
Defined.

Lemma finalize_recording_doubles_witness :
  ∃ w', finalize (env := ref_env) ref_world_recording = (Ok tt, w') ∧
        proof_nodes (w_self w') = ["n1"; "n2"; "n1"; "n2"]%string.
Proof.
  assert (Hload : load_acct (env := ref_env)
                    (@hex_decode ref_env (coinbase (hdr (w_self ref_world_recording))))
                    ref_world_recording =
                  (Ok (RList [RStr ""; RStr ""; RStr ""; RStr ""]),
                   (load_acct (env := ref_env)
                      (@hex_decode ref_env (coinbase (hdr (w_self ref_world_recording))))
                      ref_world_recording).2))
    by (vm_compute; reflexivity).
  destruct (finalize_recording_doubles (env := ref_env) ref_world_recording _ "" "" "" "" 0
              eq_refl eq_refl eq_refl eq_refl eq_refl Hload eq_refl ltac:(lia) eq_refl)
    as (w' & Hf & Hpn).
  exists w'. split; [exact Hf|]. rewrite Hpn. vm_compute. reflexivity.
Defined.

(** ** The header list and the hash, computed again *)

Section hash_again.
Context {env : Env}.

(** [list_header()] commits the state and then lists the 13 fields. *)
Lemma list_header_run w :
  list_header [] w =
    match commit_state w with
    | (Ok _, wc) => (Ok (header_fields (w_heap wc) (w_self wc)), wc)
    | (Raise e, wc) => (Raise e, wc)
    end.
Proof.
  assert (Hf : filter (λ nt : string * string, nt.1 ∉ ([] : list string)) block_structure
               = block_structure) by reflexivity.
  unfold list_header. rewrite Hf. unfold block_structure, map_M.
  unfold getattr_field, get_state_root, get_tx_list_root.
  unfold mbind, M_bind, mret, M_ret, get_self, read_transactions. simpl.
  destruct (commit_state w) as [[u|e] wc] eqn:Hc; [|reflexivity].
  apply kh_commit_state in Hc as (Hh & _).
  unfold header_fields. rewrite Hh. reflexivity.
Qed.

(** X23. Reading the hash of a block a second time returns the same hash
    and changes nothing; the first read leaves the header fields, the uncles,
    the class and the transactions trie as they were.  On a [Block] the
    first read commits the state, and the hash is that of the 13 header
    fields as they are after the commit. *)
Theorem hash_computed_again (w w1 : world) (h : string) :
  hash w = (Ok h, w1) →
  hash w1 = (Ok h, w1) ∧
  keeps_header w w1 ∧
  (cls (w_self w) = ClsBlock →
   (commit_state w).2 = w1 ∧ h = header_hash (w_heap w1) (w_self w1)).
Proof.
  intros Hh. split; [|split].
  - revert Hh. unfold hash, _hash. rewrite !bind_unfold. simpl.
    destruct (cls (w_self w)) eqn:Hcls.
    + unfold Block__hash, serialize_header.
      rewrite !bind_assoc. rewrite !bind_unfold. rewrite list_header_run.
      destruct (commit_state w) as [[u|e] wc] eqn:Hc; [|discriminate].
      destruct u. simpl. intros Heq. inversion Heq; subst h w1; clear Heq.
      pose proof (kh_commit_state _ _ _ Hc) as (_ & _ & Hcls' & _).
      rewrite Hcls', Hcls. rewrite !bind_unfold. rewrite list_header_run.
      rewrite (commit_state_again _ _ Hc). reflexivity.
    + unfold CachedBlock__hash. rewrite !bind_unfold. simpl.
      assert (Hrecompute : ∀ b0 : world, cls (w_self b0) = ClsCachedBlock →
                (Block__hash ≫= λ h', modify_self (set_hash_cached (Some h'));; mret h') b0 =
                (Ok (header_hash (w_heap b0) (w_self b0)),
                 {| w_heap := w_heap b0;
                    w_self := set_hash_cached (Some (header_hash (w_heap b0) (w_self b0)))
                                (w_self b0) |})).
      { intros b0 Hb0. erewrite bind_ok by (apply Block__hash_cached; exact Hb0). reflexivity. }
      destruct (hash_cached (w_self w)) as [x|] eqn:Hx.
      * destruct (bool_decide (x = ""%string)) eqn:Hxe.
        -- rewrite Hrecompute by exact Hcls. intros Heq. inversion Heq; subst h w1; clear Heq.
           simpl. rewrite Hcls. rewrite bind_unfold. simpl.
           destruct (bool_decide (header_hash (w_heap w) (w_self w) = ""%string)).
           ++ rewrite Hrecompute by (simpl; exact Hcls). reflexivity.
           ++ reflexivity.
        -- intros Heq. inversion Heq; subst h w1; clear Heq.
           rewrite Hcls. rewrite bind_unfold. simpl. rewrite Hx, Hxe. reflexivity.
      * rewrite Hrecompute by exact Hcls. intros Heq. inversion Heq; subst h w1; clear Heq.
        simpl. rewrite Hcls. rewrite bind_unfold. simpl.
        destruct (bool_decide (header_hash (w_heap w) (w_self w) = ""%string)).
        -- rewrite Hrecompute by (simpl; exact Hcls). reflexivity.
        -- reflexivity.
  - eapply kh_hash. exact Hh.
  - intros Hcls. revert Hh. unfold hash, _hash. rewrite !bind_unfold. simpl. rewrite Hcls.
    unfold Block__hash, serialize_header.
    rewrite !bind_assoc. rewrite !bind_unfold. rewrite list_header_run.
    destruct (commit_state w) as [[u|e] wc] eqn:Hc; [|discriminate].
    simpl. intros Heq. inversion Heq; subst. split; reflexivity.
Qed.

End hash_again.

Lemma hash_computed_again_witness :
  hash (env := ref_env) (hash (env := ref_env) ref_world_balance).2 =
    (Ok ref_balance_hash, (hash (env := ref_env) ref_world_balance).2).
Proof.
  assert (Hh : hash (env := ref_env) ref_world_balance =
               (Ok ref_balance_hash, (hash (env := ref_env) ref_world_balance).2))
    by (vm_compute; reflexivity).
  exact (proj1 (hash_computed_again (env := ref_env) _ _ _ Hh)).
Defined.

(** ** What the constructor checks *)

Section constructed.
Context {env : Env}.

(** X24. Every block that the constructor returns (given no
    transactions) has a coinbase that is not empty, at most 1024 bytes of
    extra data, and a state root and a transaction list root that the store
    knows; unless it is a genesis block or its nonce is empty, the header it
    was given (or, without one, its own header list) passes the
    proof-of-work check. *)
Theorem constructed_block_valid p uh cb sr tr d n mgp gl gu ts ed nc us header
    (w w' : world) (child : Block) :
  Block_init p uh cb sr tr d n mgp gl gu ts ed nc [] us header w = (Ok child, w') →
  cb ≠ ""%string ∧
  (String.length ed ≤ 1024)%nat ∧
  root_hash_valid (Trie_new sr) = true ∧
  root_hash_valid (Trie_new tr) = true ∧
  (is_genesis child = false → nc ≠ ""%string →
   check_header_pow (match header with
                     | Some (x :: l) => x :: l
                     | _ => header_fields (w_heap w') child
                     end) = Ok true).
Proof.
  intros Hi.
  pose proof (Block_init_fresh _ _ _ _ _ _ _ _ _ _ _ _ _ _ _ _ _ _ Hi)
    as (_ & Hhdr & _ & _ & Hstate & _ & _ & Hj & Htx & _ & Hchecks & _).
  set (wc := {| w_heap := w_heap w'; w_self := child |}) in *.
  unfold Block_init_checks in Hchecks.
  replace (bool_decide (@nil rlp ≠ [])) with false in Hchecks
    by (symmetry; apply bool_decide_eq_false; tauto).
  apply bind_inv_ok in Hchecks as ([] & w1 & H1 & Hchecks).
  inversion H1; subst w1; clear H1.
  apply bind_inv_ok in Hchecks as ([] & w2 & Hloop & Htail).
  apply for_each_pure_inv in Hloop as (-> & _); [| |exact Hj].
  2:{ intros nt. pres_go. apply cmp_getattr_field. }
  rewrite bind_unfold in Htail. simpl in Htail.
  rewrite Hstate, Hhdr in Htail. simpl in Htail.
  destruct (root_hash_valid (Trie_new sr)) eqn:Hsr; simpl in Htail; [|discriminate].
  rewrite bind_unfold in Htail. simpl in Htail. rewrite Htx in Htail.
  destruct (bool_decide (tr = root_hash (Trie_new tr))); simpl in Htail; [|discriminate].
  destruct (root_hash_valid (Trie_new tr)) eqn:Htr; simpl in Htail; [|discriminate].
  destruct (bool_decide (1024 < String.length ed)%nat) eqn:Hed; [discriminate|].
  apply bool_decide_eq_false in Hed.
  destruct (bool_decide (cb = ""%string)) eqn:Hcb; [discriminate|].
  apply bool_decide_eq_false in Hcb.
  split; [exact Hcb|]. split; [lia|]. split; [reflexivity|]. split; [reflexivity|].
  intros Hgen Hnc. rewrite Hgen in Htail. simpl in Htail.
  rewrite bool_decide_false in Htail by exact Hnc. simpl in Htail.
  assert (Hlist : list_header [] wc = (Ok (header_fields (w_heap w') child), wc)).
  { rewrite list_header_run. rewrite commit_state_empty_journal by exact Hj. reflexivity. }
  assert (Hh : ∃ h, (match header with
                     | Some (x :: l) => mret (x :: l)
                     | _ => list_header []
                     end) wc = (Ok h, wc) ∧
                    h = match header with
                        | Some (x :: l) => x :: l
                        | _ => header_fields (w_heap w') child
                        end).
  { destruct header as [[|x l]|]; eauto. }
  destruct Hh as (h & Hh & Heq). rewrite <- Heq.
  erewrite bind_ok in Htail by exact Hh.
  rewrite bind_unfold in Htail. unfold lift in Htail.
  destruct (check_header_pow h) as [[|]|e]; try discriminate. reflexivity.
Qed.

End constructed.

Lemma constructed_block_valid_witness :
  coinbase (hdr ref_child_1004) ≠ ""%string.
Proof.
  assert (H1 : init_from_parent (env := ref_env) "cb" "" 1004 [] ref_world =
               (Ok ref_child_1004, (init_from_parent (env := ref_env) "cb" "" 1004 [] ref_world).2))
    by (vm_compute; reflexivity).
  unfold init_from_parent in H1 at 1.
  destruct (hash (env := ref_env) ref_world) as [[hh|e] w1] eqn:Hh.
  2:{ rewrite (bind_raise _ _ _ _ _ Hh) in H1. discriminate. }
  rewrite (bind_ok _ _ _ _ _ Hh) in H1.
  rewrite bind_unfold in H1. simpl in H1.
  pose proof (Block_init_hdr _ _ _ _ _ _ _ _ _ _ _ _ _ _ _ _ _ _ H1) as Hhdr.
  destruct (constructed_block_valid (env := ref_env) _ _ _ _ _ _ _ _ _ _ _ _ _ _ _ _ _ _ H1)
    as (Hcb & _).
  rewrite Hhdr. simpl. exact Hcb.
Defined.

(** ** Deleting an account *)

Section deletion.
Context {env : Env}.



End deletion.


(** ** A storage write reaches the state trie *)

Section storage_commit.
Context {env : Env}.

Lemma load_acct_agree address w w' :
  state (w_self w') = state (w_self w) →
  blank_acct (w_self w') = blank_acct (w_self w) →
  (load_acct address w').1 = (load_acct address w).1.
Proof.
  intros Hs Hb. unfold load_acct. rewrite !bind_unfold. simpl. rewrite Hs.
  destruct (rlp_truthy _); [reflexivity|]. apply mk_blank_acct_fst. exact Hb.
Qed.

Lemma oba_load_acct address : preserves only_blank_acct (load_acct address).
Proof. unfold load_acct. pres_go; apply oba_mk_blank_acct. Qed.

(** The storage field of an account one of whose storage slots was
    written. *)
Lemma commit_field_storage_one address idx typ acct root (i : key) (v : value) w :
  caches (w_self w) !! ("storage:" +:+ address)%string = Some (<[i := v]> ∅) →
  rlp_index acct idx = Ok root →
  let t := commit_storage
             {| root_hash := rlp_str root; t_proof_mode := proof_mode (w_self w);
                t_proof_nodes := proof_nodes (w_self w) |} (i, v) in
  commit_field address idx "storage" typ acct w =
    match rlp_set acct idx (RStr (root_hash t)) with
    | Ok acct' =>
      (Ok acct',
       {| w_heap := w_heap w;
          w_self := set_proof_nodes
            (t_proof_nodes t ++
             if bool_decide (proof_mode (w_self w) = Some RECORDING) then t_proof_nodes t else [])
            (w_self w) |})
    | Raise e => (Raise e, w)
    end.
Proof.
  intros Hsub Hroot t. unfold commit_field. rewrite bind_unfold. simpl.
  rewrite Hsub. simpl. rewrite insert_empty, map_to_list_singleton. simpl.
  rewrite Hroot. unfold lift, mbind, M_bind. simpl. fold t.
  destruct (rlp_set acct idx (RStr (root_hash t))); reflexivity.
Qed.

(** X26. On a [Block] without pending writes and for an address [a] that
    is a hexadecimal string (the commit decodes every written address from
    hex), [set_storage_data(a, i, v)] followed by [commit_state()] returns
    and has stored, under the decoded address, the account
    [[nonce, balance, storage, code]] that the state held for it with its
    storage root replaced: by the root of the storage trie updated at the
    padded index with the encoded value when [v] is not zero, and with the
    index deleted when it is.  The caches are the four empty ones again and
    the journal is empty. *)
Theorem storage_write_committed (w w1 : world) (a : string) (i : key) (v : value)
    (n b s c : string) :
  cls (w_self w) = ClsBlock →
  caches (w_self w) = fresh_caches →
  hex_decodable a = true →
  load_acct (hex_decode a) w = (Ok (RList [RStr n; RStr b; RStr s; RStr c]), w1) →
  let t0 := {| root_hash := s; t_proof_mode := proof_mode (w_self w);
               t_proof_nodes := proof_nodes (w_self w) |} in
  let enckey := zpad (coerce_to_bytes i) 32 in
  let t := if truthy v then trie_update t0 enckey (rlp_encode (RStr (int_to_big_endian v)))
           else trie_delete t0 enckey in
  ∃ w',
    (set_storage_data a i v ;; commit_state) w = (Ok tt, w') ∧
    root_hash (state (w_self w')) =
      root_hash (trie_update (state (w_self w)) (hex_decode a)
                   (rlp_encode (RList [RStr n; RStr b; RStr (root_hash t); RStr c]))) ∧
    caches (w_self w') = fresh_caches ∧
    journals (w_heap w') !!! journal (w_self w') = [].
Proof.
  intros Hcls Hcaches Hhex Hload t0 enckey t.
  set (sk := ("storage:" +:+ a)%string).
  (* the write *)
  assert (Hsk0 : caches (w_self w) !! sk = None).
  { rewrite Hcaches. unfold fresh_caches, sk.
    rewrite !lookup_insert_ne by (simpl; discriminate).
    apply lookup_singleton_ne. simpl. discriminate. }
  set (wa := {| w_heap := w_heap w;
                w_self := set_caches (<[sk := ∅]> (caches (w_self w))) (w_self w) |}).
  set (wb := journalled_write "all" (KAddr a) (VBool true) ∅ wa).
  set (w2 := journalled_write sk i v ∅ wb).
  assert (Hall_a : caches (w_self wa) !! "all"%string = Some ∅).
  { simpl. rewrite lookup_insert_ne by (unfold sk; simpl; discriminate).
    rewrite Hcaches. reflexivity. }
  assert (Hcb : caches (w_self wb) =
                <["all"%string := <[KAddr a := VBool true]> ∅]> (<[sk := ∅]> fresh_caches)).
  { unfold wb. rewrite journalled_write_caches by exact Hall_a.
    rewrite lookup_empty. simpl. rewrite Hcaches. reflexivity. }
  assert (Hsk_b : caches (w_self wb) !! sk = Some ∅).
  { rewrite Hcb. rewrite lookup_insert_ne by (unfold sk; simpl; discriminate).
    apply lookup_insert_eq. }
  assert (Hc2 : caches (w_self w2) =
                <[sk := <[i := v]> ∅]>
                  (<["all"%string := <[KAddr a := VBool true]> ∅]> (<[sk := ∅]> fresh_caches))).
  { unfold w2. rewrite journalled_write_caches by exact Hsk_b.
    rewrite lookup_empty. simpl. rewrite Hcb. reflexivity. }
  assert (Hset : set_storage_data a i v w = (Ok tt, w2)).
  { unfold set_storage_data. rewrite bind_unfold. simpl. fold sk. rewrite Hsk0.
    rewrite bind_unfold. rewrite (bind_unfold (modify_self _)). simpl. fold wa.
    rewrite (set_and_journal_spec "all" (KAddr a) (VBool true) ∅ wa Hall_a). fold wb.
    apply set_and_journal_spec. exact Hsk_b. }
  (* what the write left untouched *)
  destruct (journalled_write_rest sk i v ∅ wb) as (E1 & E2 & E3 & E4 & _).
  destruct (journalled_write_rest "all" (KAddr a) (VBool true) ∅ wa) as (F1 & F2 & F3 & F4 & _).
  fold wb in F1, F2, F3, F4. fold w2 in E1, E2, E3, E4.
  assert (Hst2 : state (w_self w2) = state (w_self w)) by (rewrite E1, F1; reflexivity).
  assert (Hbl2 : blank_acct (w_self w2) = blank_acct (w_self w)) by (rewrite E2, F2; reflexivity).
  assert (Hpm2 : proof_mode (w_self w2) = proof_mode (w_self w)) by (rewrite E3, F3; reflexivity).
  assert (Hpn2 : proof_nodes (w_self w2) = proof_nodes (w_self w)) by (rewrite E4, F4; reflexivity).
  assert (Hcls2 : cls (w_self w2) = ClsBlock).
  { unfold w2, wb. rewrite !journalled_write_cls. exact Hcls. }
  assert (Hjl : bool_decide (length (journals (w_heap w2) !!! journal (w_self w2)) = 0%nat) = false).
  { apply bool_decide_eq_false.
    destruct (journalled_write_journal sk i v ∅ wb) as (Hjj & Hjs).
    fold w2 in Hjj, Hjs. rewrite Hjj, Hjs.
    unfold journalled_entries. rewrite lookup_empty. simpl.
    rewrite length_app. simpl. lia. }
  (* the account that the commit loads *)
  destruct (load_acct (hex_decode a) w2) as [rl wl] eqn:Hload2.
  assert (Hrl : rl = Ok (RList [RStr n; RStr b; RStr s; RStr c])).
  { pose proof (load_acct_agree (hex_decode a) w w2 Hst2 Hbl2) as Hag.
    rewrite Hload2, Hload in Hag. exact Hag. }
  subst rl.
  pose proof (oba_load_acct _ _ _ _ Hload2) as (ba & dp & Hwl).
  assert (Hcl : caches (w_self wl) = caches (w_self w2)) by (rewrite Hwl; reflexivity).
  assert (Hnonce : caches (w_self wl) !! "nonce"%string = Some ∅).
  { rewrite Hcl, Hc2. rewrite !lookup_insert_ne by (unfold sk; simpl; discriminate). reflexivity. }
  assert (Hbalance : caches (w_self wl) !! "balance"%string = Some ∅).
  { rewrite Hcl, Hc2. rewrite !lookup_insert_ne by (unfold sk; simpl; discriminate). reflexivity. }
  assert (Hcode : caches (w_self wl) !! "code"%string = Some ∅).
  { rewrite Hcl, Hc2. rewrite !lookup_insert_ne by (unfold sk; simpl; discriminate). reflexivity. }
  assert (Hsub : caches (w_self wl) !! sk = Some (<[i := v]> ∅)).
  { rewrite Hcl, Hc2. apply lookup_insert_eq. }
  assert (Hall : caches (w_self w2) !! "all"%string = Some (<[KAddr a := VBool true]> ∅)).
  { rewrite Hc2. rewrite lookup_insert_ne by (unfold sk; simpl; discriminate).
    apply lookup_insert_eq. }
  assert (Ht : commit_storage
                 {| root_hash := rlp_str (RStr s); t_proof_mode := proof_mode (w_self wl);
                    t_proof_nodes := proof_nodes (w_self wl) |} (i, v) = t).
  { unfold commit_storage, t, t0, enckey. simpl.
    rewrite Hwl. simpl. rewrite Hpm2, Hpn2. reflexivity. }
  assert (Hacct : ∃ w3, commit_account (KAddr a) w2 = (Ok tt, w3) ∧
            state (w_self w3) =
              trie_update (state (w_self w)) (hex_decode a)
                (rlp_encode (RList [RStr n; RStr b; RStr (root_hash t); RStr c])) ∧
            w_heap w3 = w_heap wl).
  { eexists. split.
    - unfold commit_account. rewrite bind_unfold. simpl.
      rewrite decode_hex_bind, Hhex.
      unfold load_acct in Hload2. rewrite bind_unfold in Hload2. simpl in Hload2.
      erewrite bind_ok by exact Hload2.
      erewrite bind_ok.
      2:{ simpl.
          erewrite bind_ok
            by (eapply commit_field_miss; [discriminate|exact Hnonce|apply lookup_empty]).
          erewrite bind_ok
            by (eapply commit_field_miss; [discriminate|exact Hbalance|apply lookup_empty]).
          erewrite bind_ok.
          2:{ erewrite (commit_field_storage_one a 2 "trie_root" _ (RStr s) i v wl Hsub)
                by reflexivity.
              rewrite Ht. reflexivity. }
          erewrite bind_ok
            by (eapply commit_field_miss; [discriminate|simpl; exact Hcode|apply lookup_empty]).
          reflexivity. }
      rewrite bind_unfold. simpl. rewrite decode_hex_bind, Hhex. reflexivity.
    - simpl. rewrite Hwl. simpl. rewrite Hst2. auto. }
  destruct Hacct as (w3 & Hacct & Hst3 & Hh3).
  assert (Hkeys : (map_to_list (<[KAddr a := VBool true]> (∅ : gmap key value))).*1 = [KAddr a]).
  { rewrite insert_empty, map_to_list_singleton. reflexivity. }
  erewrite bind_ok by exact Hset.
  unfold commit_state. rewrite bind_unfold. simpl. rewrite Hcls2.
  unfold Block_commit_state. rewrite bind_unfold. simpl. rewrite Hjl.
  rewrite bind_unfold. simpl. rewrite Hall. rewrite Hkeys.
  simpl for_each.
  rewrite bind_assoc. erewrite bind_ok by exact Hacct.
  rewrite !bind_unfold. simpl.
  unfold mbind, M_bind, mret, M_ret, get_self, modify_self, reset_cache, alloc_journal. simpl.
  destruct (bool_decide (proof_mode (w_self w3) = Some RECORDING)); simpl.
  - eexists. split; [reflexivity|]. simpl. rewrite Hst3.
    split; [reflexivity|]. split; [reflexivity|]. apply lookup_total_insert_eq.
  - eexists. split; [reflexivity|]. simpl. rewrite Hst3.
    split; [reflexivity|]. split; [reflexivity|]. apply lookup_total_insert_eq.
Qed.

End storage_commit.

Lemma storage_write_committed_witness :
  ∃ w', (set_storage_data "aa" (KIdx 1) (VInt 5) ;; commit_state (env := ref_env)) ref_world =
          (Ok tt, w') ∧
        caches (w_self w') = fresh_caches.
Proof.
  assert (Hload : load_acct (env := ref_env) (@hex_decode ref_env "aa") ref_world =
                  (Ok (RList [RStr ""; RStr ""; RStr ""; RStr ""]),
                   (load_acct (env := ref_env) (@hex_decode ref_env "aa") ref_world).2))
    by (vm_compute; reflexivity).
  destruct (storage_write_committed (env := ref_env) ref_world _ "aa" (KIdx 1) (VInt 5)
              "" "" "" "" eq_refl eq_refl eq_refl Hload) as (w' & Hrun & _ & Hc & _).
  exists w'. split; [exact Hrun | exact Hc].
Defined.

(** ** A snapshot does not outlive a commit *)

Section revert_commit.
Context {env : Env}.


End revert_commit.


(** ** Headers of any length before the proof-of-work check *)

Section pow_malformed.
Context {env : Env}.

(** X28. [check_header_pow] does not look at the number of fields: an
    empty header raises [IndexError]; a header whose last field is not 32
    bytes long fails the assertion, whatever else it holds; with a 32-byte
    last field, a header of at most 5 fields raises [IndexError], and a
    header of 6 fields or more is checked like a full one, all fields but the
    last being hashed and the sixth read as the difficulty. *)
Theorem check_header_pow_malformed (header : list string) :
  (header = [] → check_header_pow header = Raise IndexError) ∧
  (∀ nonce', last header = Some nonce' →
     (String.length nonce' ≠ 32%nat → check_header_pow header = Raise AssertionError) ∧
     (String.length nonce' = 32%nat →
      ((length header ≤ 5)%nat → check_header_pow header = Raise IndexError) ∧
      (∀ d diff, header !! 5%nat = Some d → as_int (decoders "int" (RStr d)) = Some diff →
         diff ≠ 0 →
         check_header_pow header =
           Ok (big_endian_to_int
                 (sha3 (sha3 (rlp_encode (rlp_of_header (removelast header))) +:+ nonce'))
               <? 2 ^ 256 / diff)))).
Proof.
  assert (Hidx : block_structure_rev "difficulty" = Some (5%nat, "int"%string))
    by reflexivity.
  split.
  - intros ->. reflexivity.
  - intros nonce' Hlast. unfold check_header_pow. rewrite Hlast, Hidx. split.
    + intros Hne. rewrite bool_decide_false by exact Hne. reflexivity.
    + intros Heq. rewrite bool_decide_true by exact Heq. simpl. split.
      * intros Hlen. rewrite lookup_ge_None_2 by lia. reflexivity.
      * intros d diff Hd Hdiff Hnz. rewrite Hd, Hdiff.
        apply Z.eqb_neq in Hnz. rewrite Hnz. reflexivity.
Qed.

End pow_malformed.

Lemma check_header_pow_malformed_witness :
  check_header_pow (env := ref_env) [ref_uncle_nonce] = Raise IndexError ∧
  check_header_pow (env := ref_env) ["h0"%string; "short"%string] = Raise AssertionError.
Proof.
  split.
  - destruct (check_header_pow_malformed (env := ref_env) [ref_uncle_nonce]) as (_ & Hl).
    destruct (Hl ref_uncle_nonce eq_refl) as (_ & H32).
    destruct (H32 eq_refl) as (Hshort & _). apply Hshort. simpl. lia.
  - destruct (check_header_pow_malformed (env := ref_env) ["h0"%string; "short"%string])
      as (_ & Hl).
    destruct (Hl "short"%string eq_refl) as (Hbad & _). apply Hbad. discriminate.
Defined.
